(** * secpro_starbed: resource-pressure harness

    A shallow embedding of the Python sources

      - [b/b.py]        arithmetic worker [fibonacci_worker_safe], memory-only monitor
      - [c.py]          arithmetic worker [fibonacci_worker_real], CPU+memory monitor
      - [FN.py]         dense worker [numpy_stress_worker], CPU+memory monitor
      - [b/finumpy.py]  dense worker [matrix_worker], CPU+memory monitor
      - [d.py]          raw allocator [burn]

    Python [float]s that take part in arithmetic (the registers of the
    overflow-safe accumulator) are IEEE-754 binary64 numbers; they are
    modelled with the reference operations of [SpecFloat] at precision 53 and
    [emax = 1024] (round to nearest, ties to even).  Percentages reported by the
    telemetry provider are only compared and stored, never computed with, so
    they are modelled by their rational values.  The [c_ulonglong] shared
    counters are integers modulo [2^64]. *)

From Stdlib Require Import ZArith QArith List Lia Bool Permutation.
From Stdlib Require Import Floats.SpecFloat.
Import ListNotations.
Open Scope Z_scope.

(* ================================================================== *)
(** * Binary64 arithmetic *)
(* ================================================================== *)

Definition float64 := spec_float.

Definition prec : Z := 53.
Definition emax : Z := 1024.

(** [x + y], [x * y], [x > y], [x <= y] on Python floats. *)
Definition fadd (x y : float64) : float64 := SFadd prec emax x y.
Definition fmul (x y : float64) : float64 := SFmul prec emax x y.
Definition fgt (x y : float64) : bool := SFltb y x.
Definition fle (x y : float64) : bool := SFleb x y.

(** [math.isfinite]. *)
Definition is_finite (x : float64) : bool :=
  match x with
  | S754_zero _ | S754_finite _ _ _ => true
  | S754_infinity _ | S754_nan => false
  end.

(** The literals [0.0] and [1.0]. *)
Definition fzero : float64 := S754_zero false.
Definition fone : float64 := S754_finite false 4503599627370496 (-52).

(** Every finite binary64 number is an integer multiple of [2^-1074]; [ival x]
    is that integer for a positive finite [x] (and [0] otherwise). *)
Definition ival (x : float64) : Z :=
  match x with
  | S754_finite false m e => Zpos m * 2 ^ (e + 1074)
  | _ => 0
  end.

(** Positive normal numbers in canonical form. *)
Definition normal_pos (x : float64) : Prop :=
  match x with
  | S754_finite false m e => 2 ^ 52 <= Zpos m < 2 ^ 53 /\ -1074 <= e <= 971
  | _ => False
  end.

(** What the shift-right record of [SpecFloat] knows after [k] bits of [m0]
    have been shifted out: the quotient, and where the remainder [rho] lies
    with respect to the midpoint [2^k / 2]. *)
Definition shr_inv (m0 k : Z) (mrs : shr_record) : Prop :=
  exists rho,
    m0 = shr_m mrs * 2 ^ k + rho /\ 0 <= rho < 2 ^ k /\ 0 <= shr_m mrs /\
    shr_r mrs = (2 ^ k <=? 2 * rho) /\
    shr_s mrs = negb ((rho =? 0) || (2 * rho =? 2 ^ k)).

(* ================================================================== *)
(** * Configuration constants (identical in b.py and c.py) *)
(* ================================================================== *)

(** [MEMORY_LIMIT_PERCENT = 95] *)
Definition MEMORY_LIMIT_PERCENT : Q := 95 # 1.

(** [BATCH_SIZE = 50000] *)
Definition BATCH_SIZE : Z := 50000.

(** [THRESHOLD = 1e300]: the binary64 number nearest to [10^300],
    [0x1.7e43c8800759cp+996]. *)
Definition THRESHOLD : float64 := S754_finite false 6724873095247260 944.

(** [SCALE_FACTOR = 1e-150]: the binary64 number nearest to [10^-150],
    [0x1.a2fe76a3f9475p-499]. *)
Definition SCALE_FACTOR : float64 := S754_finite false 7371020360979573 (-551).

Definition U_ival : Z := Eval vm_compute in ival fone.
Definition T_ival : Z := Eval vm_compute in ival THRESHOLD.
Definition S_ival : Z := Eval vm_compute in ival SCALE_FACTOR.
Definition W_ival : Z := Eval vm_compute in 2 ^ 1074.
Definition lo_prod : Z := Eval vm_compute in 2 ^ 1127.
Definition hi_prod : Z := Eval vm_compute in 2 ^ 3171.

(* ================================================================== *)
(** * Overflow-safe accumulator

    b.py lines 53, 61-68 and c.py lines 107, 114-118:
<<
    a, b = 1.0, 1.0
    ...
        a, b = b, a + b
        if b > THRESHOLD:
            a *= SCALE_FACTOR
            b *= SCALE_FACTOR
            local_scale_count += 1
>>
*)
(* ================================================================== *)

Record accum := mkAccum { acc_a : float64; acc_b : float64 }.

(** [a, b = 1.0, 1.0] *)
Definition accum_init : accum := mkAccum fone fone.

(** [a, b = b, a + b] *)
Definition fib_step (s : accum) : accum :=
  mkAccum (acc_b s) (fadd (acc_a s) (acc_b s)).

(** [a *= SCALE_FACTOR] *)
Definition scale_a (s : accum) : accum :=
  mkAccum (fmul (acc_a s) SCALE_FACTOR) (acc_b s).

(** [b *= SCALE_FACTOR] *)
Definition scale_b (s : accum) : accum :=
  mkAccum (acc_a s) (fmul (acc_b s) SCALE_FACTOR).

(** One pass through the body of the inner loop; the value produced is the
    [acc_b] of the new state, the boolean tells whether a rescale fired. *)
Definition advance (s : accum) : accum * bool :=
  let s1 := fib_step s in
  if fgt (acc_b s1) THRESHOLD then (scale_b (scale_a s1), true) else (s1, false).

(** State and number of rescale events after [n] calls of [advance]. *)
Fixpoint advance_n (n : nat) (s : accum) : accum * Z :=
  match n with
  | O => (s, 0)
  | S n' =>
      let '(s1, c) := advance_n n' s in
      let '(s2, r) := advance s1 in
      (s2, if r then c + 1 else c)
  end.

Definition state_after (n : nat) : accum := fst (advance_n n accum_init).
Definition rescale_count (n : nat) : Z := snd (advance_n n accum_init).

(** The registers are positive and ordered: [0 < a <= b]. *)
Definition ordered_pos (s : accum) : bool :=
  fgt (acc_a s) fzero && fle (acc_a s) (acc_b s).

(** Loop-head invariant of the accumulator, on the integer values:
    [1 <= a <= b <= 3 a] and [b <= THRESHOLD]. *)
Definition acc_inv (s : accum) : Prop :=
  normal_pos (acc_a s) /\ normal_pos (acc_b s) /\
  U_ival <= ival (acc_a s) /\ ival (acc_a s) <= ival (acc_b s) /\
  ival (acc_b s) <= 3 * ival (acc_a s) /\ ival (acc_b s) <= T_ival.

(* ================================================================== *)
(** * Shared objects

    The harness creates one [multiprocessing.Event] and a few
    [multiprocessing.Value]s and hands them to the monitor and to every
    worker.  [total_counter] and [scale_counter] are [c_ulonglong]; in
    finumpy.py the second accumulator is called [total_bytes].  The two
    peak registers are [c_double]. *)
(* ================================================================== *)

Record store := mkStore {
  stop_event : bool;
  total_counter : Z;
  scale_counter : Z;
  max_mem_record : Q;
  max_cpu_record : Q
}.

(** [multiprocessing.Value(ctypes.c_ulonglong, 0)], [Value('d', 0.0)], [Event()] *)
Definition store_init : store := mkStore false 0 0 (0 # 1) (0 # 1).

(** [stop_event.set()] *)
Definition set_stop (s : store) : store :=
  mkStore true (total_counter s) (scale_counter s) (max_mem_record s) (max_cpu_record s).

(** [max_mem_record.value = v] *)
Definition set_max_mem (v : Q) (s : store) : store :=
  mkStore (stop_event s) (total_counter s) (scale_counter s) v (max_cpu_record s).

(** [max_cpu_record.value = v] *)
Definition set_max_cpu (v : Q) (s : store) : store :=
  mkStore (stop_event s) (total_counter s) (scale_counter s) (max_mem_record s) v.

(** Assignment to a [c_ulonglong] keeps the low 64 bits. *)
Definition u64 (v : Z) : Z := v mod 2 ^ 64.

(** [with total_counter.get_lock(): total_counter.value += x] and the same
    for the second accumulator. *)
Definition flush (x y : Z) (s : store) : store :=
  mkStore (stop_event s) (u64 (total_counter s + x)) (u64 (scale_counter s + y))
          (max_mem_record s) (max_cpu_record s).

(** Another process may set the event between two steps of this one. *)
Definition env_stop (ext : bool) (s : store) : store :=
  if ext then set_stop s else s.

(** Comparisons of percentages: [x > y] and [x >= y]. *)
Definition Qgtb (x y : Q) : bool := negb (Qle_bool x y).
Definition Qgeb (x y : Q) : bool := Qle_bool y x.

(* ================================================================== *)
(** * Monitor (parts shared by the scripts) *)
(* ================================================================== *)

(** What the telemetry provider delivers in one tick of the CPU+memory
    monitor: [psutil.cpu_percent] raises, or it returns and
    [psutil.virtual_memory] raises, or both return. *)
Inductive sample :=
| CpuError
| MemError (cpu : Q)
| Sampled (cpu mem : Q).

(** Input of a monitor run: a tick, or another process setting the event
    before the next test of the loop condition. *)
Inductive mon_event (A : Type) :=
| Tick (smp : A)
| OtherSetsStop.

Arguments Tick {A} _.
Arguments OtherSetsStop {A}.

(** [x] is the greatest element of [l] (up to equality of rationals). *)
Definition is_max (l : list Q) (x : Q) : Prop :=
  (forall y, In y l -> (y <= x)%Q) /\ (exists y, In y l /\ (y == x)%Q).

(** The loop of the CPU+memory monitor, which c.py (lines 31-65), FN.py
    (lines 29-51) and finumpy.py (lines 44-70) share: one test of
    [while not stop_event.is_set()] followed, when it passes, by the body.
    The boolean tells whether the loop goes on. *)
Definition monitor_iter (smp : sample) (s : store) : bool * store :=
  if stop_event s then (false, s)
  else
    match smp with
    | CpuError => (false, s)                       (* except Exception: break *)
    | MemError _ => (false, s)                     (* except Exception: break *)
    | Sampled cpu mem =>
        let s1 := if Qgtb mem (max_mem_record s) then set_max_mem mem s else s in
        let s2 := if Qgtb cpu (max_cpu_record s1) then set_max_cpu cpu s1 else s1 in
        if Qgeb mem MEMORY_LIMIT_PERCENT
        then (false, set_stop s2)                  (* stop_event.set(); break *)
        else (true, s2)
    end.

(** Runs the loop over the events; returns whether the loop is still
    running when they are used up, and the shared objects. *)
Fixpoint monitor_loop {A : Type} (iter : A -> store -> bool * store)
         (evs : list (mon_event A)) (s : store) : bool * store :=
  match evs with
  | [] => (true, s)
  | OtherSetsStop :: evs' => monitor_loop iter evs' (set_stop s)
  | Tick smp :: evs' =>
      let '(go, s') := iter smp s in
      if go then monitor_loop iter evs' s' else (false, s')
  end.

(** The samples [(cpu, mem)] whose tick reached the peak update, in order. *)
Fixpoint processed (evs : list (mon_event sample)) (s : store) : list (Q * Q) :=
  match evs with
  | [] => []
  | OtherSetsStop :: evs' => processed evs' (set_stop s)
  | Tick smp :: evs' =>
      let '(go, s') := monitor_iter smp s in
      let here :=
        match smp with
        | Sampled cpu mem => if stop_event s then [] else [(cpu, mem)]
        | _ => []
        end in
      if go then here ++ processed evs' s' else here
  end.

(* ================================================================== *)
(** * Workers (parts shared by the scripts)

    A worker is a small-step machine over its local variables and the
    shared objects.  [mem_ok n] tells whether the platform can satisfy
    the allocation of one more ballast item when [n] are retained; when it
    cannot, the allocation raises [MemoryError].  A run is driven by a
    list of booleans, one per step of the worker: [true] when another
    process sets the event just before that step. *)
(* ================================================================== *)

(** Control points of the arithmetic workers. *)
Inductive fib_pc :=
| AtWhile                 (* about to test [while not stop_event.is_set()] *)
| InFor (i : Z)           (* about to run iteration [i] of [for _ in range(BATCH_SIZE)] *)
| AfterFor                (* the batch is complete *)
| AtFinally               (* entering the [finally] block *)
| Exited.

(** [for _ in range(BATCH_SIZE)]: iteration [i] runs when [i < BATCH_SIZE]. *)
Definition for_next (i : Z) : fib_pc :=
  if i <? BATCH_SIZE then InFor i else AfterFor.

(** Steps still needed to reach [Exited] once the event is set. *)
Definition fib_fuel (p : fib_pc) : nat :=
  match p with
  | Exited => 0
  | AtFinally => 1
  | AtWhile => 2
  | AfterFor => 3
  | InFor i => Z.to_nat (BATCH_SIZE - i) + 3
  end.

(** Iterations of the current batch that are still to run. *)
Definition fib_remaining (p : fib_pc) : Z :=
  match p with
  | InFor i => BATCH_SIZE - i
  | _ => 0
  end.

(** The statement of the loop body at which a failing allocation raises
    [MemoryError].  In b.py the retained item is the float made by the
    arithmetic itself, so the error can come from [a + b] (line 61), from
    [a *= SCALE_FACTOR] (line 66) or from [b *= SCALE_FACTOR] (line 67), all
    of them before [local_scale_count += 1] (line 68), or from the growth of
    the list in [history.append(b)] (line 70).  In c.py the retained item is
    the buffer allocated after the arithmetic (line 120). *)
Inductive alloc_site :=
| AtSum                   (* [a, b = b, a + b] *)
| AtScaleA                (* [a *= SCALE_FACTOR] *)
| AtScaleB                (* [b *= SCALE_FACTOR] *)
| AtRetain.               (* after the arithmetic: [append], [bytearray(...)] *)

(** Registers and rescale tally at the moment the error is raised at
    [site], in an iteration entered with registers [r] and tally [sc].  The
    two scaling statements run only when the new [b] exceeds [THRESHOLD]; in
    an iteration that does not scale, the allocation that follows them is
    the one of [AtRetain]. *)
Definition interrupted (site : alloc_site) (r : accum) (sc : Z) : accum * Z :=
  match site with
  | AtSum => (r, sc)                     (* the assignment has not happened *)
  | _ =>
      let r1 := fib_step r in
      if fgt (acc_b r1) THRESHOLD
      then match site with
           | AtScaleA => (r1, sc)
           | AtScaleB => (scale_a r1, sc)
           | _ => (scale_b (scale_a r1), sc + 1)
           end
      else (r1, sc)
  end.

Section ArithmeticWorker.

(** b.py tests the event again after each batch (lines 74-75), c.py does
    not; b.py retains the produced float, c.py a fresh 1 MiB buffer; [site]
    is where the allocation of the retained item fails when it does. *)
Variable check_after_batch : bool.
Variable ballast : Type.
Variable make_ballast : float64 -> ballast.
Variable site : alloc_site.
Variable mem_ok : nat -> bool.

Record fib_worker := mkFibWorker {
  w_pc : fib_pc;
  history : list ballast;          (* most recent item first *)
  regs : accum;                    (* a, b *)
  local_added : Z;
  local_scale : Z
}.

Definition fib_worker_init : fib_worker :=
  mkFibWorker AtWhile [] accum_init 0 0.

Definition fib_worker_step (w : fib_worker) (s : store) : fib_worker * store :=
  match w_pc w with
  | AtWhile =>
      if stop_event s
      then (mkFibWorker AtFinally (history w) (regs w) (local_added w) (local_scale w), s)
      else (mkFibWorker (for_next 0) (history w) (regs w) (local_added w) (local_scale w), s)
  | InFor i =>
      if mem_ok (length (history w))
      then
        let '(r, rescaled) := advance (regs w) in
        let sc := if rescaled then local_scale w + 1 else local_scale w in
        (mkFibWorker (for_next (i + 1)) (make_ballast (acc_b r) :: history w) r
                     (local_added w) sc, s)
      else (* except MemoryError: stop_event.set() *)
        let '(r, sc) := interrupted site (regs w) (local_scale w) in
        (mkFibWorker AtFinally (history w) r (local_added w) sc, set_stop s)
  | AfterFor =>
      let added := local_added w + BATCH_SIZE in
      if check_after_batch && stop_event s
      then (mkFibWorker AtFinally (history w) (regs w) added (local_scale w), s)
      else (mkFibWorker AtWhile (history w) (regs w) added (local_scale w), s)
  | AtFinally =>
      (mkFibWorker Exited (history w) (regs w) (local_added w) (local_scale w),
       flush (local_added w) (local_scale w) s)
  | Exited => (w, s)
  end.

Fixpoint fib_worker_run (evs : list bool) (c : fib_worker * store) : fib_worker * store :=
  match evs with
  | [] => c
  | ext :: evs' => fib_worker_run evs' (fib_worker_step (fst c) (env_stop ext (snd c)))
  end.

(** Steps still needed to reach [Exited] when the allocator gives out at
    [t] retained items and nobody else sets the event. *)
Definition fib_potential (t : nat) (w : fib_worker) : nat :=
  match w_pc w with
  | Exited => 0
  | AtFinally => 1
  | InFor _ => 3 * (t - length (history w)) + 3
  | AtWhile => 3 * (t - length (history w)) + 4
  | AfterFor => 3 * (t - length (history w)) + 5
  end.

(** What holds of the local variables at every control point: the units
    tally counts whole batches only, the registers and the rescale tally
    follow the accumulator. *)
Definition fib_worker_inv (w : fib_worker) : Prop :=
  exists k : Z,
    0 <= k /\ local_added w = BATCH_SIZE * k /\
    match w_pc w with
    | AtWhile =>
        Z.of_nat (length (history w)) = BATCH_SIZE * k /\
        regs w = state_after (length (history w)) /\
        local_scale w = rescale_count (length (history w))
    | InFor i =>
        0 <= i < BATCH_SIZE /\
        Z.of_nat (length (history w)) = BATCH_SIZE * k + i /\
        regs w = state_after (length (history w)) /\
        local_scale w = rescale_count (length (history w))
    | AfterFor =>
        Z.of_nat (length (history w)) = BATCH_SIZE * (k + 1) /\
        regs w = state_after (length (history w)) /\
        local_scale w = rescale_count (length (history w))
    | AtFinally | Exited => True
    end.

End ArithmeticWorker.

Arguments w_pc {ballast} _.
Arguments history {ballast} _.
Arguments regs {ballast} _.
Arguments local_added {ballast} _.
Arguments local_scale {ballast} _.
Arguments fib_potential {ballast} _ _.
Arguments fib_worker_inv {ballast} _.

(** What holds along a run on an allocator that gives out at [t] retained
    items, started on the shared objects [s0] with the event unset and with
    nobody else setting it. *)
Definition fib_capacity_inv {ballast : Type} (site : alloc_site) (t : nat) (s0 : store)
           (w : fib_worker ballast) (s : store) : Prop :=
  match w_pc w with
  | AtWhile | InFor _ | AfterFor =>
      stop_event s = false /\ (length (history w) <= t)%nat /\
      total_counter s = total_counter s0 /\ scale_counter s = scale_counter s0
  | AtFinally =>
      stop_event s = true /\ length (history w) = t /\
      total_counter s = total_counter s0 /\ scale_counter s = scale_counter s0 /\
      local_added w = BATCH_SIZE * (Z.of_nat t / BATCH_SIZE) /\
      local_scale w = snd (interrupted site (state_after t) (rescale_count t))
  | Exited =>
      stop_event s = true /\ length (history w) = t /\
      total_counter s = u64 (total_counter s0 + BATCH_SIZE * (Z.of_nat t / BATCH_SIZE)) /\
      scale_counter s =
        u64 (scale_counter s0 + snd (interrupted site (state_after t) (rescale_count t)))
  end.

Definition fib_exited {ballast : Type} (w : fib_worker ballast) : bool :=
  match w_pc w with
  | Exited => true
  | _ => false
  end.

(** A worker that has seen the event set leaves its loop soon: from every
    state its run can reach, once the event is set, [steps] further steps
    bring it to its exit, and it retains at most [iters] more items. *)
Definition stops_within {W : Type} (run : list bool -> W * store -> W * store)
           (init : W) (exited : W -> bool) (retained : W -> nat)
           (steps iters : nat) : Prop :=
  forall (evs0 : list bool) (s0 : store) (evs : list bool),
    let c := run evs0 (init, s0) in
    stop_event (snd c) = true ->
    (steps <= length evs)%nat ->
    exited (fst (run evs c)) = true /\
    (retained (fst (run evs c)) <= retained (fst c) + iters)%nat.

(** Control points of the dense workers. *)
Inductive dense_pc :=
| DWhile                  (* about to test [while not stop_event.is_set()] *)
| DBody                   (* about to run the loop body *)
| DFinally                (* entering the [finally] block *)
| DExited.

(** Steps still needed to reach [DExited] once the event is set. *)
Definition dense_fuel (p : dense_pc) : nat :=
  match p with
  | DExited => 0
  | DFinally => 1
  | DWhile => 2
  | DBody => 3
  end.

(** Loop bodies that may still run once the event is set. *)
Definition dense_remaining (p : dense_pc) : nat :=
  match p with
  | DBody => 1
  | _ => 0
  end.

(* ================================================================== *)
(** * Harness (parts shared by the scripts)

    The [__main__] block of a script is the sequence of actions it
    performs on the worker processes and on the shared objects.
    [cpu_count] is the value of [os.cpu_count()]; the monitor call either
    returns or is cut short by [KeyboardInterrupt]. *)
(* ================================================================== *)

Inductive counter := TotalCounter | SecondCounter.
Inductive peak := MaxMem | MaxCpu.

Inductive action :=
| Start (i : nat)            (* [p.start()] of the worker created in iteration [i] *)
| RunMonitor                 (* [memory_monitor(...)], with its own accesses to the peaks *)
| SetStop                    (* [stop_event.set()] in the interrupt handler *)
| Join (i : nat)             (* [p.join()] *)
| ReadCounter (c : counter)  (* [total_items.value], [scale_counts.value], ... *)
| ReadPeak (p : peak).       (* [max_mem_record.value], [max_cpu_record.value] *)

Inductive monitor_outcome := Returned | Interrupted.

Definition is_read (a : action) : bool :=
  match a with
  | ReadCounter _ | ReadPeak _ => true
  | _ => false
  end.

Definition is_start (a : action) : bool :=
  match a with
  | Start _ => true
  | _ => false
  end.

(** Number of worker processes started. *)
Definition started (tr : list action) : nat := length (filter is_start tr).

(** [for i in range(n): p = Process(...); p.start(); workers.append(p)] *)
Definition spawn_workers (n : nat) : list action := map Start (seq 0 n).

(** [try: memory_monitor(...) except KeyboardInterrupt: stop_event.set()] *)
Definition run_monitor (o : monitor_outcome) : list action :=
  match o with
  | Returned => [RunMonitor]
  | Interrupted => [RunMonitor; SetStop]
  end.

(** [for p in workers: p.join()] *)
Definition join_workers (n : nat) : list action := map Join (seq 0 n).

(** Every read in [tr] comes after the join of each of the [n] workers. *)
Definition reads_after_joins (n : nat) (tr : list action) : Prop :=
  forall pre a post,
    tr = pre ++ a :: post -> is_read a = true ->
    forall i, (i < n)%nat -> In (Join i) pre.

(* ================================================================== *)
(** * b/b.py *)
(* ================================================================== *)

Module b_py.

(** Lines 25-46: the memory-only monitor.  A tick delivers [Some mem], or
    [None] when [psutil.virtual_memory] raises. *)
Definition monitor_iter (smp : option Q) (s : store) : bool * store :=
  if stop_event s then (false, s)
  else
    match smp with
    | None => (false, s)                           (* except Exception: break *)
    | Some mem =>
        let s1 := if Qgtb mem (max_mem_record s) then set_max_mem mem s else s in
        if Qgeb mem MEMORY_LIMIT_PERCENT
        then (false, set_stop s1)                  (* stop_event.set(); break *)
        else (true, s1)                            (* time.sleep(CHECK_INTERVAL) *)
    end.

Definition memory_monitor := monitor_loop monitor_iter.

(** Lines 48-86.  [history.append(b)] retains the produced float, which the
    arithmetic of the iteration allocates: a failing allocation raises at
    [site], one of lines 61, 66, 67 and 70. *)
Definition fibonacci_worker_safe (site : alloc_site) (mem_ok : nat -> bool) :=
  fib_worker_run true float64 (fun b => b) site mem_ok.

Definition worker_init : fib_worker float64 := fib_worker_init float64.

(** Lines 89-139; the speed line is printed when [duration > 0]. *)
Definition main (cpu_count : nat) (o : monitor_outcome) (duration_pos : bool) : list action :=
  let num_workers := cpu_count in
  spawn_workers num_workers ++ run_monitor o ++ join_workers num_workers ++
  [ReadPeak MaxMem; ReadPeak MaxMem;
   ReadCounter TotalCounter; ReadCounter SecondCounter] ++
  (if duration_pos then [ReadCounter TotalCounter] else []).

End b_py.

(* ================================================================== *)
(** * c.py *)
(* ================================================================== *)

Module c_py.

(** Lines 19-65. *)
Definition memory_monitor := monitor_loop monitor_iter.

(** [bytearray(1024 * 1024)] with [buf[0] = 1]: length and first byte. *)
Definition buffer : Type := Z * Z.
Definition new_buffer (_ : float64) : buffer := (1024 * 1024, 1).

(** Lines 105-131.  The retained buffer is allocated after the arithmetic
    (line 120). *)
Definition fibonacci_worker_real (mem_ok : nat -> bool) :=
  fib_worker_run false buffer new_buffer AtRetain mem_ok.

Definition worker_init : fib_worker buffer := fib_worker_init buffer.

(** Lines 134-190; the throughput line is printed when [duration > 0]. *)
Definition main (cpu_count : nat) (o : monitor_outcome) (duration_pos : bool) : list action :=
  spawn_workers cpu_count ++ run_monitor o ++ join_workers cpu_count ++
  [ReadPeak MaxMem; ReadPeak MaxCpu; ReadPeak MaxMem;
   ReadCounter TotalCounter; ReadCounter SecondCounter] ++
  (if duration_pos then [ReadCounter TotalCounter] else []).

End c_py.

(* ================================================================== *)
(** * FN.py *)
(* ================================================================== *)

Module FN_py.

(** Lines 20-51. *)
Definition memory_monitor := monitor_loop monitor_iter.

Definition CHUNK_SIZE_MB : Z := 100.

(** [elements = (CHUNK_SIZE_MB * 1024 * 1024) // 4] *)
Definition elements : Z := (CHUNK_SIZE_MB * 1024 * 1024) / 4.

Record worker := mkWorker {
  w_pc : dense_pc;
  history : list Z;                (* retained arrays, by number of elements *)
  local_count : Z
}.

Definition worker_init : worker := mkWorker DWhile [] 0.

(** Lines 63-85; the worker never touches the second accumulator. *)
Definition worker_step (mem_ok : nat -> bool) (w : worker) (s : store) : worker * store :=
  match w_pc w with
  | DWhile =>
      if stop_event s
      then (mkWorker DFinally (history w) (local_count w), s)
      else (mkWorker DBody (history w) (local_count w), s)
  | DBody =>
      if mem_ok (length (history w))
      then
        let next := if stop_event s then DFinally else DWhile in
        (mkWorker next (elements :: history w) (local_count w + 1), s)
      else (* except MemoryError: stop_event.set() *)
        (mkWorker DFinally (history w) (local_count w), set_stop s)
  | DFinally =>
      (mkWorker DExited (history w) (local_count w),
       mkStore (stop_event s) (u64 (total_counter s + local_count w * CHUNK_SIZE_MB))
               (scale_counter s) (max_mem_record s) (max_cpu_record s))
  | DExited => (w, s)
  end.

Fixpoint numpy_stress_worker (mem_ok : nat -> bool) (evs : list bool) (c : worker * store)
  : worker * store :=
  match evs with
  | [] => c
  | ext :: evs' =>
      numpy_stress_worker mem_ok evs' (worker_step mem_ok (fst c) (env_stop ext (snd c)))
  end.

Definition exited (w : worker) : bool :=
  match w_pc w with
  | DExited => true
  | _ => false
  end.

(** Lines 93-132. *)
Definition main (cpu_count : nat) (o : monitor_outcome) : list action :=
  spawn_workers cpu_count ++ run_monitor o ++ join_workers cpu_count ++
  [ReadPeak MaxCpu; ReadPeak MaxMem; ReadCounter TotalCounter; ReadCounter TotalCounter].

End FN_py.

(* ================================================================== *)
(** * b/finumpy.py *)
(* ================================================================== *)

Module finumpy_py.

(** Lines 32-70. *)
Definition memory_monitor := monitor_loop monitor_iter.

Definition MATRIX_SIZE : Z := 2500.

(** [A.nbytes] of a [MATRIX_SIZE] x [MATRIX_SIZE] float64 array. *)
Definition size_per_step : Z := MATRIX_SIZE * MATRIX_SIZE * 8.

Record worker := mkWorker {
  w_pc : dense_pc;
  data_store : list Z;             (* retained results, by size in bytes *)
  local_count : Z;
  local_bytes : Z
}.

Definition worker_init : worker := mkWorker DWhile [] 0 0.

(** Lines 88-118. *)
Definition worker_step (mem_ok : nat -> bool) (w : worker) (s : store) : worker * store :=
  match w_pc w with
  | DWhile =>
      if stop_event s
      then (mkWorker DFinally (data_store w) (local_count w) (local_bytes w), s)
      else (mkWorker DBody (data_store w) (local_count w) (local_bytes w), s)
  | DBody =>
      if mem_ok (length (data_store w))
      then
        let cnt := local_count w + 1 in
        let byt := local_bytes w + size_per_step in
        let next := if (cnt mod 10 =? 0) && stop_event s then DFinally else DWhile in
        (mkWorker next (size_per_step :: data_store w) cnt byt, s)
      else (* except MemoryError: stop_event.set() *)
        (mkWorker DFinally (data_store w) (local_count w) (local_bytes w), set_stop s)
  | DFinally =>
      (mkWorker DExited (data_store w) (local_count w) (local_bytes w),
       flush (local_count w) (local_bytes w) s)
  | DExited => (w, s)
  end.

Fixpoint matrix_worker (mem_ok : nat -> bool) (evs : list bool) (c : worker * store)
  : worker * store :=
  match evs with
  | [] => c
  | ext :: evs' =>
      matrix_worker mem_ok evs' (worker_step mem_ok (fst c) (env_stop ext (snd c)))
  end.

Definition exited (w : worker) : bool :=
  match w_pc w with
  | DExited => true
  | _ => false
  end.

(** Lines 122-179; the throughput line is printed when [duration > 0]. *)
Definition main (cpu_count : nat) (o : monitor_outcome) (duration_pos : bool) : list action :=
  spawn_workers cpu_count ++ run_monitor o ++ join_workers cpu_count ++
  [ReadPeak MaxMem; ReadPeak MaxCpu; ReadPeak MaxMem;
   ReadCounter TotalCounter; ReadCounter SecondCounter] ++
  (if duration_pos then [ReadCounter SecondCounter] else []).

End finumpy_py.

(* ================================================================== *)
(** * d.py *)
(* ================================================================== *)

Module d_py.

Definition CHUNK_MB : Z := 64.

(** [burn] takes no parameters: it never sees the shared objects. *)
Record worker := mkWorker {
  crashed : bool;                  (* an uncaught [MemoryError] ended the process *)
  data : list Z                    (* retained buffers, by size in bytes *)
}.

Definition worker_init : worker := mkWorker false [].

(** Lines 8-11: one pass through [while True]. *)
Definition worker_step (mem_ok : nat -> bool) (w : worker) : worker :=
  if crashed w then w
  else if mem_ok (length (data w))
       then mkWorker false (CHUNK_MB * 1024 * 1024 :: data w)
       else mkWorker true (data w).

Fixpoint burn (mem_ok : nat -> bool) (evs : list bool) (c : worker * store)
  : worker * store :=
  match evs with
  | [] => c
  | ext :: evs' => burn mem_ok evs' (worker_step mem_ok (fst c), env_stop ext (snd c))
  end.

(** The loop of [burn] has been left. *)
Definition exited (w : worker) : bool := crashed w.

(** Lines 14-15: [for _ in range(os.cpu_count()*2): Process(target=burn).start()] *)
Definition main (cpu_count : nat) : list action := spawn_workers (cpu_count * 2).

End d_py.

(** An allocator bounded by [t] retained items, and one that never fails. *)
Definition capacity (t : nat) (n : nat) : bool := (n <? t)%nat.
Definition unbounded (n : nat) : bool := true.

(* ================================================================== *)
(** * fibonacci.py

<<
    @lru_cache(maxsize=None)
    def fibonacci(n):
        if n < 2:
            return n
        return fibonacci(n - 1) + fibonacci(n - 2)

    print([fibonacci(i) for i in range(1000)])
>>
    The cache of [lru_cache(maxsize=None)] is an unbounded dictionary from
    the argument to the result.  [depth] is the number of nested calls of the
    decorated function the recursion limit still allows.  Every call takes
    one, whether it hits the cache or not: the call enters the cache wrapper
    before the cache is looked at, and on a miss the wrapper runs the body.
    When none is left the call raises [RecursionError] ([None]), which
    unwinds every pending call; the entries made by the calls that had
    returned stay in the cache. *)
(* ================================================================== *)

Module fibonacci_py.

Definition cache : Type := Z -> option Z.

Definition cache_empty : cache := fun _ => None.

Definition cache_put (k v : Z) (c : cache) : cache :=
  fun k' => if k' =? k then Some v else c k'.

Fixpoint fibonacci (depth : nat) (n : Z) (c : cache) : option Z * cache :=
  match depth with
  | O => (None, c)                              (* RecursionError *)
  | S d =>
      match c n with
      | Some v => (Some v, c)                   (* cache hit *)
      | None =>
          if n <? 2 then (Some n, cache_put n n c)
          else
            match fibonacci d (n - 1) c with
            | (None, c1) => (None, c1)
            | (Some r1, c1) =>
                match fibonacci d (n - 2) c1 with
                | (None, c2) => (None, c2)
                | (Some r2, c2) => (Some (r1 + r2), cache_put n (r1 + r2) c2)
                end
            end
      end
  end.




(** The function without its decorator, as a plain recursive definition. *)
Fixpoint fib_nat (n : nat) : Z :=
  match n with
  | O => 0
  | S m =>
      match m with
      | O => 1
      | S k => fib_nat m + fib_nat k
      end
  end.

Definition fibonacci_plain (n : Z) : Z :=
  if n <? 2 then n else fib_nat (Z.to_nat n).

(** Every entry of the cache is the value of the plain function. *)
Definition cache_sound (c : cache) : Prop :=
  forall k v, c k = Some v -> v = fibonacci_plain k.

(** [c'] has every entry of [c]. *)
Definition cache_extends (c c' : cache) : Prop :=
  forall k v, c k = Some v -> c' k = Some v.

End fibonacci_py.

(* ================================================================== *)
(** * c.py, [fibonacci_worker_safe] (lines 67-102)

    The first worker of c.py, which [__main__] does not start: it runs the
    accumulator in batches, retains nothing, and has neither a [finally]
    block nor a handler that sets the event ([except: pass]). *)
(* ================================================================== *)

Module c_py_safe.

Record worker := mkWorker {
  w_pc : fib_pc;
  regs : accum;
  local_added_count : Z;
  local_scale_count : Z
}.

Definition worker_init : worker := mkWorker AtWhile accum_init 0 0.

Definition worker_step (w : worker) (s : store) : worker * store :=
  match w_pc w with
  | AtWhile =>
      if stop_event s
      then (mkWorker Exited (regs w) (local_added_count w) (local_scale_count w), s)
      else (mkWorker (for_next 0) (regs w) (local_added_count w) (local_scale_count w), s)
  | InFor i =>
      let '(r, rescaled) := advance (regs w) in
      let sc := if rescaled then local_scale_count w + 1 else local_scale_count w in
      (mkWorker (for_next (i + 1)) r (local_added_count w) sc, s)
  | AfterFor =>                                    (* pass *)
      (mkWorker AtWhile (regs w) (local_added_count w) (local_scale_count w), s)
  | AtFinally =>                                   (* there is no finally block *)
      (mkWorker Exited (regs w) (local_added_count w) (local_scale_count w), s)
  | Exited => (w, s)
  end.

Fixpoint fibonacci_worker_safe (evs : list bool) (c : worker * store) : worker * store :=
  match evs with
  | [] => c
  | ext :: evs' => fibonacci_worker_safe evs' (worker_step (fst c) (env_stop ext (snd c)))
  end.

Definition exited (w : worker) : bool :=
  match w_pc w with
  | Exited => true
  | _ => false
  end.

End c_py_safe.

(* ================================================================== *)
(** * Further notions used in the statements *)
(* ================================================================== *)

(** The value the accumulator produces in its [k]-th iteration, and the
    values of the first [len] iterations, most recent first. *)
Definition produced (k : nat) : float64 := acc_b (state_after k).
Definition produced_upto (len : nat) : list float64 := rev (map produced (seq 1 len)).

(** What the environment alone does to the shared objects along a run. *)
Definition env_only (evs : list bool) (s : store) : store :=
  fold_left (fun s ext => env_stop ext s) evs s.

(** The memory samples the monitor of b.py processed, in order. *)
Fixpoint processed_mem (evs : list (mon_event (option Q))) (s : store) : list Q :=
  match evs with
  | [] => []
  | OtherSetsStop :: evs' => processed_mem evs' (set_stop s)
  | Tick smp :: evs' =>
      let '(go, s') := b_py.monitor_iter smp s in
      let here :=
        match smp with
        | Some mem => if stop_event s then [] else [mem]
        | None => []
        end in
      if go then here ++ processed_mem evs' s' else here
  end.

(** A tick whose telemetry call raised. *)
Definition is_error (smp : sample) : bool :=
  match smp with
  | Sampled _ _ => false
  | _ => true
  end.

(** The event is a tick: nobody else sets the event there. *)
Definition is_tick {A : Type} (e : mon_event A) : bool :=
  match e with
  | Tick _ => true
  | OtherSetsStop => false
  end.

(** The ticks of a run that raised. *)
Definition error_ticks (evs : list (mon_event sample)) : list (mon_event sample) :=
  filter (fun e => match e with Tick smp => is_error smp | OtherSetsStop => false end) evs.

(** Several workers flush one after the other, each under the locks. *)
Definition flush_all (tallies : list (Z * Z)) (s : store) : store :=
  fold_left (fun s t => flush (fst t) (snd t) s) tallies s.

Definition sum_list (l : list Z) : Z := fold_right Z.add 0 l.

(** An arithmetic worker that left its loop without an allocation failure
    has counted every item it retains. *)
Definition fib_clean_inv {ballast : Type} (w : fib_worker ballast) : Prop :=
  match w_pc w with
  | AtFinally | Exited =>
      local_added w = Z.of_nat (length (history w)) /\
      local_scale w = rescale_count (length (history w))
  | _ => True
  end.

(** The ballast of an arithmetic worker is made of the values produced so
    far. *)
Definition fib_history_inv {ballast : Type} (make_ballast : float64 -> ballast)
           (w : fib_worker ballast) : Prop :=
  history w = map make_ballast (produced_upto (length (history w))).

(** Tallies of [matrix_worker] against its ballast and the shared counters
    it was started on. *)
Definition matrix_inv (s0 : store) (w : finumpy_py.worker) (s : store) : Prop :=
  finumpy_py.local_count w = Z.of_nat (length (finumpy_py.data_store w)) /\
  finumpy_py.local_bytes w = finumpy_py.size_per_step * finumpy_py.local_count w /\
  Forall (fun b => b = finumpy_py.size_per_step) (finumpy_py.data_store w) /\
  if finumpy_py.exited w
  then total_counter s = u64 (total_counter s0 + finumpy_py.local_count w) /\
       scale_counter s = u64 (scale_counter s0 + finumpy_py.local_bytes w)
  else total_counter s = total_counter s0 /\ scale_counter s = scale_counter s0.

(** The same for [numpy_stress_worker]. *)
Definition numpy_inv (s0 : store) (w : FN_py.worker) (s : store) : Prop :=
  FN_py.local_count w = Z.of_nat (length (FN_py.history w)) /\
  Forall (fun e => e = FN_py.elements) (FN_py.history w) /\
  scale_counter s = scale_counter s0 /\
  if FN_py.exited w
  then total_counter s = u64 (total_counter s0 + FN_py.local_count w * FN_py.CHUNK_SIZE_MB)
  else total_counter s = total_counter s0.

(** Steps a dense worker still needs to reach its exit when the allocator
    gives out at [t] retained items and nobody else sets the event. *)
Definition dense_potential (t : nat) (p : dense_pc) (len : nat) : nat :=
  match p with
  | DExited => 0
  | DFinally => 1
  | DBody => 2 * (t - len) + 2
  | DWhile => 2 * (t - len) + 3
  end.

(** What holds of a dense worker along such a run. *)
Definition dense_capacity_inv (t : nat) (p : dense_pc) (len : nat) (s : store) : Prop :=
  match p with
  | DWhile | DBody => stop_event s = false /\ (len <= t)%nat
  | DFinally | DExited => stop_event s = true /\ len = t
  end.

(** The index of the running batch iteration is within the batch. *)
Definition pc_in_range (p : fib_pc) : Prop :=
  match p with
  | InFor i => 0 <= i < BATCH_SIZE
  | _ => True
  end.

(* ================================================================== *)
(** * Rounding in binary64 *)
(* ================================================================== *)

Lemma digits2_pos_bounds (p : positive) :
  2 ^ (Zpos (digits2_pos p) - 1) <= Zpos p < 2 ^ Zpos (digits2_pos p).
Proof.
  induction p as [p IH|p IH|]; cbn [digits2_pos].
  - rewrite Pos2Z.inj_succ.
    replace (Z.succ (Zpos (digits2_pos p)) - 1) with (Z.succ (Zpos (digits2_pos p) - 1)) by lia.
    rewrite !Z.pow_succ_r by lia. lia.
  - rewrite Pos2Z.inj_succ.
    replace (Z.succ (Zpos (digits2_pos p)) - 1) with (Z.succ (Zpos (digits2_pos p) - 1)) by lia.
    rewrite !Z.pow_succ_r by lia. lia.
  - cbn. lia.
Qed.

Lemma pow2_lt_inv (a b : Z) : 0 <= b -> 2 ^ a < 2 ^ b -> a < b.
Proof.
  intros Hb H. destruct (Z_lt_le_dec a b) as [|Hle]; [assumption|].
  apply (Z.pow_le_mono_r 2) in Hle; lia.
Qed.

Lemma digits2_pos_unique (p : positive) (d : Z) :
  2 ^ (d - 1) <= Zpos p < 2 ^ d -> Zpos (digits2_pos p) = d.
Proof.
  intros [H1 H2]. pose proof (digits2_pos_bounds p) as [H3 H4].
  assert (0 < d). { destruct (Z_lt_le_dec 0 d); [assumption|]. rewrite (Z.pow_neg_r 2 d) in H2 by
    (destruct (Z.eq_dec d 0); [subst; cbn in H2; lia|lia]). lia. }
  assert (d - 1 < Zpos (digits2_pos p)) by (apply pow2_lt_inv; lia).
  assert (Zpos (digits2_pos p) - 1 < d) by (apply pow2_lt_inv; lia).
  lia.
Qed.

Lemma shr_inv_0 (m0 : Z) : 0 <= m0 -> shr_inv m0 0 (shr_record_of_loc m0 loc_Exact).
Proof.
  intros H. exists 0. cbn. repeat split; lia.
Qed.

Lemma shr_inv_1 (m0 k : Z) (mrs : shr_record) :
  0 <= k -> shr_inv m0 k mrs -> shr_inv m0 (k + 1) (shr_1 mrs).
Proof.
  intros Hk (rho & Hm & Hr & Hpos & Hrb & Hsb). unfold shr_inv.
  rewrite Z.pow_add_r by lia. change (2 ^ 1) with 2.
  assert (HP : 0 < 2 ^ k) by (apply Z.pow_pos_nonneg; lia).
  remember (2 ^ k) as P eqn:EP. clear EP.
  destruct mrs as [m r s]. cbn [shr_m shr_r shr_s] in *.
  subst r s.
  destruct m as [|[p|p|]|p]; cbn [shr_1 shr_m shr_r shr_s]; try lia.
  - exists rho. cbn [shr_m shr_r shr_s]. repeat split; lia.
  - exists (rho + P). cbn [shr_m shr_r shr_s]. repeat split; lia.
  - exists rho. cbn [shr_m shr_r shr_s]. repeat split; lia.
  - exists (rho + P). cbn [shr_m shr_r shr_s]. repeat split; lia.
Qed.

Lemma shr_inv_iter (m0 : Z) (p : positive) :
  forall k mrs, 0 <= k -> shr_inv m0 k mrs ->
    shr_inv m0 (k + Zpos p) (iter_pos shr_1 p mrs).
Proof.
  induction p as [p IH|p IH|]; intros k mrs Hk H; cbn [iter_pos].
  - replace (k + Zpos p~1) with (((k + 1) + Zpos p) + Zpos p) by lia.
    apply IH; [lia|]. apply IH; [lia|]. now apply shr_inv_1.
  - replace (k + Zpos p~0) with ((k + Zpos p) + Zpos p) by lia.
    apply IH; [lia|]. now apply IH.
  - now apply shr_inv_1.
Qed.

Lemma shr_inv_shr (m0 e n : Z) :
  0 <= m0 ->
  shr_inv m0 (Z.max n 0) (fst (shr (shr_record_of_loc m0 loc_Exact) e n)) /\
  snd (shr (shr_record_of_loc m0 loc_Exact) e n) = e + Z.max n 0.
Proof.
  intros H. destruct n as [|p|p]; cbn [shr fst snd].
  - split; [now apply shr_inv_0|lia].
  - split; [|lia]. replace (Z.max (Zpos p) 0) with (0 + Zpos p) by lia.
    apply shr_inv_iter; [lia|now apply shr_inv_0].
  - split; [now apply shr_inv_0|lia].
Qed.

(* rounding to nearest of a record: within half a unit of the dropped bits *)
Lemma round_nearest_even_inv (m0 k : Z) (mrs : shr_record) :
  0 <= k -> shr_inv m0 k mrs ->
  let m1 := round_nearest_even (shr_m mrs) (loc_of_shr_record mrs) in
  shr_m mrs <= m1 <= shr_m mrs + 1 /\
  2 * Z.abs (m1 * 2 ^ k - m0) <= 2 ^ k /\
  (m1 * 2 ^ k <= m0 + 2 ^ k - 1 \/ m1 * 2 ^ k = m0).
Proof.
  intros Hk (rho & Hm & Hr & Hpos & Hrb & Hsb).
  assert (HP : 0 < 2 ^ k) by (apply Z.pow_pos_nonneg; lia).
  remember (2 ^ k) as P eqn:EP. clear EP.
  destruct mrs as [m r s]. cbn [shr_m shr_r shr_s] in *.
  destruct (P <=? 2 * rho) eqn:E1, (rho =? 0) eqn:E2, (2 * rho =? P) eqn:E3;
    subst r s; cbn [negb orb loc_of_shr_record round_nearest_even];
    try destruct (Z.even m); nia.
Qed.

Lemma shr_fexp_exact (p : positive) (e : Z) :
  let d := Zpos (digits2_pos p) in
  -1074 <= e + d - 53 ->
  shr_inv (Zpos p) (Z.max (d - 53) 0) (fst (shr_fexp prec emax (Zpos p) e loc_Exact)) /\
  snd (shr_fexp prec emax (Zpos p) e loc_Exact) = e + Z.max (d - 53) 0.
Proof.
  intros d Hd. unfold shr_fexp, fexp, emin, prec, emax. cbn [Zdigits2]. fold d.
  replace (Z.max (d + e - 53) (3 - 1024 - 53) - e) with (d - 53) by lia.
  apply shr_inv_shr. lia.
Qed.

Lemma binary_round_aux_normal (p : positive) (e : Z) :
  let d := Zpos (digits2_pos p) in
  53 <= d -> -1074 <= e + d - 53 <= 970 ->
  exists m' e',
    binary_round_aux prec emax false (Zpos p) e loc_Exact = S754_finite false m' e' /\
    2 ^ 52 <= Zpos m' < 2 ^ 53 /\
    e + d - 53 <= e' <= 971 /\
    2 * Z.abs (Zpos m' * 2 ^ (e' - e) - Zpos p) <= 2 ^ (d - 53).
Proof.
  intros d Hd He.
  pose proof (digits2_pos_bounds p) as Hp. fold d in Hp.
  destruct (shr_fexp_exact p e) as [Hinv Hsnd]; [fold d; lia|]. fold d in Hinv, Hsnd.
  unfold binary_round_aux.
  destruct (shr_fexp prec emax (Zpos p) e loc_Exact) as [mrs e1].
  cbn [fst snd] in Hinv, Hsnd.
  replace (Z.max (d - 53) 0) with (d - 53) in * by lia.
  assert (Hk : 0 <= d - 53) by lia.
  pose proof (round_nearest_even_inv _ _ _ Hk Hinv) as (Hm1 & Herr & _).
  destruct Hinv as (rho & Hm & Hr & Hpos & _).
  set (m1 := round_nearest_even (shr_m mrs) (loc_of_shr_record mrs)) in *.
  assert (HP : 0 < 2 ^ (d - 53)) by (apply Z.pow_pos_nonneg; lia).
  assert (Hd1 : 2 ^ (d - 1) = 2 ^ 52 * 2 ^ (d - 53)).
  { rewrite <- Z.pow_add_r by lia. f_equal. lia. }
  assert (Hd2 : 2 ^ d = 2 ^ 53 * 2 ^ (d - 53)).
  { rewrite <- Z.pow_add_r by lia. f_equal. lia. }
  assert (Hmr : 2 ^ 52 <= shr_m mrs < 2 ^ 53).
  { change (2 ^ 52) with 4503599627370496 in *. change (2 ^ 53) with 9007199254740992 in *. nia. }
  destruct (Z.eq_dec m1 (2 ^ 53)) as [E|NE].
  - (* the rounded mantissa carries into the next binade *)
    rewrite E. exists (4503599627370496%positive), (e1 + 1). 
    assert (Hs2 : shr_fexp prec emax (2 ^ 53) e1 loc_Exact
                  = (Build_shr_record 4503599627370496 false false, e1 + 1)).
    { unfold shr_fexp, fexp, emin, prec, emax. change (Zdigits2 (2 ^ 53)) with 54.
      replace (Z.max (54 + e1 - 53) (3 - 1024 - 53) - e1) with 1 by lia. reflexivity. }
    rewrite Hs2. cbn [shr_m].
    split; [|split; [|split]].
    + unfold emax, prec. replace (e1 + 1 <=? 1024 - 53) with true by (symmetry; apply Z.leb_le; lia). reflexivity.
    + cbn. lia.
    + lia.
    + replace (e1 + 1 - e) with (1 + (d - 53)) by lia.
      rewrite Z.pow_add_r by lia. rewrite E in Herr.
      change (2 ^ 53) with 9007199254740992 in *. change (2 ^ 1) with 2. nia.
  - assert (Hm1b : 2 ^ 52 <= m1 < 2 ^ 53) by lia.
    destruct m1 as [|q|q] eqn:Eq1; try (cbn in Hm1b; lia).
    assert (Hq : Zpos (digits2_pos q) = 53) by (apply digits2_pos_unique; exact Hm1b).
    exists q, e1. 
    assert (Hs2 : shr_fexp prec emax (Zpos q) e1 loc_Exact = (shr_record_of_loc (Zpos q) loc_Exact, e1)).
    { unfold shr_fexp, fexp, emin, prec, emax. cbn [Zdigits2]. rewrite Hq.
      replace (Z.max (53 + e1 - 53) (3 - 1024 - 53) - e1) with 0 by lia. reflexivity. }
    rewrite Hs2. cbn [shr_m shr_record_of_loc].
    split; [|split; [|split]].
    + unfold emax, prec. replace (e1 <=? 1024 - 53) with true by (symmetry; apply Z.leb_le; lia). reflexivity.
    + exact Hm1b.
    + lia.
    + replace (e1 - e) with (d - 53) by lia. exact Herr.
Qed.

Lemma pow2_pos (k : Z) : 0 <= k -> 0 < 2 ^ k.
Proof. intros; apply Z.pow_pos_nonneg; lia. Qed.

Lemma pow2_shift (lo hi : Z) : 0 <= lo <= hi -> 2 ^ hi = 2 ^ (hi - lo) * 2 ^ lo.
Proof. intros H. rewrite <- Z.pow_add_r by lia. f_equal. lia. Qed.

Lemma pos_iter_xO (d m : positive) : Zpos (Pos.iter xO m d) = Zpos m * 2 ^ Zpos d.
Proof.
  induction d as [|d IH] using Pos.peano_ind.
  - cbn. lia.
  - rewrite Pos.iter_succ, Pos2Z.inj_xO, IH, Pos2Z.inj_succ, Z.pow_succ_r by lia. lia.
Qed.

Lemma shl_align_spec (m : positive) (e e' : Z) :
  e' <= e -> Zpos (fst (shl_align m e e')) = Zpos m * 2 ^ (e - e').
Proof.
  intros H. unfold shl_align. destruct (e' - e) as [|d|d] eqn:E; cbn [fst].
  - replace (e - e') with 0 by lia. lia.
  - lia.
  - rewrite pos_iter_xO. f_equal. f_equal. lia.
Qed.

Lemma ival_pos (x : spec_float) : normal_pos x -> 0 < ival x.
Proof.
  destruct x as [| | |[|] m e]; cbn [normal_pos ival]; try tauto. intros [_ He].
  pose proof (pow2_pos (e + 1074) ltac:(lia)). lia.
Qed.

Lemma fcompare_spec (x y : spec_float) :
  normal_pos x -> normal_pos y -> SFcompare x y = Some (ival x ?= ival y).
Proof.
  destruct x as [| | |[|] m1 e1]; cbn [normal_pos]; try tauto.
  destruct y as [| | |[|] m2 e2]; cbn [normal_pos]; try tauto.
  intros [Hm1 He1] [Hm2 He2]. cbn [SFcompare ival]. f_equal.
  change (2 ^ 52) with 4503599627370496 in *. change (2 ^ 53) with 9007199254740992 in *.
  destruct (Z.compare_spec e1 e2) as [E|E|E].
  - subst e2. pose proof (pow2_pos (e1 + 1074) ltac:(lia)).
    change (Pos.compare_cont Eq m1 m2) with (Zpos m1 ?= Zpos m2).
    apply Zmult_compare_compat_r. lia.
  - symmetry. apply Z.compare_lt_iff.
    rewrite (pow2_shift (e1 + 1074) (e2 + 1074)) by lia.
    replace (e2 + 1074 - (e1 + 1074)) with (Z.succ (e2 - e1 - 1)) by lia.
    rewrite Z.pow_succ_r by lia.
    pose proof (pow2_pos (e1 + 1074) ltac:(lia)) as HA.
    pose proof (pow2_pos (e2 - e1 - 1) ltac:(lia)) as HB.
    remember (2 ^ (e1 + 1074)) as A. remember (2 ^ (e2 - e1 - 1)) as B.
    assert (A <= B * A) by nia.
    replace (Zpos m2 * (2 * B * A)) with (2 * Zpos m2 * (B * A)) by ring. nia.
  - symmetry. apply Z.compare_gt_iff.
    rewrite (pow2_shift (e2 + 1074) (e1 + 1074)) by lia.
    replace (e1 + 1074 - (e2 + 1074)) with (Z.succ (e1 - e2 - 1)) by lia.
    rewrite Z.pow_succ_r by lia.
    pose proof (pow2_pos (e2 + 1074) ltac:(lia)) as HA.
    pose proof (pow2_pos (e1 - e2 - 1) ltac:(lia)) as HB.
    remember (2 ^ (e2 + 1074)) as A. remember (2 ^ (e1 - e2 - 1)) as B.
    assert (A <= B * A) by nia.
    replace (Zpos m1 * (2 * B * A)) with (2 * Zpos m1 * (B * A)) by ring. nia.
Qed.

(** Where the exponent of [M * 2^e] lies, for [M] of [d] binary digits. *)
Lemma pow2_scaled_lower (M d e lo : Z) :
  0 <= d + e -> 0 <= e -> M < 2 ^ d -> 2 ^ lo <= M * 2 ^ e -> lo < d + e.
Proof.
  intros Hde He HM Hlo. apply pow2_lt_inv; [exact Hde|].
  destruct (Z_lt_le_dec d 0) as [Hd|Hd].
  - rewrite (Z.pow_neg_r 2 d) in HM by exact Hd.
    pose proof (pow2_pos e He) as HQ.
    pose proof (Z.pow_nonneg 2 lo ltac:(lia)) as HL.
    exfalso. nia.
  - rewrite Z.pow_add_r by assumption.
    pose proof (pow2_pos e He) as HQ.
    apply Z.le_lt_trans with (M * 2 ^ e); [exact Hlo|].
    apply Z.mul_lt_mono_pos_r; assumption.
Qed.

Lemma pow2_scaled_upper (M d e hi : Z) :
  0 < d -> 0 <= e -> 0 <= hi -> 2 ^ (d - 1) <= M -> M * 2 ^ e < 2 ^ hi -> d - 1 + e < hi.
Proof.
  intros Hd He Hhi HM Hup. apply pow2_lt_inv; [exact Hhi|].
  rewrite Z.pow_add_r by lia.
  pose proof (pow2_pos e He) as HQ.
  apply Z.le_lt_trans with (M * 2 ^ e); [|exact Hup].
  apply Z.mul_le_mono_nonneg_r; [lia|exact HM].
Qed.

Lemma fmul_spec (x y : spec_float) :
  normal_pos x -> normal_pos y ->
  2 ^ 1127 <= ival x * ival y < 2 ^ 3171 ->
  normal_pos (fmul x y) /\
  2 ^ 53 * Z.abs (ival (fmul x y) * 2 ^ 1074 - ival x * ival y) <= ival x * ival y.
Proof.
  destruct x as [| | |[|] mx ex]; cbn [normal_pos]; try tauto.
  destruct y as [| | |[|] my ey]; cbn [normal_pos]; try tauto.
  intros [Hmx Hex] [Hmy Hey] HP. unfold fmul. cbn [SFmul xorb ival] in *.
  set (d := Zpos (digits2_pos (mx * my))).
  assert (Hd0 : 0 < d) by (unfold d; lia).
  pose proof (digits2_pos_bounds (mx * my)) as HM. fold d in HM.
  rewrite Pos2Z.inj_mul in HM.
  set (Q := 2 ^ (ex + ey + 2148)).
  assert (HQ : 0 < Q) by (apply pow2_pos; lia).
  assert (HPQ : Zpos mx * 2 ^ (ex + 1074) * (Zpos my * 2 ^ (ey + 1074)) = Zpos mx * Zpos my * Q).
  { unfold Q. replace (ex + ey + 2148) with ((ex + 1074) + (ey + 1074)) by lia.
    rewrite (Z.pow_add_r 2 (ex + 1074) (ey + 1074)) by lia. ring. }
  rewrite HPQ in *.
  assert (Hd53 : 105 <= d).
  { assert (104 < d); [|lia]. apply pow2_lt_inv; [lia|].
    change (2 ^ 104) with (2 ^ 52 * 2 ^ 52). nia. }
  assert (Hlo : 1127 < d + (ex + ey + 2148)).
  { apply pow2_scaled_lower with (M := Zpos mx * Zpos my);
      [lia|lia|exact (proj2 HM)|exact (proj1 HP)]. }
  assert (Hhi : d - 1 + (ex + ey + 2148) < 3171).
  { apply pow2_scaled_upper with (M := Zpos mx * Zpos my);
      [lia|lia|lia|exact (proj1 HM)|exact (proj2 HP)]. }
  clear HP HPQ.
  destruct (binary_round_aux_normal (mx * my) (ex + ey)) as (m' & e' & Hr & Hm' & He' & Herr);
    fold d; [lia|lia|].
  fold d in He', Herr. rewrite Pos2Z.inj_mul in Herr.
  rewrite Hr. cbn [normal_pos ival]. split; [split; [exact Hm'|lia]|].
  assert (E1 : 2 ^ (e' + 1074) * 2 ^ 1074 = 2 ^ (e' - (ex + ey)) * Q).
  { unfold Q. rewrite <- !Z.pow_add_r by lia. f_equal. lia. }
  replace (Zpos m' * 2 ^ (e' + 1074) * 2 ^ 1074) with (Zpos m' * 2 ^ (e' - (ex + ey)) * Q)
    by (rewrite <- Z.mul_assoc, <- E1; ring).
  rewrite <- Z.mul_sub_distr_r, Z.abs_mul, (Z.abs_eq Q) by lia.
  assert (E2 : 2 ^ (d - 1) = 2 ^ 52 * 2 ^ (d - 53)).
  { rewrite <- Z.pow_add_r by lia. f_equal. lia. }
  rewrite E2 in HM.
  assert (Hfin : 2 ^ 53 * Z.abs (Zpos m' * 2 ^ (e' - (ex + ey)) - Zpos mx * Zpos my)
                 <= Zpos mx * Zpos my).
  { change (2 ^ 53) with 9007199254740992. change (2 ^ 52) with 4503599627370496 in HM. lia. }
  rewrite Z.mul_assoc. apply Z.mul_le_mono_nonneg_r; [lia|exact Hfin].
Qed.

Lemma fadd_spec (x y : spec_float) :
  normal_pos x -> normal_pos y ->
  ival x + ival y < 2 ^ 2097 ->
  normal_pos (fadd x y) /\
  2 ^ 53 * Z.abs (ival (fadd x y) - (ival x + ival y)) <= ival x + ival y.
Proof.
  destruct x as [| | |[|] mx ex]; cbn [normal_pos]; try tauto.
  destruct y as [| | |[|] my ey]; cbn [normal_pos]; try tauto.
  intros [Hmx Hex] [Hmy Hey] HS. unfold fadd. cbn [SFadd cond_Zopp ival] in *.
  remember (Z.min ex ey) as ez eqn:Eez.
  pose proof (shl_align_spec mx ex ez ltac:(lia)) as Hax.
  pose proof (shl_align_spec my ey ez ltac:(lia)) as Hay.
  remember (fst (shl_align mx ex ez)) as ax eqn:Eax.
  remember (fst (shl_align my ey ez)) as ay eqn:Eay.
  clear Eax Eay.
  change (Zpos ax + Zpos ay) with (Zpos (ax + ay)).
  cbn [binary_normalize]. unfold binary_round.
  remember (Zpos (digits2_pos (ax + ay))) as d eqn:Ed.
  pose proof (digits2_pos_bounds (ax + ay)) as HM. rewrite <- Ed in HM.
  rewrite Pos2Z.inj_add in HM.
  assert (Hd0 : 0 < d) by lia.
  set (Q := 2 ^ (ez + 1074)).
  assert (HQ : 0 < Q) by (apply pow2_pos; lia).
  assert (Hsum : Zpos mx * 2 ^ (ex + 1074) + Zpos my * 2 ^ (ey + 1074) = (Zpos ax + Zpos ay) * Q).
  { rewrite Hax, Hay. unfold Q.
    rewrite (pow2_shift (ez + 1074) (ex + 1074)) by lia.
    rewrite (pow2_shift (ez + 1074) (ey + 1074)) by lia.
    replace (ex + 1074 - (ez + 1074)) with (ex - ez) by lia.
    replace (ey + 1074 - (ez + 1074)) with (ey - ez) by lia. ring. }
  rewrite Hsum in *.
  assert (Hbig : 2 ^ 53 <= Zpos ax + Zpos ay).
  { pose proof (pow2_pos (ex - ez) ltac:(lia)). pose proof (pow2_pos (ey - ez) ltac:(lia)).
    change (2 ^ 53) with 9007199254740992. change (2 ^ 52) with 4503599627370496 in *. nia. }
  assert (Hd54 : 54 <= d).
  { assert (53 < d); [|lia]. apply pow2_lt_inv; lia. }
  assert (Hhi : d - 1 + (ez + 1074) < 2097).
  { apply pow2_scaled_upper with (M := Zpos ax + Zpos ay);
      [lia|lia|lia|exact (proj1 HM)|exact HS]. }
  clear HS Hsum.
  assert (Hal : shl_align (ax + ay) ez (fexp prec emax (d + ez)) = ((ax + ay)%positive, ez)).
  { unfold shl_align, fexp, emin, prec, emax.
    destruct (Z.max (d + ez - 53) (3 - 1024 - 53) - ez) eqn:E; try reflexivity. lia. }
  rewrite Hal.
  destruct (binary_round_aux_normal (ax + ay) ez) as (m' & e' & Hr & Hm' & He' & Herr);
    rewrite <- ?Ed; [lia|lia|].
  rewrite <- Ed in He', Herr. rewrite Pos2Z.inj_add in Herr.
  rewrite Hr. cbn [normal_pos ival]. split; [split; [exact Hm'|lia]|].
  assert (E1 : 2 ^ (e' + 1074) = 2 ^ (e' - ez) * Q).
  { unfold Q. rewrite <- Z.pow_add_r by lia. f_equal. lia. }
  rewrite E1, Z.mul_assoc, <- Z.mul_sub_distr_r, Z.abs_mul, (Z.abs_eq Q) by lia.
  assert (E2 : 2 ^ (d - 1) = 2 ^ 52 * 2 ^ (d - 53)).
  { rewrite <- Z.pow_add_r by lia. f_equal. lia. }
  rewrite E2 in HM.
  assert (Hfin : 2 ^ 53 * Z.abs (Zpos m' * 2 ^ (e' - ez) - (Zpos ax + Zpos ay))
                 <= Zpos ax + Zpos ay).
  { change (2 ^ 53) with 9007199254740992. change (2 ^ 52) with 4503599627370496 in HM.
    lia. }
  rewrite Z.mul_assoc. apply Z.mul_le_mono_nonneg_r; [lia|exact Hfin].
Qed.

Lemma normal_THRESHOLD : normal_pos THRESHOLD.
Proof. cbn. lia. Qed.
Lemma normal_SCALE : normal_pos SCALE_FACTOR.
Proof. cbn. lia. Qed.
Lemma ival_THRESHOLD : ival THRESHOLD = T_ival.
Proof. vm_compute. reflexivity. Qed.
Lemma ival_SCALE : ival SCALE_FACTOR = S_ival.
Proof. vm_compute. reflexivity. Qed.

Lemma acc_inv_init : acc_inv accum_init.
Proof.
  unfold acc_inv, accum_init. cbn [acc_a acc_b].
  assert (E : ival fone = U_ival) by (vm_compute; reflexivity).
  rewrite E. repeat split; try (cbn; lia); unfold U_ival, T_ival; lia.
Qed.

Lemma fgt_spec (x y : float64) :
  normal_pos x -> normal_pos y -> fgt x y = (ival y <? ival x).
Proof.
  intros Hx Hy. unfold fgt, SFltb. rewrite (fcompare_spec y x Hy Hx).
  unfold Z.ltb. destruct (ival y ?= ival x); reflexivity.
Qed.

(* the addition step, on values *)
Lemma fib_step_spec (s : accum) :
  acc_inv s ->
  let s1 := fib_step s in
  normal_pos (acc_a s1) /\ normal_pos (acc_b s1) /\
  acc_a s1 = acc_b s /\
  2 ^ 53 * Z.abs (ival (acc_b s1) - (ival (acc_a s) + ival (acc_b s)))
    <= ival (acc_a s) + ival (acc_b s).
Proof.
  intros (Ha & Hb & HU & Hab & Hb3 & HT) s1. unfold s1, fib_step. cbn [acc_a acc_b].
  destruct (fadd_spec (acc_a s) (acc_b s) Ha Hb) as [Hn Herr].
  - unfold T_ival in HT. 
    assert (2 ^ 2097 = Z.pow_pos 2 2097) by reflexivity.
    lia.
  - auto.
Qed.

Lemma pow2_53 : 2 ^ 53 = 9007199254740992. Proof. reflexivity. Qed.
Lemma pow2_1074 : 2 ^ 1074 = W_ival. Proof. vm_compute. reflexivity. Qed.
Lemma pow2_1127 : 2 ^ 1127 = lo_prod. Proof. vm_compute. reflexivity. Qed.
Lemma pow2_3171 : 2 ^ 3171 = hi_prod. Proof. vm_compute. reflexivity. Qed.

Lemma rescale_spec (x : float64) :
  normal_pos x -> T_ival <= 3 * ival x -> ival x <= 3 * T_ival ->
  normal_pos (fmul x SCALE_FACTOR) /\
  2 ^ 53 * Z.abs (ival (fmul x SCALE_FACTOR) * W_ival - ival x * S_ival) <= ival x * S_ival.
Proof.
  intros Hx Hlo Hhi.
  destruct (fmul_spec x SCALE_FACTOR Hx normal_SCALE) as [Hn Herr].
  - rewrite ival_SCALE, pow2_1127, pow2_3171.
    unfold T_ival in *. unfold S_ival, lo_prod, hi_prod. lia.
  - rewrite ival_SCALE, pow2_1074 in Herr. auto.
Qed.

(** Two quantities scaled by the same factor, each with a relative error of
    at most [1/K], keep their ratio up to a relative error of [2/(K-1)]. *)
Lemma ratio_kept (K A B A2 B2 S W : Z) :
  3 <= K -> 0 < W -> 0 < S -> 0 < A -> 0 < B ->
  K * Z.abs (A2 * W - A * S) <= A * S ->
  K * Z.abs (B2 * W - B * S) <= B * S ->
  (K - 1) * Z.abs (A2 * B - A * B2) <= 2 * (A * B2).
Proof.
  intros HK HW HS HA HB Ha Hb.
  set (a := A2 * W - A * S) in *. set (b := B2 * W - B * S) in *.
  set (D := A2 * B - A * B2).
  assert (H1 : W * D = a * B - A * b) by (unfold D, a, b; ring).
  assert (HABS : 0 < A * B * S) by (apply Z.mul_pos_pos; [apply Z.mul_pos_pos|]; assumption).
  (* K W |D| <= 2 A B S *)
  assert (H3 : K * (W * Z.abs D) <= 2 * (A * B * S)).
  { replace (W * Z.abs D) with (Z.abs (W * D)) by (rewrite Z.abs_mul, (Z.abs_eq W); lia).
    rewrite H1.
    assert (Htri : Z.abs (a * B - A * b) <= Z.abs a * B + A * Z.abs b).
    { eapply Z.le_trans; [apply Z.abs_triangle with (n := a * B) (m := - (A * b))|].
      rewrite Z.abs_opp, !Z.abs_mul, (Z.abs_eq B), (Z.abs_eq A) by lia. lia. }
    assert (Ha' : K * Z.abs a * B <= A * S * B) by (apply Z.mul_le_mono_nonneg_r; lia).
    assert (Hb' : A * (K * Z.abs b) <= A * (B * S)) by (apply Z.mul_le_mono_nonneg_l; lia).
    assert (K * Z.abs (a * B - A * b) <= K * (Z.abs a * B + A * Z.abs b))
      by (apply Z.mul_le_mono_nonneg_l; lia).
    nia. }
  (* (K - 1) A B S <= K A B2 W *)
  assert (H4 : (K - 1) * (A * B * S) <= K * (A * B2 * W)).
  { assert (Hb' : A * (K * Z.abs b) <= A * (B * S)) by (apply Z.mul_le_mono_nonneg_l; lia).
    assert (Hbb : - Z.abs b <= b) by lia.
    assert (A * (K * - Z.abs b) <= A * (K * b)).
    { apply Z.mul_le_mono_nonneg_l; [lia|]. apply Z.mul_le_mono_nonneg_l; lia. }
    replace (A * B2 * W) with (A * (B * S) + A * b) by (unfold b; ring).
    nia. }
  (* combine *)
  assert (H5 : (K - 1) * (K * (W * Z.abs D)) <= 2 * (K * (A * B2 * W))).
  { assert ((K - 1) * (K * (W * Z.abs D)) <= (K - 1) * (2 * (A * B * S)))
      by (apply Z.mul_le_mono_nonneg_l; lia).
    lia. }
  assert (HKW : 0 < K * W) by (apply Z.mul_pos_pos; lia).
  apply Z.mul_le_mono_pos_l with (p := K * W); [exact HKW|].
  replace (K * W * ((K - 1) * Z.abs D)) with ((K - 1) * (K * (W * Z.abs D))) by ring.
  replace (K * W * (2 * (A * B2))) with (2 * (K * (A * B2 * W))) by ring.
  exact H5.
Qed.

(* everything the claims need about one [advance] from a state satisfying the invariant *)
Lemma advance_spec (s : accum) :
  acc_inv s ->
  let s1 := fib_step s in
  let s' := fst (advance s) in
  let r := snd (advance s) in
  acc_inv s' /\
  normal_pos (acc_a s1) /\ normal_pos (acc_b s1) /\
  ival (acc_a s1) < ival (acc_b s1) /\
  ival (acc_b s) < ival (acc_b s1) /\
  (r = false -> s' = s1) /\
  (r = true ->
     s' = scale_b (scale_a s1) /\
     normal_pos (acc_a (scale_a s1)) /\
     ival (acc_a (scale_a s1)) < ival (acc_b s1) /\
     normal_pos (fmul (acc_b s) SCALE_FACTOR) /\
     ival (fmul (acc_b s) SCALE_FACTOR) < ival (acc_b s') /\
     ival (acc_b s) * S_ival < ival (acc_b s') * W_ival /\
     ival (acc_b s') < ival (acc_b s) /\
     2 ^ 53 * Z.abs (ival (acc_a s') * W_ival - ival (acc_a s1) * S_ival)
       <= ival (acc_a s1) * S_ival /\
     2 ^ 53 * Z.abs (ival (acc_b s') * W_ival - ival (acc_b s1) * S_ival)
       <= ival (acc_b s1) * S_ival).
Proof.
  intros Hinv s1 s' r.
  destruct (fib_step_spec s Hinv) as (Ha1 & Hb1 & Ea1 & Herr1). fold s1 in Ha1, Hb1, Ea1, Herr1.
  destruct Hinv as (Ha & Hb & HU & Hab & Hb3 & HT).
  rewrite pow2_53 in Herr1.
  assert (Hgrow : ival (acc_b s) < ival (acc_b s1)) by (unfold U_ival in HU; lia).
  assert (Hup : ival (acc_b s1) <= 3 * ival (acc_b s)) by (unfold U_ival in HU; lia).
  unfold s', r, advance. fold s1.
  rewrite (fgt_spec _ _ Hb1 normal_THRESHOLD), ival_THRESHOLD.
  destruct (T_ival <? ival (acc_b s1)) eqn:Hcmp; cbn [fst snd].
  - (* rescale *)
    apply Z.ltb_lt in Hcmp.
    destruct (rescale_spec (acc_a s1)) as [Hna Hea]; [exact Ha1| rewrite Ea1; lia | rewrite Ea1; lia |].
    destruct (rescale_spec (acc_b s1)) as [Hnb Heb]; [exact Hb1| lia | lia |].
    rewrite pow2_53 in Hea, Heb.
    rewrite Ea1 in *.
    unfold scale_a, scale_b; cbn [acc_a acc_b]. rewrite Ea1.
    unfold acc_inv; cbn [acc_a acc_b].
    remember (ival (acc_a s)) as A. remember (ival (acc_b s)) as B.
    remember (ival (acc_b s1)) as B1.
    remember (ival (fmul (acc_b s) SCALE_FACTOR)) as A2.
    remember (ival (fmul (acc_b s1) SCALE_FACTOR)) as B2.
    unfold U_ival, T_ival, S_ival, W_ival in *.
    repeat match goal with |- _ /\ _ => split end; try assumption; try lia; try discriminate.
    intros _. repeat match goal with |- _ /\ _ => split end; try assumption; try lia.
    reflexivity.
  - apply Z.ltb_ge in Hcmp.
    unfold acc_inv. rewrite Ea1.
    unfold U_ival, T_ival in *.
    repeat match goal with |- _ /\ _ => split end; try assumption; try lia; try discriminate.
    reflexivity.
Qed.

(* ================================================================== *)
(** * The accumulator keeps its invariant *)
(* ================================================================== *)

(** The two literals are the binary64 numbers nearest to [10^300] and to
    [10^-150]: each is within half a unit in the last place of the decimal
    value. *)
Lemma THRESHOLD_is_1e300 :
  2 * Z.abs (ival THRESHOLD - 10 ^ 300 * 2 ^ 1074) <= 2 ^ (944 + 1074).
Proof. apply Z.leb_le. vm_compute. reflexivity. Qed.

Lemma SCALE_FACTOR_is_1e_150 :
  2 * Z.abs (ival SCALE_FACTOR * 10 ^ 150 - 2 ^ 1074) <= 2 ^ (-551 + 1074) * 10 ^ 150.
Proof. apply Z.leb_le. vm_compute. reflexivity. Qed.

(** The first rescale fires in the 1436th iteration. *)
Lemma first_rescale : rescale_count 1435 = 0 /\ rescale_count 1436 = 1.
Proof. split; vm_compute; reflexivity. Qed.

Lemma state_after_S (n : nat) :
  state_after (S n) = fst (advance (state_after n)).
Proof.
  unfold state_after. cbn [advance_n].
  destruct (advance_n n accum_init) as [s1 c]. cbn [fst].
  destruct (advance s1) as [s2 r]. reflexivity.
Qed.

Lemma rescale_count_S (n : nat) :
  rescale_count (S n) =
  if snd (advance (state_after n)) then rescale_count n + 1 else rescale_count n.
Proof.
  unfold rescale_count, state_after. cbn [advance_n].
  destruct (advance_n n accum_init) as [s1 c]. cbn [fst snd].
  destruct (advance s1) as [s2 r]. reflexivity.
Qed.

Lemma acc_inv_state_after (n : nat) : acc_inv (state_after n).
Proof.
  induction n as [|n IH].
  - exact acc_inv_init.
  - rewrite state_after_S. exact (proj1 (advance_spec _ IH)).
Qed.

Lemma rescale_count_nonneg (n : nat) : 0 <= rescale_count n.
Proof.
  induction n as [|n IH]; [reflexivity|].
  rewrite rescale_count_S. destruct (snd (advance (state_after n))); lia.
Qed.

Lemma normal_pos_finite (x : float64) : normal_pos x -> is_finite x = true.
Proof. destruct x as [| | |[|] m e]; cbn; tauto. Qed.

Lemma ordered_pos_intro (s : accum) :
  normal_pos (acc_a s) -> normal_pos (acc_b s) -> ival (acc_a s) <= ival (acc_b s) ->
  ordered_pos s = true.
Proof.
  intros Ha Hb Hle. unfold ordered_pos, fle, SFleb.
  rewrite (fcompare_spec _ _ Ha Hb).
  apply andb_true_intro; split.
  - destruct (acc_a s) as [| | |[|] m e]; cbn [normal_pos] in Ha; try tauto; reflexivity.
  - destruct (Z.compare_spec (ival (acc_a s)) (ival (acc_b s))); try reflexivity; lia.
Qed.

(** C1.  Starting from [a = b = 1.0], every value produced by the
    accumulator is finite.  On a step without rescale the produced value is
    strictly greater than the previous one; on a step with rescale it is
    strictly greater than the previous value multiplied by [SCALE_FACTOR]
    (and it is smaller than the previous value itself, so the exception is
    needed).  The rescale keeps the ratio [a / b] up to the rounding of the
    two products: the ratios before and after differ by at most a relative
    [2^-51]. *)
Theorem C1_accumulator_finite_increasing (n : nat) :
  let prev := acc_b (state_after n) in
  let new := acc_b (state_after (S n)) in
  let rescaled := snd (advance (state_after n)) in
  is_finite new = true /\
  (rescaled = false -> fgt new prev = true) /\
  (rescaled = true -> fgt new (fmul prev SCALE_FACTOR) = true) /\
  (rescaled = true -> fgt prev new = true) /\
  (rescaled = true ->
     let s1 := fib_step (state_after n) in
     let s2 := state_after (S n) in
     2 ^ 51 * Z.abs (ival (acc_a s2) * ival (acc_b s1) - ival (acc_a s1) * ival (acc_b s2))
       <= ival (acc_a s1) * ival (acc_b s2)).
Proof.
  cbv zeta.
  pose proof (acc_inv_state_after n) as Hn.
  pose proof (acc_inv_state_after (S n)) as HSn.
  destruct (advance_spec _ Hn) as (_ & Ha1 & Hb1 & _ & Hgrow & Hno & Hyes).
  assert (Hnew : normal_pos (acc_b (state_after (S n)))) by (destruct HSn as (_ & H & _); exact H).
  assert (Hprev : normal_pos (acc_b (state_after n))) by (destruct Hn as (_ & H & _); exact H).
  split; [now apply normal_pos_finite|].
  split; [|split; [|split]].
  - intros Hr. specialize (Hno Hr).
    rewrite (fgt_spec _ _ Hnew Hprev). apply Z.ltb_lt.
    rewrite state_after_S, Hno. exact Hgrow.
  - intros Hr. destruct (Hyes Hr) as (_ & _ & _ & Hnp & Hlt & _).
    rewrite (fgt_spec _ _ Hnew Hnp). apply Z.ltb_lt.
    rewrite state_after_S. exact Hlt.
  - intros Hr. destruct (Hyes Hr) as (_ & _ & _ & _ & _ & _ & Hlt & _).
    rewrite (fgt_spec _ _ Hprev Hnew). apply Z.ltb_lt.
    rewrite state_after_S. exact Hlt.
  - intros Hr. destruct (Hyes Hr) as (_ & _ & _ & _ & _ & _ & _ & Hea & Heb).
    rewrite state_after_S.
    pose proof (ival_pos _ Ha1) as HA. pose proof (ival_pos _ Hb1) as HB.
    pose proof (ratio_kept (2 ^ 53) _ _ _ _ S_ival W_ival
                  ltac:(rewrite pow2_53; lia) ltac:(reflexivity) ltac:(reflexivity)
                  HA HB Hea Heb) as Hratio.
    rewrite pow2_53 in Hratio. change (2 ^ 51) with 2251799813685248. lia.
Qed.

Lemma C1_accumulator_witness :
  snd (advance (state_after 1435)) = true /\
  fgt (acc_b (state_after 1436)) (fmul (acc_b (state_after 1435)) SCALE_FACTOR) = true.
Proof.
  split; [vm_compute; reflexivity|].
  apply (C1_accumulator_finite_increasing 1435). vm_compute; reflexivity.
Defined.

(** C9.  At every point of the accumulator's execution the registers satisfy
    [0 < a <= b]: at the head of each iteration (so at initialisation, for
    [n = 0]), after [a, b = b, a + b], and, when the rescale fires, after
    [a *= SCALE_FACTOR] and after [b *= SCALE_FACTOR]. *)
Theorem C9_registers_positive_ordered (n : nat) :
  let s := state_after n in
  ordered_pos s = true /\
  ordered_pos (fib_step s) = true /\
  (snd (advance s) = true ->
     ordered_pos (scale_a (fib_step s)) = true /\
     ordered_pos (scale_b (scale_a (fib_step s))) = true).
Proof.
  cbv zeta. pose proof (acc_inv_state_after n) as Hn.
  destruct (advance_spec _ Hn) as (Hinv' & Ha1 & Hb1 & Hlt1 & _ & _ & Hyes).
  split; [|split].
  - destruct Hn as (Ha & Hb & _ & Hab & _). now apply ordered_pos_intro.
  - apply ordered_pos_intro; [exact Ha1|exact Hb1|lia].
  - intros Hr. destruct (Hyes Hr) as (Es & Hna & Hlt & _). split.
    + apply ordered_pos_intro; [exact Hna|exact Hb1|cbn [scale_a acc_a acc_b] in *; lia].
    + rewrite <- Es. destruct Hinv' as (Ha & Hb & _ & Hab & _). now apply ordered_pos_intro.
Qed.

Lemma C9_registers_witness :
  snd (advance (state_after 1435)) = true /\
  ordered_pos (scale_a (fib_step (state_after 1435))) = true /\
  ordered_pos (scale_b (scale_a (fib_step (state_after 1435)))) = true.
Proof.
  split; [vm_compute; reflexivity|].
  apply (C9_registers_positive_ordered 1435). vm_compute; reflexivity.
Defined.

(* ================================================================== *)
(** * Monitor *)
(* ================================================================== *)

Lemma Qgtb_true (x y : Q) : Qgtb x y = true <-> (y < x)%Q.
Proof.
  unfold Qgtb. rewrite negb_true_iff. split; intros H.
  - apply Qnot_le_lt. intros Hle. apply Qle_bool_iff in Hle. congruence.
  - destruct (Qle_bool x y) eqn:E; [|reflexivity].
    apply Qle_bool_iff in E. exfalso. exact (Qlt_not_le _ _ H E).
Qed.

Lemma Qgtb_false (x y : Q) : Qgtb x y = false <-> (x <= y)%Q.
Proof.
  unfold Qgtb. rewrite negb_false_iff. apply Qle_bool_iff.
Qed.

Lemma Qgeb_true (x y : Q) : Qgeb x y = true <-> (y <= x)%Q.
Proof. unfold Qgeb. apply Qle_bool_iff. Qed.

Lemma Qgeb_false (x y : Q) : Qgeb x y = false <-> (x < y)%Q.
Proof.
  unfold Qgeb. split; intros H.
  - apply Qnot_le_lt. intros Hle. apply Qle_bool_iff in Hle. congruence.
  - destruct (Qle_bool y x) eqn:E; [|reflexivity].
    apply Qle_bool_iff in E. exfalso. exact (Qlt_not_le _ _ H E).
Qed.

(** The peak update of one register: the new value is the larger of the
    old value and the sample. *)
Lemma peak_update_mem (v : Q) (s : store) :
  let s' := if Qgtb v (max_mem_record s) then set_max_mem v s else s in
  (max_mem_record s <= max_mem_record s')%Q /\ (v <= max_mem_record s')%Q /\
  (max_mem_record s' = max_mem_record s \/ max_mem_record s' = v) /\
  max_cpu_record s' = max_cpu_record s /\ stop_event s' = stop_event s.
Proof.
  cbv zeta. destruct (Qgtb v (max_mem_record s)) eqn:E.
  - apply Qgtb_true in E. cbn. repeat split; auto using Qlt_le_weak, Qle_refl.
  - apply Qgtb_false in E. repeat split; auto using Qle_refl.
Qed.

Lemma peak_update_cpu (v : Q) (s : store) :
  let s' := if Qgtb v (max_cpu_record s) then set_max_cpu v s else s in
  (max_cpu_record s <= max_cpu_record s')%Q /\ (v <= max_cpu_record s')%Q /\
  (max_cpu_record s' = max_cpu_record s \/ max_cpu_record s' = v) /\
  max_mem_record s' = max_mem_record s /\ stop_event s' = stop_event s.
Proof.
  cbv zeta. destruct (Qgtb v (max_cpu_record s)) eqn:E.
  - apply Qgtb_true in E. cbn. repeat split; auto using Qlt_le_weak, Qle_refl.
  - apply Qgtb_false in E. repeat split; auto using Qle_refl.
Qed.

(** One tick that delivers a sample while the loop is running. *)
Lemma monitor_iter_sampled (cpu mem : Q) (s : store) :
  stop_event s = false ->
  let r := monitor_iter (Sampled cpu mem) s in
  (max_mem_record s <= max_mem_record (snd r))%Q /\ (mem <= max_mem_record (snd r))%Q /\
  (max_mem_record (snd r) = max_mem_record s \/ max_mem_record (snd r) = mem) /\
  (max_cpu_record s <= max_cpu_record (snd r))%Q /\ (cpu <= max_cpu_record (snd r))%Q /\
  (max_cpu_record (snd r) = max_cpu_record s \/ max_cpu_record (snd r) = cpu) /\
  fst r = negb (Qgeb mem MEMORY_LIMIT_PERCENT) /\
  stop_event (snd r) = Qgeb mem MEMORY_LIMIT_PERCENT.
Proof.
  intros Hs. cbv zeta. unfold monitor_iter. rewrite Hs.
  pose proof (peak_update_mem mem s) as Hm. cbv zeta in Hm.
  set (s1 := if Qgtb mem (max_mem_record s) then set_max_mem mem s else s) in *.
  pose proof (peak_update_cpu cpu s1) as Hc. cbv zeta in Hc.
  set (s2 := if Qgtb cpu (max_cpu_record s1) then set_max_cpu cpu s1 else s1) in *.
  destruct Hm as (Hm1 & Hm2 & Hm3 & Hm4 & Hm5).
  destruct Hc as (Hc1 & Hc2 & Hc3 & Hc4 & Hc5).
  assert (Hst : stop_event s2 = false) by congruence.
  destruct (Qgeb mem MEMORY_LIMIT_PERCENT); cbn [fst snd set_stop max_mem_record
    max_cpu_record stop_event negb]; rewrite ?Hc4, <- ?Hm4;
    repeat split; auto.
Qed.

Lemma monitor_iter_monotone (smp : sample) (s : store) :
  (max_mem_record s <= max_mem_record (snd (monitor_iter smp s)))%Q /\
  (max_cpu_record s <= max_cpu_record (snd (monitor_iter smp s)))%Q.
Proof.
  destruct (stop_event s) eqn:Hs.
  - unfold monitor_iter. rewrite Hs. cbn. split; apply Qle_refl.
  - destruct smp as [|cpu|cpu mem].
    + unfold monitor_iter. rewrite Hs. cbn. split; apply Qle_refl.
    + unfold monitor_iter. rewrite Hs. cbn. split; apply Qle_refl.
    + pose proof (monitor_iter_sampled cpu mem s Hs) as H. cbv zeta in H. tauto.
Qed.

Lemma monitor_loop_monotone (evs : list (mon_event sample)) :
  forall s,
    (max_mem_record s <= max_mem_record (snd (monitor_loop monitor_iter evs s)))%Q /\
    (max_cpu_record s <= max_cpu_record (snd (monitor_loop monitor_iter evs s)))%Q.
Proof.
  induction evs as [|[smp|] evs IH]; intros s; cbn [monitor_loop].
  - cbn. split; apply Qle_refl.
  - pose proof (monitor_iter_monotone smp s) as [H1 H2].
    destruct (monitor_iter smp s) as [go s']. cbn [snd] in *.
    destruct go; cbn [snd]; [|tauto].
    destruct (IH s') as [H3 H4]. split; eapply Qle_trans; eauto.
  - destruct (IH (set_stop s)) as [H3 H4]. cbn in *. tauto.
Qed.

(** A run over [evs1 ++ evs2] continues the run over [evs1], unless that one
    has already left the loop. *)
Lemma monitor_loop_app {A : Type} (iter : A -> store -> bool * store)
      (evs1 evs2 : list (mon_event A)) :
  forall s,
    monitor_loop iter (evs1 ++ evs2) s =
    if fst (monitor_loop iter evs1 s)
    then monitor_loop iter evs2 (snd (monitor_loop iter evs1 s))
    else monitor_loop iter evs1 s.
Proof.
  induction evs1 as [|[smp|] evs1 IH]; intros s; cbn [monitor_loop app].
  - reflexivity.
  - destruct (iter smp s) as [[|] s']; [apply IH|reflexivity].
  - apply IH.
Qed.

Lemma is_max_cons_keep (l : list Q) (x v : Q) :
  is_max l x -> (v <= x)%Q -> is_max (l ++ [v]) x.
Proof.
  intros [Hub [y [Hy Hyx]]] Hv. split.
  - intros z Hz. apply in_app_or in Hz. destruct Hz as [Hz|[Hz|[]]]; [auto|subst; auto].
  - exists y. split; [apply in_or_app; auto|auto].
Qed.

Lemma is_max_cons_new (l : list Q) (x v : Q) :
  is_max l x -> (x <= v)%Q -> is_max (l ++ [v]) v.
Proof.
  intros [Hub _] Hv. split.
  - intros z Hz. apply in_app_or in Hz. destruct Hz as [Hz|[Hz|[]]].
    + eapply Qle_trans; [apply Hub; exact Hz|exact Hv].
    + subst. apply Qle_refl.
  - exists v. split; [apply in_or_app; right; left; reflexivity|apply Qeq_refl].
Qed.

Lemma is_max_singleton (x : Q) : is_max [x] x.
Proof.
  split.
  - intros y [Hy|[]]. subst. apply Qle_refl.
  - exists x. split; [left; reflexivity|apply Qeq_refl].
Qed.

Lemma processed_is_max (evs : list (mon_event sample)) :
  forall s lm lc,
    is_max lm (max_mem_record s) -> is_max lc (max_cpu_record s) ->
    let s' := snd (monitor_loop monitor_iter evs s) in
    is_max (lm ++ map snd (processed evs s)) (max_mem_record s') /\
    is_max (lc ++ map fst (processed evs s)) (max_cpu_record s').
Proof.
  induction evs as [|[smp|] evs IH]; intros s lm lc Hm Hc; cbv zeta;
    cbn [monitor_loop processed].
  - cbn [map snd]. rewrite !app_nil_r. auto.
  - destruct (stop_event s) eqn:Hs.
    + assert (E : monitor_iter smp s = (false, s)) by (unfold monitor_iter; now rewrite Hs).
      rewrite E. cbn [snd]. destruct smp; cbn [map]; rewrite !app_nil_r; auto.
    + destruct smp as [|cpu|cpu mem].
      * assert (E : monitor_iter CpuError s = (false, s)) by (unfold monitor_iter; now rewrite Hs).
        rewrite E. cbn [snd map]. rewrite !app_nil_r; auto.
      * assert (E : monitor_iter (MemError cpu) s = (false, s))
          by (unfold monitor_iter; now rewrite Hs).
        rewrite E. cbn [snd map]. rewrite !app_nil_r; auto.
      * pose proof (monitor_iter_sampled cpu mem s Hs) as H. cbv zeta in H.
        destruct (monitor_iter (Sampled cpu mem) s) as [go s1]. cbn [fst snd] in H.
        destruct H as (Hm1 & Hm2 & Hm3 & Hc1 & Hc2 & Hc3 & _ & _).
        assert (Hm' : is_max (lm ++ [mem]) (max_mem_record s1)).
        { destruct Hm3 as [E|E]; rewrite E in *.
          - now apply is_max_cons_keep.
          - now apply is_max_cons_new with (x := max_mem_record s). }
        assert (Hc' : is_max (lc ++ [cpu]) (max_cpu_record s1)).
        { destruct Hc3 as [E|E]; rewrite E in *.
          - now apply is_max_cons_keep.
          - now apply is_max_cons_new with (x := max_cpu_record s). }
        destruct go; cbn [snd].
        -- destruct (IH s1 _ _ Hm' Hc') as [H1 H2].
           cbn [app map fst snd]. rewrite <- !app_assoc in H1, H2. cbn [app] in H1, H2. auto.
        -- cbn [map fst snd]. auto.
  - apply (IH (set_stop s) lm lc); assumption.
Qed.

Lemma is_max_drop_floor (l : list Q) (x0 x : Q) :
  is_max (x0 :: l) x -> l <> [] -> (forall y, In y l -> (x0 <= y)%Q) -> is_max l x.
Proof.
  intros [Hub [y [Hy Hyx]]] Hne Hlow. split.
  - intros z Hz. apply Hub. right. exact Hz.
  - destruct Hy as [Hy|Hy]; [|exists y; auto].
    subst y. destruct l as [|z l]; [congruence|].
    exists z. split; [left; reflexivity|].
    apply Qle_antisym.
    + apply Hub. right. left. reflexivity.
    + rewrite <- Hyx. apply Hlow. left. reflexivity.
Qed.

(** C5.  Over a run of the CPU+memory monitor (c.py; FN.py has the same
    loop) started on fresh shared objects, the two peak registers never
    decrease, and when the run is over each holds the maximum of the
    samples the monitor processed (of [0.0] and these samples when one
    allows negative ones).  A sample that reaches the ceiling is recorded in
    the peaks by the very tick that sets the event. *)
Theorem C5_peaks_are_running_maxima (evs1 evs2 : list (mon_event sample)) :
  let s1 := snd (c_py.memory_monitor evs1 store_init) in
  let s2 := snd (c_py.memory_monitor (evs1 ++ evs2) store_init) in
  let seen := processed (evs1 ++ evs2) store_init in
  ((max_mem_record s1 <= max_mem_record s2)%Q /\
   (max_cpu_record s1 <= max_cpu_record s2)%Q) /\
  (is_max ((0 # 1) :: map snd seen) (max_mem_record s2) /\
   is_max ((0 # 1) :: map fst seen) (max_cpu_record s2)) /\
  (seen <> [] ->
   (forall cpu mem, In (cpu, mem) seen -> (0 <= cpu)%Q /\ (0 <= mem)%Q) ->
   is_max (map snd seen) (max_mem_record s2) /\
   is_max (map fst seen) (max_cpu_record s2)) /\
  (forall s cpu mem,
     stop_event s = false -> (MEMORY_LIMIT_PERCENT <= mem)%Q ->
     let r := c_py.memory_monitor [Tick (Sampled cpu mem)] s in
     fst r = false /\ stop_event (snd r) = true /\
     processed [Tick (Sampled cpu mem)] s = [(cpu, mem)] /\
     (mem <= max_mem_record (snd r))%Q /\ (cpu <= max_cpu_record (snd r))%Q) /\
  FN_py.memory_monitor = c_py.memory_monitor.
Proof.
  cbv zeta. unfold c_py.memory_monitor.
  assert (Hmax : is_max ((0 # 1) :: map snd (processed (evs1 ++ evs2) store_init))
                   (max_mem_record (snd (monitor_loop monitor_iter (evs1 ++ evs2) store_init))) /\
                 is_max ((0 # 1) :: map fst (processed (evs1 ++ evs2) store_init))
                   (max_cpu_record (snd (monitor_loop monitor_iter (evs1 ++ evs2) store_init)))).
  { apply (processed_is_max (evs1 ++ evs2) store_init [0 # 1] [0 # 1]);
      apply is_max_singleton. }
  split; [|split; [exact Hmax|split; [|split]]].
  - rewrite monitor_loop_app.
    destruct (fst (monitor_loop monitor_iter evs1 store_init)).
    + apply monitor_loop_monotone.
    + split; apply Qle_refl.
  - intros Hne Hpos. destruct Hmax as [Hm Hc]. split.
    + apply is_max_drop_floor with (x0 := 0 # 1); [exact Hm| |].
      * intros E. apply Hne. now apply map_eq_nil in E.
      * intros y Hy. apply in_map_iff in Hy. destruct Hy as [[c m] [E Hin]].
        cbn in E. subst y. exact (proj2 (Hpos c m Hin)).
    + apply is_max_drop_floor with (x0 := 0 # 1); [exact Hc| |].
      * intros E. apply Hne. now apply map_eq_nil in E.
      * intros y Hy. apply in_map_iff in Hy. destruct Hy as [[c m] [E Hin]].
        cbn in E. subst y. exact (proj1 (Hpos c m Hin)).
  - intros s cpu mem Hs Hlim. cbn [monitor_loop processed].
    pose proof (monitor_iter_sampled cpu mem s Hs) as H. cbv zeta in H.
    destruct (monitor_iter (Sampled cpu mem) s) as [go s1]. cbn [fst snd] in H.
    destruct H as (_ & Hm2 & _ & _ & Hc2 & _ & Hgo & Hst).
    apply Qgeb_true in Hlim. rewrite Hlim in Hgo, Hst. cbn in Hgo. subst go.
    rewrite Hs. cbn [fst snd]. auto.
  - reflexivity.
Qed.

Lemma C5_peaks_witness :
  let evs := [Tick (Sampled (40 # 1) (50 # 1)); Tick (Sampled (90 # 1) (60 # 1));
              Tick (Sampled (70 # 1) (96 # 1)); Tick (Sampled (99 # 1) (99 # 1))] in
  processed evs store_init = [(40 # 1, 50 # 1); (90 # 1, 60 # 1); (70 # 1, 96 # 1)]%Q /\
  is_max [50 # 1; 60 # 1; 96 # 1] (max_mem_record (snd (c_py.memory_monitor evs store_init))) /\
  is_max [40 # 1; 90 # 1; 70 # 1] (max_cpu_record (snd (c_py.memory_monitor evs store_init))).
Proof.
  cbv zeta. split; [reflexivity|].
  apply (C5_peaks_are_running_maxima []
           [Tick (Sampled (40 # 1) (50 # 1)); Tick (Sampled (90 # 1) (60 # 1));
            Tick (Sampled (70 # 1) (96 # 1)); Tick (Sampled (99 # 1) (99 # 1))]).
  - cbn. discriminate.
  - cbn. intros cpu mem [E|[E|[E|[]]]]; inversion E; subst; split; unfold Qle; cbn; lia.
Defined.

Lemma b_monitor_iter_sampled (mem : Q) (s : store) :
  stop_event s = false ->
  let r := b_py.monitor_iter (Some mem) s in
  fst r = negb (Qgeb mem MEMORY_LIMIT_PERCENT) /\
  stop_event (snd r) = Qgeb mem MEMORY_LIMIT_PERCENT.
Proof.
  intros Hs. cbv zeta. unfold b_py.monitor_iter. rewrite Hs.
  pose proof (peak_update_mem mem s) as Hm. cbv zeta in Hm.
  set (s1 := if Qgtb mem (max_mem_record s) then set_max_mem mem s else s) in *.
  destruct Hm as (_ & _ & _ & _ & Hm5).
  destruct (Qgeb mem MEMORY_LIMIT_PERCENT); cbn [fst snd set_stop stop_event negb];
    split; congruence.
Qed.

(** C7.  On a tick that delivers a memory sample while the loop is running,
    the monitor sets the event and leaves its loop exactly when the sample
    is greater than or equal to [MEMORY_LIMIT_PERCENT] (a sample equal to
    the ceiling stops the run); for a sample strictly below the ceiling the
    event stays unset and the loop goes on.  This holds for the CPU+memory
    monitor of c.py and for the memory-only monitor of b.py. *)
Theorem C7_ceiling_check_is_inclusive (s : store) (cpu mem : Q) :
  stop_event s = false ->
  let rc := monitor_iter (Sampled cpu mem) s in
  let rb := b_py.monitor_iter (Some mem) s in
  ((stop_event (snd rc) = true /\ fst rc = false) <-> (MEMORY_LIMIT_PERCENT <= mem)%Q) /\
  ((mem < MEMORY_LIMIT_PERCENT)%Q -> stop_event (snd rc) = false /\ fst rc = true) /\
  ((stop_event (snd rb) = true /\ fst rb = false) <-> (MEMORY_LIMIT_PERCENT <= mem)%Q) /\
  ((mem < MEMORY_LIMIT_PERCENT)%Q -> stop_event (snd rb) = false /\ fst rb = true).
Proof.
  intros Hs. cbv zeta.
  pose proof (monitor_iter_sampled cpu mem s Hs) as Hc. cbv zeta in Hc.
  destruct Hc as (_ & _ & _ & _ & _ & _ & Hcgo & Hcst).
  pose proof (b_monitor_iter_sampled mem s Hs) as Hb. cbv zeta in Hb.
  destruct Hb as (Hbgo & Hbst).
  rewrite Hcgo, Hcst, Hbgo, Hbst.
  destruct (Qgeb mem MEMORY_LIMIT_PERCENT) eqn:E; cbn [negb].
  - apply Qgeb_true in E.
    assert (Hno : (mem < MEMORY_LIMIT_PERCENT)%Q -> false = true /\ true = false).
    { intros Hlt. exfalso. exact (Qlt_not_le _ _ Hlt E). }
    assert (Hno' : (mem < MEMORY_LIMIT_PERCENT)%Q -> true = false /\ false = true).
    { intros Hlt. exfalso. exact (Qlt_not_le _ _ Hlt E). }
    tauto.
  - apply Qgeb_false in E.
    assert (Hno : ~ (MEMORY_LIMIT_PERCENT <= mem)%Q).
    { intros Hle. exact (Qlt_not_le _ _ E Hle). }
    assert (Hft : false = true -> False) by discriminate.
    tauto.
Qed.

Lemma C7_ceiling_witness :
  stop_event (snd (monitor_iter (Sampled (10 # 1) (95 # 1)) store_init)) = true /\
  fst (monitor_iter (Sampled (10 # 1) (95 # 1)) store_init) = false.
Proof.
  apply (C7_ceiling_check_is_inclusive store_init (10 # 1) (95 # 1)).
  - reflexivity.
  - unfold MEMORY_LIMIT_PERCENT, Qle. cbn. lia.
Defined.

(** C2, what the code does where the claim wants the event set.  When a
    telemetry call raises inside the loop, the handler only breaks: the
    monitor leaves its loop and the shared objects are what they were, the
    event included.  The other ways out of the monitor set the event (the
    ceiling branch, and the interrupt handler around the call in
    [__main__]), and [__main__] goes on to join workers that nobody has told
    to stop.  This is so for the CPU+memory monitor (c.py, FN.py,
    finumpy.py), whichever of the two calls raises, and for the memory-only
    monitor of b.py. *)
Theorem C2_sampling_error_only_leaves_loop (s : store) :
  monitor_iter CpuError s = (false, s) /\
  (forall cpu, monitor_iter (MemError cpu) s = (false, s)) /\
  b_py.monitor_iter None s = (false, s) /\
  (forall evs, c_py.memory_monitor (Tick CpuError :: evs) s = (false, s)) /\
  (forall cpu evs, c_py.memory_monitor (Tick (MemError cpu) :: evs) s = (false, s)) /\
  (forall evs, b_py.memory_monitor (Tick None :: evs) s = (false, s)).
Proof.
  unfold c_py.memory_monitor, b_py.memory_monitor. cbn [monitor_loop].
  unfold monitor_iter, b_py.monitor_iter.
  destruct (stop_event s); repeat split; reflexivity.
Qed.

(** C2 at a failing input: fresh shared objects and a first tick whose
    sample raises.  The claim wants the event set; the monitor has left its
    loop and the event is still unset. *)
Lemma C2_sampling_error_counterexample :
  fst (c_py.memory_monitor [Tick CpuError] store_init) = false /\
  stop_event (snd (c_py.memory_monitor [Tick CpuError] store_init)) = false /\
  fst (b_py.memory_monitor [Tick None] store_init) = false /\
  stop_event (snd (b_py.memory_monitor [Tick None] store_init)) = false.
Proof. repeat split; reflexivity. Qed.

(* ================================================================== *)
(** * Arithmetic workers *)
(* ================================================================== *)

Lemma for_next_lt (i : Z) : i < BATCH_SIZE -> for_next i = InFor i.
Proof. intros H. unfold for_next. now apply Z.ltb_lt in H as ->. Qed.

Lemma for_next_ge (i : Z) : BATCH_SIZE <= i -> for_next i = AfterFor.
Proof. intros H. unfold for_next. now apply Z.ltb_ge in H as ->. Qed.

Lemma BATCH_SIZE_pos : 0 < BATCH_SIZE.
Proof. reflexivity. Qed.

Lemma env_stop_keeps (ext : bool) (s : store) :
  stop_event s = true -> stop_event (env_stop ext s) = true.
Proof. destruct ext; cbn; auto. Qed.

Lemma env_stop_false (s : store) : env_stop false s = s.
Proof. reflexivity. Qed.

(** The rescale tally at an allocation failure: the rescale of the failing
    iteration is counted only when the error is raised after the
    arithmetic. *)
Lemma interrupted_tally (site : alloc_site) (r : accum) (sc : Z) :
  snd (interrupted site r sc) =
  sc + match site with
       | AtRetain => if snd (advance r) then 1 else 0
       | _ => 0
       end.
Proof.
  unfold interrupted, advance.
  destruct site; cbn [snd]; try lia;
    destruct (fgt (acc_b (fib_step r)) THRESHOLD); cbn [snd]; lia.
Qed.

Lemma interrupted_after (t : nat) (site : alloc_site) :
  snd (interrupted site (state_after t) (rescale_count t)) =
  match site with
  | AtRetain => rescale_count (S t)
  | _ => rescale_count t
  end.
Proof.
  rewrite interrupted_tally, rescale_count_S.
  destruct site; try lia. destruct (snd (advance (state_after t))); lia.
Qed.

Section ArithmeticWorkerFacts.

Variable check_after_batch : bool.
Variable ballast : Type.
Variable make_ballast : float64 -> ballast.
Variable site : alloc_site.
Variable mem_ok : nat -> bool.

Local Abbreviation step := (fib_worker_step check_after_batch ballast make_ballast site mem_ok).
Local Abbreviation run := (fib_worker_run check_after_batch ballast make_ballast site mem_ok).

Lemma fib_worker_inv_init : fib_worker_inv (fib_worker_init ballast).
Proof.
  exists 0. cbn. repeat split; try reflexivity; lia.
Qed.

Lemma fib_worker_inv_step (w : fib_worker ballast) (s : store) :
  fib_worker_inv w -> fib_worker_inv (fst (step w s)).
Proof.
  intros (k & Hk & Hadd & Hpc). unfold fib_worker_step.
  pose proof BATCH_SIZE_pos as HB.
  destruct (w_pc w) as [|i| | |] eqn:Epc.
  - destruct Hpc as (Hlen & Hregs & Hsc).
    destruct (stop_event s); cbn [fst].
    + exists k. cbn. auto.
    + exists k. cbn [w_pc history regs local_added local_scale].
      rewrite for_next_lt by exact HB.
      repeat split; auto; lia.
  - destruct Hpc as (Hi & Hlen & Hregs & Hsc).
    destruct (advance (regs w)) as [r rescaled] eqn:Eadv.
    destruct (mem_ok (length (history w))); cbn [fst].
    + assert (Er : r = state_after (S (length (history w)))).
      { rewrite state_after_S, <- Hregs, Eadv. reflexivity. }
      assert (Esc : (if rescaled then local_scale w + 1 else local_scale w)
                    = rescale_count (S (length (history w)))).
      { rewrite rescale_count_S, <- Hregs, Eadv, Hsc. reflexivity. }
      exists k. cbn [w_pc history regs local_added local_scale length].
      split; [exact Hk|split; [exact Hadd|]].
      destruct (Z_lt_le_dec (i + 1) BATCH_SIZE) as [Hlt|Hge].
      * rewrite for_next_lt by exact Hlt. repeat split; auto; lia.
      * rewrite for_next_ge by exact Hge. repeat split; auto; lia.
    + destruct (interrupted site (regs w) (local_scale w)) as [r' sc'].
      exists k. cbn. auto.
  - destruct Hpc as (Hlen & Hregs & Hsc).
    destruct (check_after_batch && stop_event s); cbn [fst];
      exists (k + 1); cbn [w_pc history regs local_added local_scale];
      repeat split; auto; lia.
  - exists k. cbn. auto.
  - cbn [fst]. exists k. rewrite Epc. auto.
Qed.

Lemma fib_worker_inv_run (evs : list bool) :
  forall c, fib_worker_inv (fst c) -> fib_worker_inv (fst (run evs c)).
Proof.
  induction evs as [|ext evs IH]; intros c Hc; cbn [fib_worker_run]; [exact Hc|].
  apply IH. apply fib_worker_inv_step. exact Hc.
Qed.

(** The event is never cleared. *)
Lemma fib_step_keeps_stop (w : fib_worker ballast) (s : store) :
  stop_event s = true -> stop_event (snd (step w s)) = true.
Proof.
  intros Hs. unfold fib_worker_step.
  destruct (w_pc w); try destruct (advance (regs w));
    try destruct (interrupted site (regs w) (local_scale w)); rewrite ?Hs;
    try destruct (mem_ok _); try destruct (check_after_batch && true); cbn; auto.
Qed.

Lemma fib_exited_stable (evs : list bool) :
  forall w s, w_pc w = Exited -> fst (run evs (w, s)) = w.
Proof.
  induction evs as [|ext evs IH]; intros w s Hw; cbn [fib_worker_run fst snd]; [reflexivity|].
  unfold fib_worker_step. rewrite Hw. apply IH. exact Hw.
Qed.

(** With the event set, each step uses up fuel and eats into the current
    batch. *)
Lemma fib_step_progress (w : fib_worker ballast) (s : store) :
  fib_worker_inv w -> stop_event s = true ->
  let w' := fst (step w s) in
  (fib_fuel (w_pc w') <= pred (fib_fuel (w_pc w)))%nat /\
  Z.of_nat (length (history w')) + fib_remaining (w_pc w')
    <= Z.of_nat (length (history w)) + fib_remaining (w_pc w).
Proof.
  intros (k & Hk & Hadd & Hpc) Hs. cbv zeta. unfold fib_worker_step.
  pose proof BATCH_SIZE_pos as HB.
  destruct (w_pc w) as [|i| | |] eqn:Epc.
  - rewrite Hs. cbn. lia.
  - destruct Hpc as (Hi & _).
    destruct (advance (regs w)) as [r rescaled].
    destruct (interrupted site (regs w) (local_scale w)) as [r' sc'].
    destruct (mem_ok (length (history w))); cbn [fst w_pc history length fib_fuel fib_remaining].
    + destruct (Z_lt_le_dec (i + 1) BATCH_SIZE) as [Hlt|Hge].
      * rewrite for_next_lt by exact Hlt. cbn [fib_fuel fib_remaining]. lia.
      * rewrite for_next_ge by exact Hge. cbn [fib_fuel fib_remaining]. lia.
    + lia.
  - rewrite Hs. destruct check_after_batch; cbn; lia.
  - cbn. lia.
  - cbn [fst]. rewrite Epc. cbn. lia.
Qed.

Lemma fib_run_progress (evs : list bool) :
  forall c,
    fib_worker_inv (fst c) -> stop_event (snd c) = true ->
    let c' := run evs c in
    (fib_fuel (w_pc (fst c')) <= fib_fuel (w_pc (fst c)) - length evs)%nat /\
    Z.of_nat (length (history (fst c'))) + fib_remaining (w_pc (fst c'))
      <= Z.of_nat (length (history (fst c))) + fib_remaining (w_pc (fst c)).
Proof.
  induction evs as [|ext evs IH]; intros [w s] Hinv Hs; cbv zeta; cbn [fst snd] in *.
  - cbn. lia.
  - cbn [fib_worker_run fst snd length].
    assert (Hs1 : stop_event (env_stop ext s) = true) by now apply env_stop_keeps.
    pose proof (fib_step_progress w (env_stop ext s) Hinv Hs1) as [Hf Hr].
    pose proof (fib_worker_inv_step w (env_stop ext s) Hinv) as Hinv'.
    pose proof (fib_step_keeps_stop w (env_stop ext s) Hs1) as Hs'.
    destruct (IH (step w (env_stop ext s)) Hinv' Hs') as [Hf' Hr'].
    split; lia.
Qed.

Lemma fib_fuel_bound (w : fib_worker ballast) :
  fib_worker_inv w -> (fib_fuel (w_pc w) <= Z.to_nat BATCH_SIZE + 3)%nat /\
  0 <= fib_remaining (w_pc w) <= BATCH_SIZE.
Proof.
  intros (k & Hk & Hadd & Hpc). pose proof BATCH_SIZE_pos.
  destruct (w_pc w); cbn [fib_fuel fib_remaining]; lia.
Qed.

Lemma fib_fuel_zero (w : fib_worker ballast) :
  fib_fuel (w_pc w) = 0%nat -> fib_exited w = true.
Proof.
  unfold fib_exited. destruct (w_pc w); cbn [fib_fuel]; intros H; try reflexivity; lia.
Qed.

(** Once the event is set, an arithmetic worker is out of its loop within
    one batch. *)
Lemma fib_worker_stops_within :
  stops_within run (fib_worker_init ballast) fib_exited (fun w => length (history w))
               (Z.to_nat BATCH_SIZE + 3) (Z.to_nat BATCH_SIZE).
Proof.
  intros evs0 s0 evs c Hs Hlen.
  assert (Hinv : fib_worker_inv (fst c)).
  { apply fib_worker_inv_run. exact fib_worker_inv_init. }
  destruct (fib_run_progress evs c Hinv Hs) as [Hf Hr].
  destruct (fib_fuel_bound (fst c) Hinv) as [Hb Hrem].
  assert (Hinv' : fib_worker_inv (fst (run evs c))) by now apply fib_worker_inv_run.
  destruct (fib_fuel_bound _ Hinv') as [_ Hrem'].
  split.
  - apply fib_fuel_zero. lia.
  - pose proof BATCH_SIZE_pos. lia.
Qed.


End ArithmeticWorkerFacts.

Section ArithmeticWorkerOutOfMemory.

Variable check_after_batch : bool.
Variable ballast : Type.
Variable make_ballast : float64 -> ballast.
Variable site : alloc_site.
Variable t : nat.
Variable s0 : store.

Local Abbreviation step := (fib_worker_step check_after_batch ballast make_ballast site (capacity t)).
Local Abbreviation run := (fib_worker_run check_after_batch ballast make_ballast site (capacity t)).

Lemma fib_capacity_step (w : fib_worker ballast) (s : store) :
  fib_worker_inv w -> fib_capacity_inv site t s0 w s ->
  let c' := step w s in
  fib_capacity_inv site t s0 (fst c') (snd c') /\
  (fib_potential t (fst c') <= pred (fib_potential t w))%nat.
Proof.
  intros (k & Hk & Hadd & Hpc) Hcap. cbv zeta.
  unfold fib_capacity_inv, fib_potential in *. unfold fib_worker_step.
  pose proof BATCH_SIZE_pos as HB.
  destruct (w_pc w) as [|i| | |] eqn:Epc.
  - destruct Hcap as (Hs & Hlen & Ht & Hsc). rewrite Hs.
    cbn [fst snd w_pc history]. rewrite for_next_lt by exact HB.
    repeat split; auto; lia.
  - destruct Hcap as (Hs & Hlen & Ht & Hsc).
    destruct Hpc as (Hi & Hh & Hregs & Hlsc).
    destruct (advance (regs w)) as [r rescaled] eqn:Eadv.
    destruct (interrupted site (regs w) (local_scale w)) as [r' sc'] eqn:Eint.
    unfold capacity. destruct (Nat.ltb_spec (length (history w)) t) as [Hlt|Hge].
    + cbn [fst snd w_pc history length].
      destruct (Z_lt_le_dec (i + 1) BATCH_SIZE) as [Hlt'|Hge'].
      * rewrite for_next_lt by exact Hlt'. repeat split; auto; lia.
      * rewrite for_next_ge by exact Hge'. repeat split; auto; lia.
    + cbn [fst snd w_pc history local_added local_scale set_stop stop_event
             total_counter scale_counter].
      assert (Eh : length (history w) = t) by lia.
      repeat split; auto; try lia.
      * rewrite Hadd. f_equal.
        apply Z.div_unique with (r := i); [lia|]. rewrite <- Eh. lia.
      * rewrite <- Eh, <- Hregs, <- Hlsc, Eint. reflexivity.
  - destruct Hcap as (Hs & Hlen & Ht & Hsc). rewrite Hs, andb_false_r.
    cbn [fst snd w_pc history]. repeat split; auto; lia.
  - destruct Hcap as (Hs & Hlen & Ht & Hsc & Hla & Hls).
    cbn [fst snd w_pc history flush stop_event total_counter scale_counter].
    rewrite Ht, Hsc, Hla, Hls. repeat split; auto; lia.
  - cbn [fst snd]. rewrite Epc. split; [exact Hcap|lia].
Qed.

Lemma fib_capacity_run (n : nat) :
  forall w s,
    fib_worker_inv w -> fib_capacity_inv site t s0 w s ->
    let c' := run (repeat false n) (w, s) in
    fib_capacity_inv site t s0 (fst c') (snd c') /\
    (fib_potential t (fst c') <= fib_potential t w - n)%nat.
Proof.
  induction n as [|n IH]; intros w s Hinv Hcap; cbv zeta.
  - cbn. split; [exact Hcap|lia].
  - cbn [repeat fib_worker_run fst snd]. rewrite env_stop_false.
    pose proof (fib_capacity_step w s Hinv Hcap) as [Hcap' Hpot]. cbv zeta in Hcap', Hpot.
    pose proof (fib_worker_inv_step check_after_batch ballast make_ballast site (capacity t) w s Hinv)
      as Hinv'.
    destruct (step w s) as [w' s'] eqn:E. cbn [fst snd] in *.
    destruct (IH w' s' Hinv' Hcap') as [H1 H2]. split; [exact H1|lia].
Qed.

(** The whole run of an arithmetic worker whose allocator gives out at [t]
    retained items. *)
Lemma fib_out_of_memory_run (n : nat) :
  stop_event s0 = false -> (3 * t + 4 <= n)%nat ->
  let c' := run (repeat false n) (fib_worker_init ballast, s0) in
  fib_exited (fst c') = true /\
  stop_event (snd c') = true /\
  length (history (fst c')) = t /\
  total_counter (snd c') = u64 (total_counter s0 + BATCH_SIZE * (Z.of_nat t / BATCH_SIZE)) /\
  scale_counter (snd c') =
    u64 (scale_counter s0 + snd (interrupted site (state_after t) (rescale_count t))).
Proof.
  intros Hs Hn. cbv zeta.
  destruct (fib_capacity_run n (fib_worker_init ballast) s0) as [Hcap Hpot].
  - apply fib_worker_inv_init.
  - cbn. repeat split; auto; lia.
  - cbv zeta in Hcap, Hpot.
    remember (run (repeat false n) (fib_worker_init ballast, s0)) as c' eqn:Ec.
    unfold fib_capacity_inv, fib_potential, fib_exited in *.
    change (length (history (fib_worker_init ballast))) with 0%nat in Hpot.
    change (w_pc (fib_worker_init ballast)) with AtWhile in Hpot.
    destruct (w_pc (fst c')); try lia.
    tauto.
Qed.

End ArithmeticWorkerOutOfMemory.

Section ArithmeticWorkerCounters.

Variable check_after_batch : bool.
Variable ballast : Type.
Variable make_ballast : float64 -> ballast.
Variable site : alloc_site.
Variable mem_ok : nat -> bool.

Local Abbreviation step := (fib_worker_step check_after_batch ballast make_ballast site mem_ok).
Local Abbreviation run := (fib_worker_run check_after_batch ballast make_ballast site mem_ok).

Lemma env_stop_counters (ext : bool) (s : store) :
  total_counter (env_stop ext s) = total_counter s /\
  scale_counter (env_stop ext s) = scale_counter s.
Proof. destruct ext; cbn; auto. Qed.

Lemma fib_exited_counters (evs : list bool) :
  forall w s,
    w_pc w = Exited ->
    total_counter (snd (run evs (w, s))) = total_counter s /\
    scale_counter (snd (run evs (w, s))) = scale_counter s.
Proof.
  induction evs as [|ext evs IH]; intros w s Hw; cbn [fib_worker_run fst snd]; [auto|].
  unfold fib_worker_step. rewrite Hw.
  destruct (IH w (env_stop ext s) Hw) as [H1 H2].
  destruct (env_stop_counters ext s) as [H3 H4]. split; congruence.
Qed.

(** The shared counters are untouched until the [finally] block has run,
    and then hold the worker's local tallies on top of what they held. *)
Lemma fib_counters_run (evs : list bool) :
  forall w s,
    w_pc w <> Exited ->
    let c' := run evs (w, s) in
    if fib_exited (fst c')
    then total_counter (snd c') = u64 (total_counter s + local_added (fst c')) /\
         scale_counter (snd c') = u64 (scale_counter s + local_scale (fst c'))
    else total_counter (snd c') = total_counter s /\
         scale_counter (snd c') = scale_counter s.
Proof.
  induction evs as [|ext evs IH]; intros w s Hw; cbv zeta.
  - cbn [fib_worker_run fst snd]. unfold fib_exited.
    destruct (w_pc w); try congruence; auto.
  - cbn [fib_worker_run fst snd].
    destruct (env_stop_counters ext s) as [Ht Hsc].
    remember (env_stop ext s) as s1 eqn:Es1.
    destruct (w_pc w) as [|i| | |] eqn:Epc; try congruence.
    + assert (E : exists w', step w s1 = (w', s1) /\ w_pc w' <> Exited).
      { unfold fib_worker_step. rewrite Epc.
        destruct (stop_event s1); eexists; split; try reflexivity; cbn; discriminate. }
      destruct E as (w' & E & Hw'). rewrite E.
      specialize (IH w' s1 Hw'). cbv zeta in IH. rewrite Ht, Hsc in IH. exact IH.
    + assert (E : exists w' s', step w s1 = (w', s') /\ w_pc w' <> Exited /\
                    total_counter s' = total_counter s1 /\ scale_counter s' = scale_counter s1).
      { unfold fib_worker_step. rewrite Epc.
        destruct (advance (regs w)) as [r rescaled].
        destruct (interrupted site (regs w) (local_scale w)) as [r' sc'].
        destruct (mem_ok (length (history w))); do 2 eexists; split; try reflexivity;
          cbn; repeat split; try discriminate.
        unfold for_next. destruct (i + 1 <? BATCH_SIZE); discriminate. }
      destruct E as (w' & s' & E & Hw' & Ht' & Hsc'). rewrite E.
      specialize (IH w' s' Hw'). cbv zeta in IH. rewrite Ht', Hsc', Ht, Hsc in IH. exact IH.
    + assert (E : exists w', step w s1 = (w', s1) /\ w_pc w' <> Exited).
      { unfold fib_worker_step. rewrite Epc.
        destruct (check_after_batch && stop_event s1); eexists; split; try reflexivity;
          cbn; discriminate. }
      destruct E as (w' & E & Hw'). rewrite E.
      specialize (IH w' s1 Hw'). cbv zeta in IH. rewrite Ht, Hsc in IH. exact IH.
    + unfold fib_worker_step. rewrite Epc.
      set (w' := mkFibWorker ballast Exited (history w) (regs w) (local_added w) (local_scale w)).
      assert (Hw' : w_pc w' = Exited) by reflexivity.
      rewrite (fib_exited_stable check_after_batch ballast make_ballast site mem_ok evs w' _ Hw').
      destruct (fib_exited_counters evs w' (flush (local_added w) (local_scale w) s1) Hw')
        as [H1 H2].
      assert (Hst : fst (run evs (w', flush (local_added w) (local_scale w) s1)) = w')
        by (apply fib_exited_stable; exact Hw').
      unfold fib_exited. rewrite Hw'.
      rewrite H1, H2. cbn. rewrite Ht, Hsc. auto.
Qed.

Lemma fib_units_whole_batches (evs : list bool) (s0 : store) :
  let c := run evs (fib_worker_init ballast, s0) in
  exists k, 0 <= k /\ local_added (fst c) = BATCH_SIZE * k /\
    total_counter (snd c) =
      if fib_exited (fst c) then u64 (total_counter s0 + BATCH_SIZE * k)
      else total_counter s0.
Proof.
  cbv zeta.
  pose proof (fib_worker_inv_run check_after_batch ballast make_ballast site mem_ok evs
                (fib_worker_init ballast, s0)
                (fib_worker_inv_init ballast)) as (k & Hk & Hadd & _).
  pose proof (fib_counters_run evs (fib_worker_init ballast) s0) as Hc.
  cbv zeta in Hc. exists k. split; [exact Hk|split; [exact Hadd|]].
  destruct (fib_exited _).
  - rewrite <- Hadd. apply Hc. discriminate.
  - apply Hc. discriminate.
Qed.

End ArithmeticWorkerCounters.

(* ================================================================== *)
(** * Dense workers and the raw allocator *)
(* ================================================================== *)

Lemma matrix_step_progress (mem_ok : nat -> bool) (w : finumpy_py.worker) (s : store) :
  stop_event s = true ->
  let c' := finumpy_py.worker_step mem_ok w s in
  stop_event (snd c') = true /\
  (dense_fuel (finumpy_py.w_pc (fst c')) <= pred (dense_fuel (finumpy_py.w_pc w)))%nat /\
  (length (finumpy_py.data_store (fst c')) + dense_remaining (finumpy_py.w_pc (fst c'))
   <= length (finumpy_py.data_store w) + dense_remaining (finumpy_py.w_pc w))%nat.
Proof.
  intros Hs. cbv zeta. unfold finumpy_py.worker_step.
  destruct w as [pc ds cnt byt]. cbn [finumpy_py.w_pc finumpy_py.data_store
    finumpy_py.local_count finumpy_py.local_bytes].
  destruct pc; rewrite ?Hs.
  - cbn. auto.
  - destruct (mem_ok (length ds)).
    + destruct ((cnt + 1) mod 10 =? 0); cbn; repeat split; auto; lia.
    + cbn. repeat split; auto; lia.
  - cbn. auto.
  - cbn. auto.
Qed.

Lemma matrix_run_progress (mem_ok : nat -> bool) (evs : list bool) :
  forall c,
    stop_event (snd c) = true ->
    let c' := finumpy_py.matrix_worker mem_ok evs c in
    (dense_fuel (finumpy_py.w_pc (fst c')) <= dense_fuel (finumpy_py.w_pc (fst c)) - length evs)%nat /\
    (length (finumpy_py.data_store (fst c')) + dense_remaining (finumpy_py.w_pc (fst c'))
     <= length (finumpy_py.data_store (fst c)) + dense_remaining (finumpy_py.w_pc (fst c)))%nat.
Proof.
  induction evs as [|ext evs IH]; intros [w s] Hs; cbv zeta; cbn [fst snd] in *.
  - cbn. lia.
  - cbn [finumpy_py.matrix_worker fst snd length].
    assert (Hs1 : stop_event (env_stop ext s) = true) by now apply env_stop_keeps.
    pose proof (matrix_step_progress mem_ok w (env_stop ext s) Hs1) as (Hs' & Hf & Hr).
    cbv zeta in Hs', Hf, Hr.
    destruct (IH _ Hs') as [Hf' Hr']. split; lia.
Qed.

(** Once the event is set, [matrix_worker] is out of its loop within three
    steps and runs at most one more loop body. *)
Lemma matrix_worker_stops_within (mem_ok : nat -> bool) :
  stops_within (finumpy_py.matrix_worker mem_ok) finumpy_py.worker_init finumpy_py.exited
               (fun w => length (finumpy_py.data_store w)) 3 1.
Proof.
  intros evs0 s0 evs c Hs Hlen.
  destruct (matrix_run_progress mem_ok evs c Hs) as [Hf Hr].
  assert (Hb : (dense_fuel (finumpy_py.w_pc (fst c)) <= 3)%nat /\
               (dense_remaining (finumpy_py.w_pc (fst c)) <= 1)%nat)
    by (destruct (finumpy_py.w_pc (fst c)); cbn; lia).
  split.
  - unfold finumpy_py.exited.
    destruct (finumpy_py.w_pc (fst (finumpy_py.matrix_worker mem_ok evs c))); cbn in Hf;
      try reflexivity; lia.
  - lia.
Qed.

Lemma numpy_step_progress (mem_ok : nat -> bool) (w : FN_py.worker) (s : store) :
  stop_event s = true ->
  let c' := FN_py.worker_step mem_ok w s in
  stop_event (snd c') = true /\
  (dense_fuel (FN_py.w_pc (fst c')) <= pred (dense_fuel (FN_py.w_pc w)))%nat /\
  (length (FN_py.history (fst c')) + dense_remaining (FN_py.w_pc (fst c'))
   <= length (FN_py.history w) + dense_remaining (FN_py.w_pc w))%nat.
Proof.
  intros Hs. cbv zeta. unfold FN_py.worker_step.
  destruct w as [pc hs cnt]. cbn [FN_py.w_pc FN_py.history FN_py.local_count].
  destruct pc; rewrite ?Hs.
  - cbn. auto.
  - destruct (mem_ok (length hs)); cbn; repeat split; auto; lia.
  - cbn. auto.
  - cbn. auto.
Qed.

Lemma numpy_run_progress (mem_ok : nat -> bool) (evs : list bool) :
  forall c,
    stop_event (snd c) = true ->
    let c' := FN_py.numpy_stress_worker mem_ok evs c in
    (dense_fuel (FN_py.w_pc (fst c')) <= dense_fuel (FN_py.w_pc (fst c)) - length evs)%nat /\
    (length (FN_py.history (fst c')) + dense_remaining (FN_py.w_pc (fst c'))
     <= length (FN_py.history (fst c)) + dense_remaining (FN_py.w_pc (fst c)))%nat.
Proof.
  induction evs as [|ext evs IH]; intros [w s] Hs; cbv zeta; cbn [fst snd] in *.
  - cbn. lia.
  - cbn [FN_py.numpy_stress_worker fst snd length].
    assert (Hs1 : stop_event (env_stop ext s) = true) by now apply env_stop_keeps.
    pose proof (numpy_step_progress mem_ok w (env_stop ext s) Hs1) as (Hs' & Hf & Hr).
    cbv zeta in Hs', Hf, Hr.
    destruct (IH _ Hs') as [Hf' Hr']. split; lia.
Qed.

Lemma numpy_worker_stops_within (mem_ok : nat -> bool) :
  stops_within (FN_py.numpy_stress_worker mem_ok) FN_py.worker_init FN_py.exited
               (fun w => length (FN_py.history w)) 3 1.
Proof.
  intros evs0 s0 evs c Hs Hlen.
  destruct (numpy_run_progress mem_ok evs c Hs) as [Hf Hr].
  assert (Hb : (dense_fuel (FN_py.w_pc (fst c)) <= 3)%nat /\
               (dense_remaining (FN_py.w_pc (fst c)) <= 1)%nat)
    by (destruct (FN_py.w_pc (fst c)); cbn; lia).
  split.
  - unfold FN_py.exited.
    destruct (FN_py.w_pc (fst (FN_py.numpy_stress_worker mem_ok evs c))); cbn in Hf;
      try reflexivity; lia.
  - lia.
Qed.


(** [burn] on an allocator that never fails: the loop is never left, and
    the event, which it cannot see, makes no difference. *)
Lemma burn_never_exits (evs : list bool) :
  forall w s,
    d_py.crashed w = false ->
    d_py.exited (fst (d_py.burn unbounded evs (w, s))) = false.
Proof.
  induction evs as [|ext evs IH]; intros w s Hw; cbn [d_py.burn fst snd]; [exact Hw|].
  apply IH. unfold d_py.worker_step. rewrite Hw. reflexivity.
Qed.

(* ================================================================== *)
(** * Claims about the workers *)
(* ================================================================== *)

(** C3, as the code has it.  Every worker that is handed the event leaves
    its loop soon after the event is set: the arithmetic workers of b.py and
    c.py within [BATCH_SIZE + 3] steps and at most [BATCH_SIZE] further
    iterations (one polling batch), the dense workers of finumpy.py and FN.py
    within three steps and at most one further loop body.  [burn] of d.py is
    handed no event: on an allocator that never fails it never leaves its
    loop. *)
Theorem C3_workers_with_the_event_exit_within_a_batch
        (site : alloc_site) (mem_ok : nat -> bool) :
  stops_within (b_py.fibonacci_worker_safe site mem_ok) b_py.worker_init fib_exited
               (fun w => length (history w))
               (Z.to_nat BATCH_SIZE + 3) (Z.to_nat BATCH_SIZE) /\
  stops_within (c_py.fibonacci_worker_real mem_ok) c_py.worker_init fib_exited
               (fun w => length (history w))
               (Z.to_nat BATCH_SIZE + 3) (Z.to_nat BATCH_SIZE) /\
  stops_within (finumpy_py.matrix_worker mem_ok) finumpy_py.worker_init finumpy_py.exited
               (fun w => length (finumpy_py.data_store w)) 3 1 /\
  stops_within (FN_py.numpy_stress_worker mem_ok) FN_py.worker_init FN_py.exited
               (fun w => length (FN_py.history w)) 3 1 /\
  (forall evs s, d_py.exited (fst (d_py.burn unbounded evs (d_py.worker_init, s))) = false).
Proof.
  split; [apply fib_worker_stops_within|].
  split; [apply fib_worker_stops_within|].
  split; [apply matrix_worker_stops_within|].
  split; [apply numpy_worker_stops_within|].
  intros evs s. now apply burn_never_exits.
Qed.

Lemma C3_workers_witness :
  let c := b_py.fibonacci_worker_safe AtSum unbounded [false; false; true]
             (b_py.worker_init, store_init) in
  w_pc (fst c) = InFor 2 /\
  fib_exited (fst (b_py.fibonacci_worker_safe AtSum unbounded
                     (repeat false (Z.to_nat BATCH_SIZE + 3)) c)) = true.
Proof.
  cbv zeta. split; [reflexivity|].
  apply (proj1 (C3_workers_with_the_event_exit_within_a_batch AtSum unbounded)
               [false; false; true] store_init (repeat false (Z.to_nat BATCH_SIZE + 3))).
  - reflexivity.
  - apply Nat.leb_le. vm_compute. reflexivity.
Defined.

(** C3, as stated, fails: no bound on steps and further iterations makes
    [burn] leave its loop after the event is set. *)
Lemma C3_burn_counterexample :
  ~ (exists steps iters,
       stops_within (d_py.burn unbounded) d_py.worker_init d_py.exited
                    (fun w => length (d_py.data w)) steps iters).
Proof.
  intros (steps & iters & H).
  destruct (H [true] store_init (repeat false steps)) as [Hex _].
  - reflexivity.
  - rewrite repeat_length. lia.
  - cbn [d_py.burn fst snd] in Hex.
    rewrite burn_never_exits in Hex by reflexivity. discriminate.
Qed.



(** C10.  The units tally an arithmetic worker adds to the shared units
    counter is a multiple of [BATCH_SIZE], on every run: the local tally is
    [BATCH_SIZE * k] throughout, and the counter holds its initial value
    until the worker exits and the initial value plus [BATCH_SIZE * k] (as a
    [c_ulonglong]) afterwards.  When the allocator gives out at [t] retained
    items and nobody else sets the event, the worker exits having flushed
    [BATCH_SIZE * (t / BATCH_SIZE)] units, so the [t mod BATCH_SIZE] units of
    the interrupted batch are left out, while the rescale events of the
    interrupted batch are flushed: all [rescale_count t] events of the [t]
    completed iterations, and also the event of the failing iteration
    [t + 1] when the error is raised after [local_scale += 1], which is so
    in c.py (the buffer is allocated last) and in b.py only when [append]
    raises. *)
Theorem C10_units_flushed_in_whole_batches :
  (forall (site : alloc_site) (mem_ok : nat -> bool) (evs : list bool) (s0 : store),
     let cb := b_py.fibonacci_worker_safe site mem_ok evs (b_py.worker_init, s0) in
     let cc := c_py.fibonacci_worker_real mem_ok evs (c_py.worker_init, s0) in
     (exists k, 0 <= k /\ local_added (fst cb) = BATCH_SIZE * k /\
        total_counter (snd cb) =
          if fib_exited (fst cb) then u64 (total_counter s0 + BATCH_SIZE * k)
          else total_counter s0) /\
     (exists k, 0 <= k /\ local_added (fst cc) = BATCH_SIZE * k /\
        total_counter (snd cc) =
          if fib_exited (fst cc) then u64 (total_counter s0 + BATCH_SIZE * k)
          else total_counter s0)) /\
  (forall (site : alloc_site) (t n : nat) (s0 : store),
     stop_event s0 = false -> (3 * t + 4 <= n)%nat ->
     let cb := b_py.fibonacci_worker_safe site (capacity t) (repeat false n)
                 (b_py.worker_init, s0) in
     let cc := c_py.fibonacci_worker_real (capacity t) (repeat false n) (c_py.worker_init, s0) in
     (fib_exited (fst cb) = true /\ stop_event (snd cb) = true /\
      length (history (fst cb)) = t /\
      total_counter (snd cb) =
        u64 (total_counter s0 + BATCH_SIZE * (Z.of_nat t / BATCH_SIZE)) /\
      scale_counter (snd cb) =
        u64 (scale_counter s0 + match site with
                                | AtRetain => rescale_count (S t)
                                | _ => rescale_count t
                                end)) /\
     (fib_exited (fst cc) = true /\ stop_event (snd cc) = true /\
      length (history (fst cc)) = t /\
      total_counter (snd cc) =
        u64 (total_counter s0 + BATCH_SIZE * (Z.of_nat t / BATCH_SIZE)) /\
      scale_counter (snd cc) = u64 (scale_counter s0 + rescale_count (S t)))).
Proof.
  split.
  - intros site mem_ok evs s0. cbv zeta. split; apply fib_units_whole_batches.
  - intros site t n s0 Hs Hn. cbv zeta. split.
    + pose proof (fib_out_of_memory_run true float64 (fun b => b) site t s0 n Hs Hn) as H.
      cbv zeta in H. rewrite interrupted_after in H. exact H.
    + pose proof (fib_out_of_memory_run false c_py.buffer c_py.new_buffer AtRetain t s0 n Hs Hn)
        as H.
      cbv zeta in H. rewrite interrupted_after in H. exact H.
Qed.

Lemma C10_units_witness :
  let cb := b_py.fibonacci_worker_safe AtSum (capacity 1435) (repeat false 4309)
              (b_py.worker_init, store_init) in
  let cc := c_py.fibonacci_worker_real (capacity 1435) (repeat false 4309)
              (c_py.worker_init, store_init) in
  (length (history (fst cb)) = 1435%nat /\
   total_counter (snd cb) = 0 /\
   scale_counter (snd cb) = 0) /\
  (length (history (fst cc)) = 1435%nat /\
   total_counter (snd cc) = 0 /\
   scale_counter (snd cc) = 1).
Proof.
  cbv zeta.
  destruct (proj2 C10_units_flushed_in_whole_batches AtSum 1435%nat 4309%nat store_init
              eq_refl ltac:(apply Nat.leb_le; vm_compute; reflexivity))
    as ((_ & _ & Hlen & Htot & Hsc) & (_ & _ & Hlen' & Htot' & Hsc')).
  destruct first_rescale as [R0 R1].
  split; (split; [assumption|split]).
  - rewrite Htot. vm_compute. reflexivity.
  - rewrite Hsc, R0. reflexivity.
  - rewrite Htot'. vm_compute. reflexivity.
  - rewrite Hsc', R1. reflexivity.
Defined.

(* ================================================================== *)
(** * Harness *)
(* ================================================================== *)

Lemma started_app (l1 l2 : list action) : started (l1 ++ l2) = (started l1 + started l2)%nat.
Proof. unfold started. now rewrite filter_app, length_app. Qed.

Lemma started_spawn_workers (n : nat) : started (spawn_workers n) = n.
Proof.
  unfold started, spawn_workers.
  assert (H : forall l, filter is_start (map Start l) = map Start l).
  { induction l as [|x l IH]; cbn; [reflexivity|now rewrite IH]. }
  now rewrite H, length_map, length_seq.
Qed.

Lemma started_run_monitor (o : monitor_outcome) : started (run_monitor o) = 0%nat.
Proof. destruct o; reflexivity. Qed.

Lemma started_join_workers (n : nat) : started (join_workers n) = 0%nat.
Proof.
  unfold started, join_workers.
  induction (seq 0 n) as [|x l IH]; cbn; [reflexivity|exact IH].
Qed.

(** A read cannot sit inside a prefix that holds no read. *)
Lemma read_after_prefix (l1 : list action) :
  forall l2 pre a post,
    (forall x, In x l1 -> is_read x = false) ->
    l1 ++ l2 = pre ++ a :: post -> is_read a = true ->
    exists pre', pre = l1 ++ pre'.
Proof.
  induction l1 as [|x l1 IH]; intros l2 pre a post Hno Heq Ha.
  - exists pre. reflexivity.
  - destruct pre as [|y pre].
    + cbn in Heq. injection Heq as Hx _. subst a.
      rewrite (Hno x (or_introl eq_refl)) in Ha. discriminate.
    + cbn in Heq. injection Heq as Hx Heq. subst y.
      destruct (IH l2 pre a post) as [pre' Hpre]; auto.
      * intros z Hz. apply Hno. right. exact Hz.
      * exists pre'. cbn. now rewrite Hpre.
Qed.

(** The shape shared by the four harnesses that hand out the event. *)
Lemma harness_reads_after_joins (n : nat) (o : monitor_outcome) (summary : list action) :
  reads_after_joins n (spawn_workers n ++ run_monitor o ++ join_workers n ++ summary).
Proof.
  intros pre a post Heq Ha i Hi.
  rewrite !app_assoc in Heq.
  assert (Hno : forall x, In x ((spawn_workers n ++ run_monitor o) ++ join_workers n) ->
                          is_read x = false).
  { intros x Hx. apply in_app_or in Hx. destruct Hx as [Hx|Hx].
    - apply in_app_or in Hx. destruct Hx as [Hx|Hx].
      + unfold spawn_workers in Hx. apply in_map_iff in Hx. destruct Hx as (j & <- & _).
        reflexivity.
      + destruct o; cbn in Hx; intuition (subst; reflexivity).
    - unfold join_workers in Hx. apply in_map_iff in Hx. destruct Hx as (j & <- & _).
      reflexivity. }
  destruct (read_after_prefix _ _ _ _ _ Hno Heq Ha) as [pre' Hpre].
  subst pre. apply in_or_app. left. apply in_or_app. right.
    unfold join_workers. apply in_map. apply in_seq. lia.
Qed.

(** C6.  In the harnesses of c.py and FN.py (and of b.py and finumpy.py,
    which have the same shape), whether the monitor returns or is cut short
    by the operator's interrupt, every read of a shared counter or of a peak
    register for the summary comes after the join of each worker that was
    started. *)
Theorem C6_summary_reads_follow_all_joins
        (cpu_count : nat) (o : monitor_outcome) (duration_pos : bool) :
  reads_after_joins cpu_count (c_py.main cpu_count o duration_pos) /\
  reads_after_joins cpu_count (FN_py.main cpu_count o) /\
  reads_after_joins cpu_count (b_py.main cpu_count o duration_pos) /\
  reads_after_joins cpu_count (finumpy_py.main cpu_count o duration_pos) /\
  (forall i, In (Start i) (c_py.main cpu_count o duration_pos) -> (i < cpu_count)%nat) /\
  (forall i, In (Start i) (FN_py.main cpu_count o) -> (i < cpu_count)%nat).
Proof.
  split; [apply harness_reads_after_joins|].
  split; [apply harness_reads_after_joins|].
  split; [apply harness_reads_after_joins|].
  split; [apply harness_reads_after_joins|].
  assert (Hsp : forall i rest,
             In (Start i) (spawn_workers cpu_count ++ run_monitor o ++
                           join_workers cpu_count ++ rest) ->
             (forall x, In x rest -> is_start x = false) -> (i < cpu_count)%nat).
  { intros i rest Hin Hrest. apply in_app_or in Hin. destruct Hin as [Hin|Hin].
    - unfold spawn_workers in Hin. apply in_map_iff in Hin.
      destruct Hin as (j & E & Hj). injection E as ->. apply in_seq in Hj. lia.
    - exfalso. apply in_app_or in Hin. destruct Hin as [Hin|Hin].
      + destruct o; cbn in Hin; intuition discriminate.
      + apply in_app_or in Hin. destruct Hin as [Hin|Hin].
        * unfold join_workers in Hin. apply in_map_iff in Hin.
          destruct Hin as (j & E & _). discriminate.
        * apply Hrest in Hin. discriminate. }
  split.
  - intros i Hin. apply (Hsp i _ Hin).
    intros x Hx. destruct duration_pos; cbn in Hx; intuition (subst; reflexivity).
  - intros i Hin. apply (Hsp i _ Hin).
    intros x Hx. cbn in Hx; intuition (subst; reflexivity).
Qed.

Lemma C6_summary_reads_witness :
  In (Join 0) [Start 0; Start 1; RunMonitor; SetStop; Join 0; Join 1; ReadPeak MaxMem] /\
  In (Join 1) [Start 0; Start 1; RunMonitor; SetStop; Join 0; Join 1; ReadPeak MaxMem].
Proof.
  pose proof (proj1 (C6_summary_reads_follow_all_joins 2 Interrupted true)
                [Start 0; Start 1; RunMonitor; SetStop; Join 0; Join 1; ReadPeak MaxMem]%nat
                (ReadPeak MaxCpu)
                [ReadPeak MaxMem; ReadCounter TotalCounter; ReadCounter SecondCounter;
                 ReadCounter TotalCounter]
                eq_refl eq_refl) as H.
  split; apply H; lia.
Defined.

(** C8, as the code has it.  The harnesses of FN.py, c.py, b.py and
    finumpy.py start exactly [os.cpu_count()] workers; the harness of d.py
    starts twice as many. *)
Theorem C8_workers_started (cpu_count : nat) (o : monitor_outcome) (duration_pos : bool) :
  started (FN_py.main cpu_count o) = cpu_count /\
  started (c_py.main cpu_count o duration_pos) = cpu_count /\
  started (b_py.main cpu_count o duration_pos) = cpu_count /\
  started (finumpy_py.main cpu_count o duration_pos) = cpu_count /\
  started (d_py.main cpu_count) = (cpu_count * 2)%nat.
Proof.
  unfold FN_py.main, c_py.main, b_py.main, finumpy_py.main, d_py.main.
  rewrite !started_app, !started_spawn_workers, !started_run_monitor, !started_join_workers.
  destruct duration_pos; cbn; repeat split; lia.
Qed.

(** C8, as stated, fails for d.py: with four logical cores it starts eight
    workers. *)
Lemma C8_d_py_counterexample : started (d_py.main 4) <> 4%nat.
Proof. cbn. discriminate. Qed.

(* ================================================================== *)
(** * fibonacci.py *)
(* ================================================================== *)

Section FibonacciFacts.

Import fibonacci_py.

Lemma fibonacci_plain_nat (n : Z) : 0 <= n -> fibonacci_plain n = fib_nat (Z.to_nat n).
Proof.
  intros Hn. unfold fibonacci_plain. destruct (Z.ltb_spec n 2) as [Hlt|Hge]; [|reflexivity].
  assert (E : n = 0 \/ n = 1) by lia. destruct E as [-> | ->]; reflexivity.
Qed.

Lemma fibonacci_plain_rec (n : Z) :
  2 <= n -> fibonacci_plain n = fibonacci_plain (n - 1) + fibonacci_plain (n - 2).
Proof.
  intros Hn. rewrite !fibonacci_plain_nat by lia.
  replace (Z.to_nat n) with (S (S (Z.to_nat (n - 2)))) by lia.
  replace (Z.to_nat (n - 1)) with (S (Z.to_nat (n - 2))) by lia.
  reflexivity.
Qed.

Lemma fibonacci_plain_small (n : Z) : n < 2 -> fibonacci_plain n = n.
Proof. intros Hn. unfold fibonacci_plain. now apply Z.ltb_lt in Hn as ->. Qed.

Lemma cache_put_sound (k v : Z) (c : cache) :
  cache_sound c -> v = fibonacci_plain k -> cache_sound (cache_put k v c).
Proof.
  intros Hc Hv k' v'. unfold cache_put. destruct (Z.eqb_spec k' k) as [->|Hne].
  - intros E. injection E as <-. exact Hv.
  - apply Hc.
Qed.

Lemma cache_put_extends (k v : Z) (c c' : cache) :
  cache_extends c c' -> c' k = None -> cache_extends c (cache_put k v c').
Proof.
  intros Hext Hk k' v' E. unfold cache_put. destruct (Z.eqb_spec k' k) as [->|Hne].
  - apply Hext in E. congruence.
  - now apply Hext.
Qed.

Lemma cache_put_same (k v : Z) (c : cache) : cache_put k v c k = Some v.
Proof. unfold cache_put. now rewrite Z.eqb_refl. Qed.

Lemma cache_extends_refl (c : cache) : cache_extends c c.
Proof. intros k v E. exact E. Qed.

Lemma cache_extends_trans (c1 c2 c3 : cache) :
  cache_extends c1 c2 -> cache_extends c2 c3 -> cache_extends c1 c3.
Proof. intros H12 H23 k v E. apply H23, H12, E. Qed.

(** One unfolding of [fibonacci]. *)
Lemma fibonacci_unfold (d : nat) (n : Z) (c : cache) :
  fibonacci (S d) n c =
  match c n with
  | Some v => (Some v, c)
  | None =>
      if n <? 2 then (Some n, cache_put n n c)
      else
        match fibonacci d (n - 1) c with
        | (None, c1) => (None, c1)
        | (Some r1, c1) =>
            match fibonacci d (n - 2) c1 with
            | (None, c2) => (None, c2)
            | (Some r2, c2) => (Some (r1 + r2), cache_put n (r1 + r2) c2)
            end
        end
  end.
Proof. reflexivity. Qed.

(** A call never loses or changes an entry, keeps the cache sound, and
    when it returns, returns the value of the plain function and has it
    cached. *)
Lemma fibonacci_sound (depth : nat) :
  forall n c,
    cache_sound c ->
    cache_sound (snd (fibonacci depth n c)) /\
    cache_extends c (snd (fibonacci depth n c)) /\
    (forall v, fst (fibonacci depth n c) = Some v ->
               v = fibonacci_plain n /\ snd (fibonacci depth n c) n = Some v).
Proof.
  induction depth as [|d IH]; intros n c Hc.
  - cbn [fibonacci fst snd]. split; [exact Hc|]. split; [apply cache_extends_refl|discriminate].
  - rewrite fibonacci_unfold. destruct (c n) as [v|] eqn:E; cbn [fst snd].
    + split; [exact Hc|]. split; [apply cache_extends_refl|].
      intros v' Ev. injection Ev as <-. split; [now apply Hc|exact E].
    + destruct (Z.ltb_spec n 2) as [Hlt|Hge]; cbn [fst snd].
      * split; [|split].
        -- apply cache_put_sound; [exact Hc|]. symmetry. now apply fibonacci_plain_small.
        -- apply cache_put_extends; [apply cache_extends_refl|exact E].
        -- intros v Ev. injection Ev as <-. split.
           ++ symmetry. now apply fibonacci_plain_small.
           ++ apply cache_put_same.
      * destruct (IH (n - 1) c Hc) as (Hs1 & He1 & Hv1).
        destruct (fibonacci d (n - 1) c) as [[r1|] c1]; cbn [fst snd] in *.
        -- destruct (IH (n - 2) c1 Hs1) as (Hs2 & He2 & Hv2).
           destruct (fibonacci d (n - 2) c1) as [[r2|] c2]; cbn [fst snd] in *.
           ++ destruct (Hv1 r1 eq_refl) as [E1 _]. destruct (Hv2 r2 eq_refl) as [E2 _].
              assert (Hval : r1 + r2 = fibonacci_plain n)
                by (rewrite fibonacci_plain_rec by lia; congruence).
              split; [|split].
              ** apply cache_put_sound; [exact Hs2|exact Hval].
              ** intros k v Ek. unfold cache_put.
                 destruct (Z.eqb_spec k n) as [->|Hne]; [congruence|].
                 apply He2, He1, Ek.
              ** intros v Ev. injection Ev as <-. split; [exact Hval|apply cache_put_same].
           ++ split; [exact Hs2|]. split; [|discriminate].
              eapply cache_extends_trans; eauto.
        -- split; [exact Hs1|]. split; [exact He1|discriminate].
Qed.



(** A call returns as soon as the depth left is at least [n] (and at least
    one). *)
Lemma fibonacci_returns (depth : nat) :
  forall n c,
    (1 <= depth)%nat -> n <= Z.of_nat depth ->
    exists v, fst (fibonacci depth n c) = Some v.
Proof.
  induction depth as [|d IH]; intros n c Hd Hn; [lia|].
  rewrite fibonacci_unfold.
  destruct (c n) as [v|] eqn:E; [exists v; reflexivity|].
  destruct (Z.ltb_spec n 2) as [Hlt|Hge]; [eexists; reflexivity|].
  destruct (IH (n - 1) c ltac:(lia) ltac:(lia)) as [r1 H1].
  destruct (fibonacci d (n - 1) c) as [[r1'|] c1]; cbn [fst] in H1; [|discriminate].
  destruct (IH (n - 2) c1 ltac:(lia) ltac:(lia)) as [r2 H2].
  destruct (fibonacci d (n - 2) c1) as [[r2'|] c2]; cbn [fst] in H2; [|discriminate].
  eexists; reflexivity.
Qed.

(** On a cache with no entry up to [n], a call with less depth than [n]
    raises. *)
Lemma fibonacci_raises (depth : nat) :
  forall n c,
    (forall k, k <= n -> c k = None) ->
    1 <= n -> Z.of_nat depth < n ->
    fst (fibonacci depth n c) = None.
Proof.
  induction depth as [|d IH]; intros n c Hc Hn Hd; [reflexivity|].
  rewrite fibonacci_unfold, (Hc n) by lia.
  destruct (Z.ltb_spec n 2) as [Hlt|Hge]; [lia|].
  assert (H1 : fst (fibonacci d (n - 1) c) = None).
  { apply IH; [intros k Hk; apply Hc; lia|lia|lia]. }
  destruct (fibonacci d (n - 1) c) as [[r1|] c1]; cbn [fst] in H1; [discriminate|reflexivity].
Qed.

(** X1.  [fibonacci] with its cache computes the plain recursive function:
    started on a cache whose entries are right, a call that returns gives
    [fibonacci_plain n], and whether it returns or raises it leaves a cache
    whose entries are right and that still has every entry it had. *)
Theorem fibonacci_memo_correct (depth : nat) (n : Z) (c : cache) :
  cache_sound c ->
  let r := fibonacci depth n c in
  (forall v, fst r = Some v -> v = fibonacci_plain n) /\
  cache_sound (snd r) /\ cache_extends c (snd r).
Proof.
  intros Hc. cbv zeta. destruct (fibonacci_sound depth n c Hc) as (Hs & He & Hv).
  split; [|split; assumption]. intros v Ev. exact (proj1 (Hv v Ev)).
Qed.

Lemma fibonacci_memo_correct_witness :
  fst (fibonacci 30 30 cache_empty) = Some 832040 /\ 832040 = fibonacci_plain 30.
Proof.
  split; [vm_compute; reflexivity|].
  apply (fibonacci_memo_correct 30 30 cache_empty).
  - intros k v E. discriminate E.
  - vm_compute. reflexivity.
Defined.

(** X2.  On an empty cache, [fibonacci(n)] for [n >= 1] returns exactly when
    the interpreter allows [n] nested calls: with less depth it raises
    [RecursionError]. *)
Theorem fibonacci_cold_call_depth (depth : nat) (n : Z) :
  1 <= n ->
  (fst (fibonacci depth n cache_empty) = Some (fibonacci_plain n) <-> n <= Z.of_nat depth).
Proof.
  intros Hn. split.
  - intros E. destruct (Z_le_gt_dec n (Z.of_nat depth)) as [Hle|Hgt]; [exact Hle|].
    rewrite fibonacci_raises in E; [discriminate|reflexivity|exact Hn|lia].
  - intros Hle. destruct (fibonacci_returns depth n cache_empty ltac:(lia) Hle) as [v Hv].
    rewrite Hv. f_equal.
    assert (Hc : cache_sound cache_empty) by (intros k w E; discriminate E).
    destruct (fibonacci_sound depth n cache_empty Hc) as (_ & _ & H). exact (proj1 (H v Hv)).
Qed.

Lemma fibonacci_cold_call_depth_witness :
  fst (fibonacci 20 20 cache_empty) = Some (fibonacci_plain 20) /\
  fst (fibonacci 19 20 cache_empty) = None.
Proof.
  split.
  - apply (fibonacci_cold_call_depth 20 20); [lia|]. cbn. lia.
  - vm_compute. reflexivity.
Defined.




End FibonacciFacts.

(* ================================================================== *)
(** * More on the accumulator *)
(* ================================================================== *)

Lemma fle_spec (x y : float64) :
  normal_pos x -> normal_pos y -> fle x y = (ival x <=? ival y).
Proof.
  intros Hx Hy. unfold fle, SFleb. rewrite (fcompare_spec x y Hx Hy).
  unfold Z.leb. destruct (ival x ?= ival y); reflexivity.
Qed.

Lemma normal_fone : normal_pos fone.
Proof. cbn. lia. Qed.

Lemma ival_fone : ival fone = U_ival.
Proof. vm_compute. reflexivity. Qed.

(** X4.  At the head of every iteration the registers lie between [1.0]
    and [THRESHOLD]: no value above [THRESHOLD] survives an iteration, and
    none falls below the initial [1.0]. *)
Theorem accumulator_stays_in_range (n : nat) :
  let s := state_after n in
  fle fone (acc_a s) = true /\ fle (acc_b s) THRESHOLD = true.
Proof.
  cbv zeta. destruct (acc_inv_state_after n) as (Ha & Hb & HU & Hab & _ & HT).
  rewrite (fle_spec _ _ normal_fone Ha),
    (fle_spec _ _ Hb normal_THRESHOLD), ival_fone, ival_THRESHOLD.
  split; apply Z.leb_le; assumption.
Qed.

(** After a rescale the next iteration stays below the threshold. *)
Lemma no_rescale_after_rescale (s : accum) :
  acc_inv s -> snd (advance s) = true -> snd (advance (fst (advance s))) = false.
Proof.
  intros Hinv Hr.
  destruct (advance_spec s Hinv) as (Hinv' & _ & _ & _ & _ & _ & Hyes).
  destruct (Hyes Hr) as (_ & _ & _ & _ & _ & _ & _ & Hea & _).
  cbn [fib_step acc_a] in Hea.
  destruct (fib_step_spec _ Hinv') as (_ & Hb3 & _ & Herr).
  destruct Hinv as (_ & _ & _ & _ & _ & HT).
  destruct Hinv' as (_ & _ & _ & _ & Hb3a & _).
  set (s' := fst (advance s)) in *.
  unfold advance at 1.
  rewrite (fgt_spec _ _ Hb3 normal_THRESHOLD), ival_THRESHOLD.
  assert (Hle : ival (acc_b (fib_step s')) <= T_ival).
  { rewrite pow2_53 in Hea, Herr.
    remember (ival (acc_b (fib_step s'))) as B3.
    remember (ival (acc_a s')) as A2. remember (ival (acc_b s')) as B2.
    remember (ival (acc_b s)) as B.
    unfold T_ival, S_ival, W_ival in *. lia. }
  apply Z.ltb_ge in Hle. rewrite Hle. reflexivity.
Qed.

Lemma rescale_count_half (n : nat) :
  2 * rescale_count n + (if snd (advance (state_after n)) then 1 else 0) <= Z.of_nat n.
Proof.
  induction n as [|n IH].
  - vm_compute. discriminate.
  - rewrite rescale_count_S.
    destruct (snd (advance (state_after n))) eqn:Hr.
    + rewrite state_after_S.
      rewrite (no_rescale_after_rescale _ (acc_inv_state_after n) Hr). lia.
    + destruct (snd (advance (state_after (S n)))); lia.
Qed.

(** X5.  The rescale never fires in two consecutive iterations, so at most
    every second iteration counts a rescale event. *)
Theorem rescale_at_most_every_second_step (n : nat) :
  (snd (advance (state_after n)) = true -> snd (advance (state_after (S n))) = false) /\
  2 * rescale_count n <= Z.of_nat n.
Proof.
  split.
  - intros Hr. rewrite state_after_S.
    exact (no_rescale_after_rescale _ (acc_inv_state_after n) Hr).
  - pose proof (rescale_count_half n) as H.
    destruct (snd (advance (state_after n))); lia.
Qed.

Lemma rescale_at_most_every_second_step_witness :
  snd (advance (state_after 1435)) = true /\ snd (advance (state_after 1436)) = false.
Proof.
  split; [vm_compute; reflexivity|].
  apply (rescale_at_most_every_second_step 1435). vm_compute. reflexivity.
Defined.

(** X6.  As long as the Fibonacci numbers fit in 53 bits the accumulator
    is exact: after [n <= 76] iterations [a] and [b] are the Fibonacci
    numbers [fibonacci(n + 1)] and [fibonacci(n + 2)] of fibonacci.py.  The
    next iteration rounds: [fibonacci(79)] is not a binary64 number. *)
Theorem accumulator_exact_up_to_76 (n : nat) :
  (n <= 76)%nat ->
  ival (acc_a (state_after n)) = fibonacci_py.fibonacci_plain (Z.of_nat n + 1) * 2 ^ 1074 /\
  ival (acc_b (state_after n)) = fibonacci_py.fibonacci_plain (Z.of_nat n + 2) * 2 ^ 1074 /\
  ival (acc_b (state_after 77)) <> fibonacci_py.fibonacci_plain 79 * 2 ^ 1074.
Proof.
  intros Hn.
  assert (Hsound : forall k v, fst (fibonacci_py.fibonacci 100 k fibonacci_py.cache_empty) = Some v ->
                               v = fibonacci_py.fibonacci_plain k).
  { intros k v E.
    assert (Hc : fibonacci_py.cache_sound fibonacci_py.cache_empty)
      by (intros j w Ej; discriminate Ej).
    destruct (fibonacci_sound 100 k fibonacci_py.cache_empty Hc) as (_ & _ & H).
    exact (proj1 (H v E)). }
  assert (Hall : forallb
            (fun m : nat =>
               match fst (fibonacci_py.fibonacci 100 (Z.of_nat m + 1) fibonacci_py.cache_empty),
                     fst (fibonacci_py.fibonacci 100 (Z.of_nat m + 2) fibonacci_py.cache_empty) with
               | Some f1, Some f2 =>
                   (ival (acc_a (state_after m)) =? f1 * 2 ^ 1074) &&
                   (ival (acc_b (state_after m)) =? f2 * 2 ^ 1074)
               | _, _ => false
               end) (seq 0 77) = true) by (vm_compute; reflexivity).
  rewrite forallb_forall in Hall.
  specialize (Hall n ltac:(apply in_seq; lia)).
  destruct (fst (fibonacci_py.fibonacci 100 (Z.of_nat n + 1) fibonacci_py.cache_empty))
    as [f1|] eqn:E1; [|discriminate].
  destruct (fst (fibonacci_py.fibonacci 100 (Z.of_nat n + 2) fibonacci_py.cache_empty))
    as [f2|] eqn:E2; [|discriminate].
  apply andb_true_iff in Hall. destruct Hall as [Ha Hb].
  apply Z.eqb_eq in Ha, Hb.
  rewrite <- (Hsound _ _ E1), <- (Hsound _ _ E2).
  split; [exact Ha|]. split; [exact Hb|].
  rewrite <- (Hsound 79 14472334024676221 ltac:(vm_compute; reflexivity)).
  intros E. apply Z.eqb_eq in E. vm_compute in E. discriminate E.
Qed.

Lemma accumulator_exact_up_to_76_witness :
  ival (acc_b (state_after 76)) = 8944394323791464 * 2 ^ 1074.
Proof.
  pose proof (proj1 (proj2 (accumulator_exact_up_to_76 76 ltac:(lia)))) as H.
  rewrite H. apply (f_equal (fun z => z * 2 ^ 1074)).
  assert (Hc : fibonacci_py.cache_sound fibonacci_py.cache_empty)
    by (intros j w Ej; discriminate Ej).
  symmetry.
  apply (proj1 (proj2 (proj2 (fibonacci_sound 100 78 fibonacci_py.cache_empty Hc)) _
                  ltac:(vm_compute; reflexivity))).
Defined.

(* ================================================================== *)
(** * More on the arithmetic workers *)
(* ================================================================== *)

Lemma produced_upto_S (len : nat) :
  produced_upto (S len) = produced (S len) :: produced_upto len.
Proof.
  unfold produced_upto. rewrite seq_S, map_app, rev_app_distr. reflexivity.
Qed.

Lemma produced_upto_length (len : nat) : length (produced_upto len) = len.
Proof. unfold produced_upto. now rewrite length_rev, length_map, length_seq. Qed.

Lemma produced_in_range (k : nat) :
  is_finite (produced k) = true /\ fle fone (produced k) = true /\
  fle (produced k) THRESHOLD = true.
Proof.
  unfold produced. destruct (acc_inv_state_after k) as (Ha & Hb & HU & Hab & _ & HT).
  split; [now apply normal_pos_finite|].
  rewrite (fle_spec _ _ normal_fone Hb), (fle_spec _ _ Hb normal_THRESHOLD),
    ival_fone, ival_THRESHOLD.
  split; apply Z.leb_le; lia.
Qed.

Section ArithmeticWorkerBallast.

Variable check_after_batch : bool.
Variable ballast : Type.
Variable make_ballast : float64 -> ballast.
Variable site : alloc_site.
Variable mem_ok : nat -> bool.

Local Abbreviation step := (fib_worker_step check_after_batch ballast make_ballast site mem_ok).
Local Abbreviation run := (fib_worker_run check_after_batch ballast make_ballast site mem_ok).

Lemma fib_history_step (w : fib_worker ballast) (s : store) :
  fib_worker_inv w -> fib_history_inv make_ballast w ->
  fib_history_inv make_ballast (fst (step w s)).
Proof.
  intros (k & Hk & Hadd & Hpc) Hh. unfold fib_history_inv in *. unfold fib_worker_step.
  destruct (w_pc w) as [|i| | |] eqn:Epc.
  - destruct (stop_event s); exact Hh.
  - destruct Hpc as (_ & _ & Hregs & _).
    destruct (advance (regs w)) as [r rescaled] eqn:Eadv.
    destruct (interrupted site (regs w) (local_scale w)) as [r' sc'].
    destruct (mem_ok (length (history w))); cbn [fst history length]; [|exact Hh].
    rewrite produced_upto_S. cbn [map]. rewrite <- Hh. f_equal. f_equal.
    unfold produced. rewrite state_after_S, <- Hregs, Eadv. reflexivity.
  - destruct (check_after_batch && stop_event s); exact Hh.
  - exact Hh.
  - exact Hh.
Qed.

Lemma fib_history_run (evs : list bool) :
  forall c,
    fib_worker_inv (fst c) -> fib_history_inv make_ballast (fst c) ->
    fib_history_inv make_ballast (fst (run evs c)).
Proof.
  induction evs as [|ext evs IH]; intros c Hinv Hh; cbn [fib_worker_run]; [exact Hh|].
  apply IH.
  - now apply fib_worker_inv_step.
  - now apply fib_history_step.
Qed.

(** Without allocation failures the loop is left only where the units tally
    is up to date. *)
Lemma fib_clean_step (w : fib_worker ballast) (s : store) :
  (forall n, mem_ok n = true) ->
  fib_worker_inv w -> fib_clean_inv w -> fib_clean_inv (fst (step w s)).
Proof.
  intros Hok (k & Hk & Hadd & Hpc) Hcl. unfold fib_clean_inv in *. unfold fib_worker_step.
  destruct (w_pc w) as [|i| | |] eqn:Epc.
  - destruct Hpc as (Hlen & Hregs & Hsc).
    destruct (stop_event s); cbn [fst w_pc history local_added local_scale].
    + split; [lia|exact Hsc].
    + unfold for_next. destruct (0 <? BATCH_SIZE); exact I.
  - destruct (advance (regs w)) as [r rescaled].
    rewrite Hok. cbn [fst w_pc]. unfold for_next. destruct (i + 1 <? BATCH_SIZE); exact I.
  - destruct Hpc as (Hlen & Hregs & Hsc).
    destruct (check_after_batch && stop_event s); cbn [fst w_pc history local_added local_scale].
    + split; [lia|exact Hsc].
    + exact I.
  - cbn [fst w_pc history local_added local_scale]. exact Hcl.
  - cbn [fst]. rewrite Epc. exact Hcl.
Qed.

Lemma fib_clean_run (evs : list bool) :
  (forall n, mem_ok n = true) ->
  forall c,
    fib_worker_inv (fst c) -> fib_clean_inv (fst c) -> fib_clean_inv (fst (run evs c)).
Proof.
  intros Hok. induction evs as [|ext evs IH]; intros c Hinv Hcl; cbn [fib_worker_run];
    [exact Hcl|].
  apply IH.
  - now apply fib_worker_inv_step.
  - now apply fib_clean_step.
Qed.

Lemma fib_clean_exit (evs : list bool) (s0 : store) :
  (forall n, mem_ok n = true) ->
  let c := run evs (fib_worker_init ballast, s0) in
  fib_exited (fst c) = true ->
  total_counter (snd c) = u64 (total_counter s0 + Z.of_nat (length (history (fst c)))) /\
  scale_counter (snd c) = u64 (scale_counter s0 + rescale_count (length (history (fst c)))) /\
  Z.of_nat (length (history (fst c))) mod BATCH_SIZE = 0.
Proof.
  intros Hok. cbv zeta. intros Hex.
  pose proof (fib_worker_inv_run check_after_batch ballast make_ballast site mem_ok evs
                (fib_worker_init ballast, s0) (fib_worker_inv_init ballast))
    as (k & Hk & Hadd & _).
  pose proof (fib_clean_run evs Hok (fib_worker_init ballast, s0)
                (fib_worker_inv_init ballast) I) as Hcl.
  pose proof (fib_counters_run check_after_batch ballast make_ballast site mem_ok evs
                (fib_worker_init ballast) s0 ltac:(discriminate)) as Hc.
  cbv zeta in Hc. rewrite Hex in Hc. destruct Hc as [Ht Hs].
  unfold fib_clean_inv, fib_exited in *.
  destruct (w_pc (fst (run evs (fib_worker_init ballast, s0)))); try discriminate.
  destruct Hcl as [Hl Hsc]. rewrite <- Hl, <- Hsc. split; [exact Ht|]. split; [exact Hs|].
  rewrite Hadd, Z.mul_comm. apply Z_mod_mult.
Qed.

(** The ballast only grows. *)
Lemma fib_history_grows (evs : list bool) :
  forall c, (length (history (fst c)) <= length (history (fst (run evs c))))%nat.
Proof.
  induction evs as [|ext evs IH]; intros [w s]; cbn [fib_worker_run fst snd]; [lia|].
  etransitivity; [|apply IH].
  unfold fib_worker_step.
  destruct (w_pc w) eqn:Epc.
  - destruct (stop_event (env_stop ext s)); cbn [fst history]; lia.
  - destruct (advance (regs w)) as [r rescaled].
    destruct (interrupted site (regs w) (local_scale w)) as [r' sc'].
    destruct (mem_ok (length (history w))); cbn [fst history length]; lia.
  - destruct (check_after_batch && stop_event (env_stop ext s)); cbn [fst history]; lia.
  - cbn [fst history]. lia.
  - cbn [fst]. lia.
Qed.

Lemma fib_worker_run_app (evs1 evs2 : list bool) :
  forall c, run (evs1 ++ evs2) c = run evs2 (run evs1 c).
Proof.
  induction evs1 as [|ext evs1 IH]; intros c; cbn [app fib_worker_run]; [reflexivity|].
  apply IH.
Qed.

End ArithmeticWorkerBallast.

(** A run of the worker of b.py in which the event is set during the first
    batch: the worker completes the batch and leaves at the test that
    follows it, with the [BATCH_SIZE] items of the batch retained. *)
Lemma b_worker_one_batch_run :
  let evs := [false; false; true] ++ repeat false (Z.to_nat BATCH_SIZE + 3) in
  let cb := b_py.fibonacci_worker_safe AtSum unbounded evs (b_py.worker_init, store_init) in
  fib_exited (fst cb) = true /\
  2 <= Z.of_nat (length (history (fst cb))) <= BATCH_SIZE.
Proof.
  cbv zeta. unfold b_py.fibonacci_worker_safe. rewrite fib_worker_run_app.
  set (c := fib_worker_run true float64 (fun b => b) AtSum unbounded [false; false; true]
              (b_py.worker_init, store_init)).
  assert (Hpc : w_pc (fst c) = InFor 2) by (vm_compute; reflexivity).
  assert (Hlen : length (history (fst c)) = 2%nat) by (vm_compute; reflexivity).
  assert (Hs : stop_event (snd c) = true) by (vm_compute; reflexivity).
  assert (Hinv : fib_worker_inv (fst c)).
  { apply fib_worker_inv_run. apply fib_worker_inv_init. }
  destruct (fib_run_progress true float64 (fun b => b) AtSum unbounded
              (repeat false (Z.to_nat BATCH_SIZE + 3)) c Hinv Hs) as [Hf Hr].
  pose proof (fib_history_grows true float64 (fun b => b) AtSum unbounded
                (repeat false (Z.to_nat BATCH_SIZE + 3)) c) as Hg.
  rewrite Hpc in Hf, Hr. rewrite Hlen in Hr, Hg. rewrite repeat_length in Hf.
  cbn [fib_fuel fib_remaining] in Hf, Hr.
  assert (Hrem : 0 <= fib_remaining (w_pc (fst (fib_worker_run true float64 (fun b => b)
                        AtSum unbounded (repeat false (Z.to_nat BATCH_SIZE + 3)) c)))).
  { assert (Hinv' : fib_worker_inv (fst (fib_worker_run true float64 (fun b => b)
                        AtSum unbounded (repeat false (Z.to_nat BATCH_SIZE + 3)) c)))
      by (apply fib_worker_inv_run; exact Hinv).
    destruct (fib_fuel_bound _ _ Hinv') as [_ [H _]]. exact H. }
  split.
  - apply fib_fuel_zero. lia.
  - change (Z.of_nat 2) with 2 in Hr. lia.
Qed.

(** X7.  When no allocation fails, an arithmetic worker that has left its
    loop has reported everything: the units it added to the shared counter
    are the number of items it retains (a whole number of batches), and the
    rescale events it added are those of that many iterations.  This holds
    for [fibonacci_worker_safe] of b.py and [fibonacci_worker_real] of
    c.py. *)
Theorem arithmetic_worker_clean_stop_reports_all
        (site : alloc_site) (evs : list bool) (s0 : store) :
  let cb := b_py.fibonacci_worker_safe site unbounded evs (b_py.worker_init, s0) in
  let cc := c_py.fibonacci_worker_real unbounded evs (c_py.worker_init, s0) in
  (fib_exited (fst cb) = true ->
   total_counter (snd cb) = u64 (total_counter s0 + Z.of_nat (length (history (fst cb)))) /\
   scale_counter (snd cb) = u64 (scale_counter s0 + rescale_count (length (history (fst cb)))) /\
   Z.of_nat (length (history (fst cb))) mod BATCH_SIZE = 0) /\
  (fib_exited (fst cc) = true ->
   total_counter (snd cc) = u64 (total_counter s0 + Z.of_nat (length (history (fst cc)))) /\
   scale_counter (snd cc) = u64 (scale_counter s0 + rescale_count (length (history (fst cc)))) /\
   Z.of_nat (length (history (fst cc))) mod BATCH_SIZE = 0).
Proof.
  cbv zeta. split; apply fib_clean_exit; reflexivity.
Qed.

Lemma arithmetic_worker_clean_stop_witness :
  let evs := [false; false; true] ++ repeat false (Z.to_nat BATCH_SIZE + 3) in
  let cb := b_py.fibonacci_worker_safe AtSum unbounded evs (b_py.worker_init, store_init) in
  fib_exited (fst cb) = true /\
  Z.of_nat (length (history (fst cb))) = 50000 /\
  total_counter (snd cb) = 50000 /\
  scale_counter (snd cb) = u64 (0 + rescale_count (length (history (fst cb)))).
Proof.
  cbv zeta. destruct b_worker_one_batch_run as [Hex Hlen]. cbv zeta in Hex, Hlen.
  destruct (proj1 (arithmetic_worker_clean_stop_reports_all AtSum
                     ([false; false; true] ++ repeat false (Z.to_nat BATCH_SIZE + 3))
                     store_init) Hex) as (Ht & Hs & Hm).
  split; [exact Hex|]. split; [|split; [|exact Hs]].
  - remember (Z.of_nat (length (history (fst (b_py.fibonacci_worker_safe AtSum unbounded
                ([false; false; true] ++ repeat false (Z.to_nat BATCH_SIZE + 3))
                (b_py.worker_init, store_init)))))) as L eqn:EL.
    change BATCH_SIZE with 50000 in Hlen, Hm.
    destruct (Z.eq_dec L 50000) as [E|N]; [exact E|].
    rewrite Z.mod_small in Hm by lia. lia.
  - rewrite Ht.
    remember (Z.of_nat (length (history (fst (b_py.fibonacci_worker_safe AtSum unbounded
                ([false; false; true] ++ repeat false (Z.to_nat BATCH_SIZE + 3))
                (b_py.worker_init, store_init)))))) as L eqn:EL.
    change BATCH_SIZE with 50000 in Hlen, Hm.
    destruct (Z.eq_dec L 50000) as [E|N]; [rewrite E; reflexivity|].
    rewrite Z.mod_small in Hm by lia. lia.
Defined.

(** X8.  The ballast of the arithmetic workers, on every run: the list
    [history] of b.py holds exactly the values the accumulator produced, the
    most recent first, each of them finite and between [1.0] and
    [THRESHOLD]; the list of c.py holds one buffer of [1024 * 1024] bytes
    with first byte 1 per completed iteration. *)
Theorem arithmetic_worker_ballast
        (site : alloc_site) (mem_ok : nat -> bool) (evs : list bool) (s0 : store) :
  let wb := fst (b_py.fibonacci_worker_safe site mem_ok evs (b_py.worker_init, s0)) in
  let wc := fst (c_py.fibonacci_worker_real mem_ok evs (c_py.worker_init, s0)) in
  history wb = produced_upto (length (history wb)) /\
  Forall (fun v => is_finite v = true /\ fle fone v = true /\ fle v THRESHOLD = true)
         (history wb) /\
  history wc = repeat (1024 * 1024, 1) (length (history wc)).
Proof.
  cbv zeta. unfold b_py.fibonacci_worker_safe, c_py.fibonacci_worker_real.
  assert (Hb := fib_history_run true float64 (fun b => b) site mem_ok evs (b_py.worker_init, s0)
                  (fib_worker_inv_init float64) eq_refl).
  assert (Hc := fib_history_run false c_py.buffer c_py.new_buffer AtRetain mem_ok evs
                  (c_py.worker_init, s0) (fib_worker_inv_init c_py.buffer) eq_refl).
  unfold fib_history_inv in Hb, Hc. rewrite map_id in Hb.
  remember (history (fst (fib_worker_run true float64 (fun b => b) site mem_ok evs
                            (b_py.worker_init, s0)))) as hb eqn:Ehb.
  remember (history (fst (fib_worker_run false c_py.buffer c_py.new_buffer AtRetain mem_ok evs
                            (c_py.worker_init, s0)))) as hc eqn:Ehc.
  clear Ehb Ehc.
  split; [exact Hb|]. split.
  - rewrite Hb. apply Forall_forall. intros v Hv.
    unfold produced_upto in Hv. apply in_rev in Hv. apply in_map_iff in Hv.
    destruct Hv as (k & <- & _). apply produced_in_range.
  - assert (E : forall l : list float64,
               map c_py.new_buffer l = repeat (1024 * 1024, 1) (length l)).
    { induction l as [|x l IH]; cbn [map length repeat]; [reflexivity|now rewrite IH]. }
    etransitivity; [exact Hc|]. now rewrite E, produced_upto_length.
Qed.

(* ================================================================== *)
(** * More on the monitors *)
(* ================================================================== *)

Lemma b_monitor_iter_peak (mem : Q) (s : store) :
  stop_event s = false ->
  let r := b_py.monitor_iter (Some mem) s in
  (max_mem_record s <= max_mem_record (snd r))%Q /\ (mem <= max_mem_record (snd r))%Q /\
  (max_mem_record (snd r) = max_mem_record s \/ max_mem_record (snd r) = mem).
Proof.
  intros Hs. cbv zeta. unfold b_py.monitor_iter. rewrite Hs.
  pose proof (peak_update_mem mem s) as Hm. cbv zeta in Hm.
  set (s1 := if Qgtb mem (max_mem_record s) then set_max_mem mem s else s) in *.
  destruct Hm as (Hm1 & Hm2 & Hm3 & _ & _).
  destruct (Qgeb mem MEMORY_LIMIT_PERCENT); cbn [fst snd set_stop max_mem_record]; auto.
Qed.

Lemma b_monitor_iter_idle (smp : option Q) (s : store) :
  stop_event s = true \/ smp = None -> b_py.monitor_iter smp s = (false, s).
Proof.
  intros [Hs| ->]; unfold b_py.monitor_iter.
  - now rewrite Hs.
  - destruct (stop_event s); reflexivity.
Qed.

Lemma b_processed_is_max (evs : list (mon_event (option Q))) :
  forall s l,
    is_max l (max_mem_record s) ->
    is_max (l ++ processed_mem evs s)
           (max_mem_record (snd (monitor_loop b_py.monitor_iter evs s))) /\
    (max_mem_record s <= max_mem_record (snd (monitor_loop b_py.monitor_iter evs s)))%Q.
Proof.
  induction evs as [|[smp|] evs IH]; intros s l Hm; cbn [monitor_loop processed_mem].
  - rewrite app_nil_r. split; [exact Hm|apply Qle_refl].
  - destruct (stop_event s) eqn:Hs.
    + rewrite (b_monitor_iter_idle smp s (or_introl Hs)). cbn [snd].
      destruct smp; rewrite app_nil_r; split; auto using Qle_refl.
    + destruct smp as [mem|].
      * pose proof (b_monitor_iter_peak mem s Hs) as H. cbv zeta in H.
        destruct (b_py.monitor_iter (Some mem) s) as [go s1]. cbn [fst snd] in H.
        destruct H as (Hm1 & Hm2 & Hm3).
        assert (Hm' : is_max (l ++ [mem]) (max_mem_record s1)).
        { destruct Hm3 as [E|E]; rewrite E in *.
          - now apply is_max_cons_keep.
          - now apply is_max_cons_new with (x := max_mem_record s). }
        destruct go; cbn [snd].
        -- destruct (IH s1 _ Hm') as [H1 H2]. rewrite <- app_assoc in H1.
           split; [exact H1|eapply Qle_trans; eauto].
        -- split; assumption.
      * rewrite (b_monitor_iter_idle None s (or_intror eq_refl)). cbn [snd].
        rewrite app_nil_r. split; auto using Qle_refl.
  - apply (IH (set_stop s) l). exact Hm.
Qed.

Lemma b_monitor_cpu_untouched (evs : list (mon_event (option Q))) :
  forall s,
    max_cpu_record (snd (monitor_loop b_py.monitor_iter evs s)) = max_cpu_record s.
Proof.
  induction evs as [|[smp|] evs IH]; intros s; cbn [monitor_loop].
  - reflexivity.
  - assert (H : max_cpu_record (snd (b_py.monitor_iter smp s)) = max_cpu_record s).
    { unfold b_py.monitor_iter. destruct (stop_event s); [reflexivity|].
      destruct smp as [mem|]; [|reflexivity].
      destruct (Qgtb mem (max_mem_record s)), (Qgeb mem MEMORY_LIMIT_PERCENT); reflexivity. }
    destruct (b_py.monitor_iter smp s) as [[|] s1]; cbn [snd] in *; [|exact H].
    now rewrite IH.
  - now rewrite IH.
Qed.

(** X9.  The memory-only monitor of b.py: its peak register never
    decreases along a run, at any point it holds the maximum of [0.0] and the
    memory samples processed so far (the one that reaches the ceiling
    included), and the CPU peak register is never written. *)
Theorem b_monitor_peak_is_running_maximum (evs1 evs2 : list (mon_event (option Q))) :
  let s1 := snd (b_py.memory_monitor evs1 store_init) in
  let s2 := snd (b_py.memory_monitor (evs1 ++ evs2) store_init) in
  (max_mem_record s1 <= max_mem_record s2)%Q /\
  is_max ((0 # 1) :: processed_mem (evs1 ++ evs2) store_init) (max_mem_record s2) /\
  max_cpu_record s2 = 0 # 1.
Proof.
  cbv zeta. unfold b_py.memory_monitor. split; [|split].
  - rewrite monitor_loop_app.
    destruct (fst (monitor_loop b_py.monitor_iter evs1 store_init)).
    + exact (proj2 (b_processed_is_max evs2 _ [_] (is_max_singleton _))).
    + apply Qle_refl.
  - apply (b_processed_is_max (evs1 ++ evs2) store_init [0 # 1]). apply is_max_singleton.
  - apply b_monitor_cpu_untouched.
Qed.

Lemma monitor_iter_frame (smp : sample) (s : store) :
  let s' := snd (monitor_iter smp s) in
  total_counter s' = total_counter s /\ scale_counter s' = scale_counter s /\
  (stop_event s = true -> monitor_iter smp s = (false, s)).
Proof.
  cbv zeta. unfold monitor_iter. destruct (stop_event s) eqn:Hs; [auto|].
  destruct smp as [|cpu|cpu mem]; cbn [snd]; [repeat split; congruence..|].
  destruct (Qgtb mem (max_mem_record s)); cbn [max_cpu_record set_max_mem];
    destruct (Qgtb cpu (max_cpu_record s)), (Qgeb mem MEMORY_LIMIT_PERCENT);
    cbn; repeat split; congruence.
Qed.

Lemma b_monitor_iter_frame (smp : option Q) (s : store) :
  let s' := snd (b_py.monitor_iter smp s) in
  total_counter s' = total_counter s /\ scale_counter s' = scale_counter s /\
  (stop_event s = true -> b_py.monitor_iter smp s = (false, s)).
Proof.
  cbv zeta. unfold b_py.monitor_iter. destruct (stop_event s) eqn:Hs; [auto|].
  destruct smp as [mem|]; cbn [snd]; [|repeat split; congruence].
  destruct (Qgtb mem (max_mem_record s)), (Qgeb mem MEMORY_LIMIT_PERCENT);
    cbn; repeat split; congruence.
Qed.

Lemma monitor_loop_frame {A : Type} (iter : A -> store -> bool * store) :
  (forall smp s,
     total_counter (snd (iter smp s)) = total_counter s /\
     scale_counter (snd (iter smp s)) = scale_counter s /\
     (stop_event s = true -> iter smp s = (false, s))) ->
  forall evs s,
    total_counter (snd (monitor_loop iter evs s)) = total_counter s /\
    scale_counter (snd (monitor_loop iter evs s)) = scale_counter s /\
    (stop_event s = true -> stop_event (snd (monitor_loop iter evs s)) = true).
Proof.
  intros Hiter. induction evs as [|[smp|] evs IH]; intros s; cbn [monitor_loop].
  - auto.
  - destruct (Hiter smp s) as (Ht & Hsc & Hst).
    destruct (iter smp s) as [[|] s1] eqn:E; cbn [snd] in *.
    + destruct (IH s1) as (Ht' & Hsc' & Hst'). repeat split; try congruence.
      intros Hs. specialize (Hst Hs). discriminate Hst.
    + repeat split; auto. intros Hs. specialize (Hst Hs). now injection Hst as <-.
  - destruct (IH (set_stop s)) as (Ht' & Hsc' & Hst'). cbn in *. auto.
Qed.

(** X10.  Neither monitor ever writes a shared counter or clears the event;
    and once the event is set, the next test of the loop condition ends the
    monitor without any further sample being recorded. *)
Theorem monitors_leave_counters_and_event (s : store) :
  (forall evs,
     let s' := snd (c_py.memory_monitor evs s) in
     total_counter s' = total_counter s /\ scale_counter s' = scale_counter s /\
     (stop_event s = true -> stop_event s' = true)) /\
  (forall evs,
     let s' := snd (b_py.memory_monitor evs s) in
     total_counter s' = total_counter s /\ scale_counter s' = scale_counter s /\
     (stop_event s = true -> stop_event s' = true)) /\
  (stop_event s = true ->
   (forall smp evs, c_py.memory_monitor (Tick smp :: evs) s = (false, s)) /\
   (forall smp evs, b_py.memory_monitor (Tick smp :: evs) s = (false, s))).
Proof.
  split; [|split].
  - intros evs. apply (monitor_loop_frame monitor_iter). intros smp s1.
    apply monitor_iter_frame.
  - intros evs. apply (monitor_loop_frame b_py.monitor_iter). intros smp s1.
    apply b_monitor_iter_frame.
  - intros Hs. unfold c_py.memory_monitor, b_py.memory_monitor. cbn [monitor_loop].
    split; intros smp evs.
    + now rewrite (proj2 (proj2 (monitor_iter_frame smp s)) Hs).
    + now rewrite (proj2 (proj2 (b_monitor_iter_frame smp s)) Hs).
Qed.

Lemma monitors_leave_counters_and_event_witness :
  c_py.memory_monitor [Tick (Sampled (50 # 1) (99 # 1))] (set_stop store_init)
  = (false, set_stop store_init).
Proof.
  apply (proj1 (proj2 (proj2 (monitors_leave_counters_and_event (set_stop store_init)))
                 eq_refl)).
Defined.

Lemma monitor_exit_reasons (evs : list (mon_event sample)) :
  forall s,
    forallb is_tick evs = true -> stop_event s = false ->
    let r := monitor_loop monitor_iter evs s in
    (stop_event (snd r) = true ->
     fst r = false /\ (MEMORY_LIMIT_PERCENT <= max_mem_record (snd r))%Q) /\
    (fst r = false -> stop_event (snd r) = false -> error_ticks evs <> []).
Proof.
  induction evs as [|[smp|] evs IH]; intros s Hticks Hs; cbv zeta; cbn [monitor_loop].
  - cbn [fst snd]. split; [congruence|discriminate].
  - cbn [forallb is_tick andb] in Hticks.
    destruct smp as [|cpu|cpu mem].
    + unfold monitor_iter. rewrite Hs. cbn [fst snd]. split; [congruence|].
      intros _ _. cbn. discriminate.
    + unfold monitor_iter. rewrite Hs. cbn [fst snd]. split; [congruence|].
      intros _ _. cbn. discriminate.
    + pose proof (monitor_iter_sampled cpu mem s Hs) as H. cbv zeta in H.
      destruct (monitor_iter (Sampled cpu mem) s) as [go s1]. cbn [fst snd] in H.
      destruct H as (_ & Hm2 & _ & _ & _ & _ & Hgo & Hst).
      destruct (Qgeb mem MEMORY_LIMIT_PERCENT) eqn:Eg; cbn [negb] in Hgo; subst go.
      * cbn [fst snd]. apply Qgeb_true in Eg. split.
        -- intros _. split; [reflexivity|eapply Qle_trans; eauto].
        -- congruence.
      * specialize (IH s1 Hticks Hst). cbv zeta in IH.
        change (error_ticks (Tick (Sampled cpu mem) :: evs)) with (error_ticks evs).
        exact IH.
  - cbn in Hticks. discriminate.
Qed.

(** X11.  Why the CPU+memory monitor returns, when nobody else sets the
    event: if the event is set afterwards the monitor has left its loop on
    the ceiling and the memory peak it recorded is at least
    [MEMORY_LIMIT_PERCENT]; if it has left its loop with the event unset, a
    telemetry call raised. *)
Theorem monitor_return_reasons (evs : list (mon_event sample)) :
  forallb is_tick evs = true ->
  let r := c_py.memory_monitor evs store_init in
  (stop_event (snd r) = true ->
   fst r = false /\ (MEMORY_LIMIT_PERCENT <= max_mem_record (snd r))%Q) /\
  (fst r = false -> stop_event (snd r) = false -> error_ticks evs <> []).
Proof.
  intros Hticks. apply monitor_exit_reasons; [exact Hticks|reflexivity].
Qed.

Lemma monitor_return_reasons_witness :
  let evs := [Tick (Sampled (10 # 1) (40 # 1)); Tick (Sampled (20 # 1) (97 # 1))] in
  fst (c_py.memory_monitor evs store_init) = false /\
  (MEMORY_LIMIT_PERCENT <= max_mem_record (snd (c_py.memory_monitor evs store_init)))%Q.
Proof.
  cbv zeta.
  apply (proj1 (monitor_return_reasons
                  [Tick (Sampled (10 # 1) (40 # 1)); Tick (Sampled (20 # 1) (97 # 1))] eq_refl)).
  reflexivity.
Defined.

(* ================================================================== *)
(** * Flushes of several workers *)
(* ================================================================== *)

Lemma u64_add_idemp (a x : Z) : u64 (u64 a + x) = u64 (a + x).
Proof. unfold u64. apply Z.add_mod_idemp_l. discriminate. Qed.

Lemma u64_small (a : Z) : 0 <= a < 2 ^ 64 -> u64 a = a.
Proof. intros H. unfold u64. now apply Z.mod_small. Qed.

Lemma flush_all_fields (l : list (Z * Z)) :
  forall s,
    u64 (total_counter (flush_all l s)) = u64 (total_counter s + sum_list (map fst l)) /\
    u64 (scale_counter (flush_all l s)) = u64 (scale_counter s + sum_list (map snd l)) /\
    (l <> [] -> 0 <= total_counter (flush_all l s) < 2 ^ 64 /\
                0 <= scale_counter (flush_all l s) < 2 ^ 64) /\
    stop_event (flush_all l s) = stop_event s /\
    max_mem_record (flush_all l s) = max_mem_record s /\
    max_cpu_record (flush_all l s) = max_cpu_record s.
Proof.
  induction l as [|[x y] l IH]; intros s.
  - cbn. rewrite !Z.add_0_r. repeat split; auto; congruence.
  - destruct (IH (flush x y s)) as (Ht & Hs & Hr & Hst & Hm & Hc).
    change (flush_all ((x, y) :: l) s) with (flush_all l (flush x y s)).
    unfold sum_list in *. cbn [map fold_right fst snd].
    rewrite Ht, Hs, Hst, Hm, Hc.
    cbn [flush total_counter scale_counter stop_event max_mem_record max_cpu_record].
    rewrite !u64_add_idemp, !Z.add_assoc.
    split; [reflexivity|]. split; [reflexivity|]. split; [|auto].
    intros _. destruct l as [|t l]; [|apply Hr; discriminate].
    cbn [flush_all fold_left flush total_counter scale_counter]. unfold u64.
    split; apply Z.mod_pos_bound; reflexivity.
Qed.

Lemma sum_list_perm (l l' : list Z) : Permutation l l' -> sum_list l = sum_list l'.
Proof.
  induction 1 as [|x l l' _ IH|x y l|l l' l'' _ IH1 _ IH2]; unfold sum_list in *; cbn [fold_right] in *; lia.
Qed.

Lemma flush_all_total (l : list (Z * Z)) (s : store) :
  0 <= total_counter s < 2 ^ 64 -> 0 <= scale_counter s < 2 ^ 64 ->
  total_counter (flush_all l s) = u64 (total_counter s + sum_list (map fst l)) /\
  scale_counter (flush_all l s) = u64 (scale_counter s + sum_list (map snd l)).
Proof.
  intros Ht Hs. destruct (flush_all_fields l s) as (H1 & H2 & Hr & _).
  destruct l as [|t l].
  - cbn. rewrite !Z.add_0_r, !u64_small by assumption. auto.
  - destruct (Hr ltac:(discriminate)) as [R1 R2].
    rewrite <- H1, <- H2, !u64_small by assumption. auto.
Qed.

(** X12.  No update is lost and the order does not matter: after any number
    of workers have run their [finally] blocks one after the other, each
    shared counter holds its initial value plus the sum of the workers'
    tallies, as a [c_ulonglong]; the flushes leave the event and the peak
    registers alone; and flushing in another order gives the same shared
    objects. *)
Theorem flushes_add_up_in_any_order (tallies tallies' : list (Z * Z)) (s : store) :
  0 <= total_counter s < 2 ^ 64 -> 0 <= scale_counter s < 2 ^ 64 ->
  total_counter (flush_all tallies s) = u64 (total_counter s + sum_list (map fst tallies)) /\
  scale_counter (flush_all tallies s) = u64 (scale_counter s + sum_list (map snd tallies)) /\
  stop_event (flush_all tallies s) = stop_event s /\
  max_mem_record (flush_all tallies s) = max_mem_record s /\
  max_cpu_record (flush_all tallies s) = max_cpu_record s /\
  (Permutation tallies tallies' -> flush_all tallies' s = flush_all tallies s).
Proof.
  intros Ht Hs.
  destruct (flush_all_total tallies s Ht Hs) as [T1 S1].
  destruct (flush_all_fields tallies s) as (_ & _ & _ & E1 & M1 & P1).
  repeat split; auto.
  intros Hp.
  destruct (flush_all_total tallies' s Ht Hs) as [T2 S2].
  destruct (flush_all_fields tallies' s) as (_ & _ & _ & E2 & M2 & P2).
  assert (Hf : sum_list (map fst tallies) = sum_list (map fst tallies'))
    by (apply sum_list_perm, Permutation_map, Hp).
  assert (Hg : sum_list (map snd tallies) = sum_list (map snd tallies'))
    by (apply sum_list_perm, Permutation_map, Hp).
  destruct (flush_all tallies s) as [e1 t1 c1 m1 p1], (flush_all tallies' s) as [e2 t2 c2 m2 p2].
  cbn [total_counter scale_counter stop_event max_mem_record max_cpu_record] in *.
  congruence.
Qed.

Lemma flushes_add_up_witness :
  total_counter (flush_all [(50000, 1); (100000, 3); (0, 2)] store_init) = 150000 /\
  scale_counter (flush_all [(50000, 1); (100000, 3); (0, 2)] store_init) = 6 /\
  flush_all [(100000, 3); (50000, 1); (0, 2)] store_init =
  flush_all [(50000, 1); (100000, 3); (0, 2)] store_init.
Proof.
  destruct (flushes_add_up_in_any_order
              [(50000, 1); (100000, 3); (0, 2)] [(100000, 3); (50000, 1); (0, 2)] store_init
              ltac:(cbn; lia) ltac:(cbn; lia)) as (H1 & H2 & _ & _ & _ & H3).
  rewrite H1, H2. split; [reflexivity|]. split; [reflexivity|].
  apply H3. apply perm_swap.
Defined.

(* ================================================================== *)
(** * The dense workers: tallies, ballast and reports *)
(* ================================================================== *)

Section DenseWorkerAccounts.

Variable mem_ok : nat -> bool.

Lemma matrix_inv_init (s0 : store) : matrix_inv s0 finumpy_py.worker_init s0.
Proof.
  unfold matrix_inv. cbn. repeat split; auto.
Qed.

Lemma matrix_inv_step (s0 : store) (w : finumpy_py.worker) (s : store) (ext : bool) :
  matrix_inv s0 w s ->
  let c' := finumpy_py.worker_step mem_ok w (env_stop ext s) in
  matrix_inv s0 (fst c') (snd c').
Proof.
  intros (Hc & Hb & Hall & Hcnt). cbv zeta.
  destruct (env_stop_counters ext s) as [Et Es].
  unfold matrix_inv, finumpy_py.worker_step, finumpy_py.exited in *.
  destruct (finumpy_py.w_pc w) eqn:Epc.
  - destruct (stop_event (env_stop ext s));
      cbn [fst snd finumpy_py.w_pc finumpy_py.local_count finumpy_py.local_bytes
           finumpy_py.data_store];
      rewrite Et, Es; auto.
  - destruct (mem_ok (length (finumpy_py.data_store w))).
    + cbn [fst snd finumpy_py.w_pc finumpy_py.local_count finumpy_py.local_bytes
           finumpy_py.data_store].
      rewrite Et, Es.
      split; [cbn [length]; lia|]. split; [lia|]. split; [constructor; auto|].
      destruct ((finumpy_py.local_count w + 1) mod 10 =? 0);
        destruct (stop_event (env_stop ext s)); cbn [andb]; exact Hcnt.
    + cbn [fst snd finumpy_py.w_pc finumpy_py.local_count finumpy_py.local_bytes
           finumpy_py.data_store].
      change (total_counter (set_stop (env_stop ext s))) with (total_counter (env_stop ext s)).
      change (scale_counter (set_stop (env_stop ext s))) with (scale_counter (env_stop ext s)).
      rewrite Et, Es. auto.
  - cbn [fst snd finumpy_py.w_pc finumpy_py.local_count finumpy_py.local_bytes
         finumpy_py.data_store flush total_counter scale_counter].
    rewrite Et, Es. destruct Hcnt as [H1 H2]. rewrite H1, H2. auto.
  - cbn [fst snd]. rewrite Epc, Et, Es. auto.
Qed.

Lemma matrix_inv_run (s0 : store) (evs : list bool) :
  forall w s,
    matrix_inv s0 w s ->
    let c' := finumpy_py.matrix_worker mem_ok evs (w, s) in
    matrix_inv s0 (fst c') (snd c').
Proof.
  induction evs as [|ext evs IH]; intros w s Hinv; cbv zeta.
  - exact Hinv.
  - cbn [finumpy_py.matrix_worker fst snd].
    pose proof (matrix_inv_step s0 w s ext Hinv) as H. cbv zeta in H.
    destruct (finumpy_py.worker_step mem_ok w (env_stop ext s)) as [w' s'].
    apply IH. exact H.
Qed.

Lemma numpy_inv_init (s0 : store) : numpy_inv s0 FN_py.worker_init s0.
Proof.
  unfold numpy_inv. cbn. repeat split; auto.
Qed.

Lemma numpy_inv_step (s0 : store) (w : FN_py.worker) (s : store) (ext : bool) :
  numpy_inv s0 w s ->
  let c' := FN_py.worker_step mem_ok w (env_stop ext s) in
  numpy_inv s0 (fst c') (snd c').
Proof.
  intros (Hc & Hall & Hsc & Hcnt). cbv zeta.
  destruct (env_stop_counters ext s) as [Et Es].
  unfold numpy_inv, FN_py.worker_step, FN_py.exited in *.
  destruct (FN_py.w_pc w) eqn:Epc.
  - destruct (stop_event (env_stop ext s));
      cbn [fst snd FN_py.w_pc FN_py.local_count FN_py.history];
      rewrite Et, Es; auto.
  - destruct (mem_ok (length (FN_py.history w))).
    + cbn [fst snd FN_py.w_pc FN_py.local_count FN_py.history].
      rewrite Et, Es.
      split; [cbn [length]; lia|]. split; [constructor; auto|]. split; [exact Hsc|].
      destruct (stop_event (env_stop ext s)); exact Hcnt.
    + cbn [fst snd FN_py.w_pc FN_py.local_count FN_py.history].
      change (total_counter (set_stop (env_stop ext s))) with (total_counter (env_stop ext s)).
      change (scale_counter (set_stop (env_stop ext s))) with (scale_counter (env_stop ext s)).
      rewrite Et, Es. auto.
  - cbn [fst snd FN_py.w_pc FN_py.local_count FN_py.history total_counter scale_counter].
    rewrite Et, Es, Hcnt. auto.
  - cbn [fst snd]. rewrite Epc, Et, Es. auto.
Qed.

Lemma numpy_inv_run (s0 : store) (evs : list bool) :
  forall w s,
    numpy_inv s0 w s ->
    let c' := FN_py.numpy_stress_worker mem_ok evs (w, s) in
    numpy_inv s0 (fst c') (snd c').
Proof.
  induction evs as [|ext evs IH]; intros w s Hinv; cbv zeta.
  - exact Hinv.
  - cbn [FN_py.numpy_stress_worker fst snd].
    pose proof (numpy_inv_step s0 w s ext Hinv) as H. cbv zeta in H.
    destruct (FN_py.worker_step mem_ok w (env_stop ext s)) as [w' s'].
    apply IH. exact H.
Qed.

Lemma sum_list_constant (x : Z) (l : list Z) :
  Forall (fun e => e = x) l -> sum_list l = x * Z.of_nat (length l).
Proof.
  unfold sum_list. induction 1 as [|e l He _ IH]; cbn [fold_right length].
  - lia.
  - rewrite IH, He. lia.
Qed.

(** X13.  What [matrix_worker] reports is what it holds.  At every point of
    every run, whatever the allocator and whoever sets the event, the
    tally [local_count] is the number of retained matrices and
    [local_bytes] is their size, 50,000,000 bytes each; the shared counters
    are untouched until the [finally] block has run, and from then on hold
    their initial values plus the two tallies, as [c_ulonglong]s. *)
Theorem matrix_worker_reports_what_it_holds (evs : list bool) (s0 : store) :
  let c := finumpy_py.matrix_worker mem_ok evs (finumpy_py.worker_init, s0) in
  let w := fst c in
  finumpy_py.local_count w = Z.of_nat (length (finumpy_py.data_store w)) /\
  finumpy_py.local_bytes w = sum_list (finumpy_py.data_store w) /\
  finumpy_py.local_bytes w = 50000000 * finumpy_py.local_count w /\
  (finumpy_py.exited w = false ->
   total_counter (snd c) = total_counter s0 /\ scale_counter (snd c) = scale_counter s0) /\
  (finumpy_py.exited w = true ->
   total_counter (snd c) = u64 (total_counter s0 + Z.of_nat (length (finumpy_py.data_store w))) /\
   scale_counter (snd c) = u64 (scale_counter s0 + sum_list (finumpy_py.data_store w))).
Proof.
  cbv zeta.
  pose proof (matrix_inv_run s0 evs _ _ (matrix_inv_init s0)) as H. cbv zeta in H.
  destruct (finumpy_py.matrix_worker mem_ok evs (finumpy_py.worker_init, s0)) as [w s].
  cbn [fst snd] in *. destruct H as (Hc & Hb & Hall & Hcnt).
  pose proof (sum_list_constant _ _ Hall) as Hsum.
  change finumpy_py.size_per_step with 50000000 in *.
  assert (Hbs : finumpy_py.local_bytes w = sum_list (finumpy_py.data_store w)) by lia.
  split; [exact Hc|]. split; [exact Hbs|]. split; [exact Hb|].
  destruct (finumpy_py.exited w).
  - split; [discriminate|]. intros _. rewrite <- Hc, <- Hbs. exact Hcnt.
  - split; [intros _; exact Hcnt|discriminate].
Qed.

(** X14.  [numpy_stress_worker] reports megabytes it really holds.  At every
    point of every run [local_count] is the number of retained arrays,
    each array has 26,214,400 [float32] elements, so the retained bytes
    are exactly [local_count * CHUNK_SIZE_MB] MiB; the shared counter is
    untouched until the [finally] block has run and then holds its initial
    value plus [local_count * CHUNK_SIZE_MB], as a [c_ulonglong]. *)
Theorem numpy_worker_reports_what_it_holds (evs : list bool) (s0 : store) :
  let c := FN_py.numpy_stress_worker mem_ok evs (FN_py.worker_init, s0) in
  let w := fst c in
  FN_py.local_count w = Z.of_nat (length (FN_py.history w)) /\
  Forall (fun e => e = 26214400) (FN_py.history w) /\
  4 * sum_list (FN_py.history w) = FN_py.local_count w * FN_py.CHUNK_SIZE_MB * (1024 * 1024) /\
  scale_counter (snd c) = scale_counter s0 /\
  (FN_py.exited w = false -> total_counter (snd c) = total_counter s0) /\
  (FN_py.exited w = true ->
   total_counter (snd c) = u64 (total_counter s0 + 100 * Z.of_nat (length (FN_py.history w)))).
Proof.
  cbv zeta.
  pose proof (numpy_inv_run s0 evs _ _ (numpy_inv_init s0)) as H. cbv zeta in H.
  destruct (FN_py.numpy_stress_worker mem_ok evs (FN_py.worker_init, s0)) as [w s].
  cbn [fst snd] in *. destruct H as (Hc & Hall & Hsc & Hcnt).
  pose proof (sum_list_constant _ _ Hall) as Hsum.
  change FN_py.elements with 26214400 in *.
  change FN_py.CHUNK_SIZE_MB with 100 in *.
  split; [exact Hc|]. split; [exact Hall|]. split; [lia|]. split; [exact Hsc|].
  destruct (FN_py.exited w).
  - split; [discriminate|]. intros _. rewrite Hcnt. f_equal. lia.
  - split; [intros _; exact Hcnt|discriminate].
Qed.

End DenseWorkerAccounts.

(* ================================================================== *)
(** * The dense workers on a bounded allocator *)
(* ================================================================== *)

Section DenseWorkerOutOfMemory.

Variable t : nat.

Lemma capacity_true (n : nat) : capacity t n = true -> (n < t)%nat.
Proof. unfold capacity. apply Nat.ltb_lt. Qed.

Lemma capacity_false (n : nat) : capacity t n = false -> (t <= n)%nat.
Proof. unfold capacity. apply Nat.ltb_ge. Qed.

Lemma matrix_capacity_step (w : finumpy_py.worker) (s : store) :
  dense_capacity_inv t (finumpy_py.w_pc w) (length (finumpy_py.data_store w)) s ->
  let c' := finumpy_py.worker_step (capacity t) w s in
  dense_capacity_inv t (finumpy_py.w_pc (fst c')) (length (finumpy_py.data_store (fst c')))
                     (snd c') /\
  (dense_potential t (finumpy_py.w_pc (fst c')) (length (finumpy_py.data_store (fst c')))
   <= pred (dense_potential t (finumpy_py.w_pc w) (length (finumpy_py.data_store w))))%nat.
Proof.
  intros Hinv. cbv zeta. unfold finumpy_py.worker_step.
  destruct (finumpy_py.w_pc w) eqn:Epc; cbn [dense_capacity_inv dense_potential] in Hinv |- *.
  - destruct Hinv as [Hs Hl]. rewrite Hs.
    cbn [fst snd finumpy_py.w_pc finumpy_py.data_store dense_capacity_inv dense_potential].
    split; [auto|lia].
  - destruct Hinv as [Hs Hl]. rewrite Hs, andb_false_r.
    destruct (capacity t (length (finumpy_py.data_store w))) eqn:Ec.
    + apply capacity_true in Ec.
      cbn [fst snd finumpy_py.w_pc finumpy_py.data_store dense_capacity_inv dense_potential
           length].
      split; [split; [exact Hs|lia]|lia].
    + apply capacity_false in Ec.
      cbn [fst snd finumpy_py.w_pc finumpy_py.data_store dense_capacity_inv dense_potential].
      split; [split; [reflexivity|lia]|lia].
  - cbn [fst snd finumpy_py.w_pc finumpy_py.data_store dense_capacity_inv dense_potential].
    split; [exact Hinv|lia].
  - cbn [fst snd]. rewrite Epc. cbn [dense_capacity_inv dense_potential].
    split; [exact Hinv|lia].
Qed.

Lemma matrix_capacity_run (n : nat) :
  forall w s,
    dense_capacity_inv t (finumpy_py.w_pc w) (length (finumpy_py.data_store w)) s ->
    let c' := finumpy_py.matrix_worker (capacity t) (repeat false n) (w, s) in
    dense_capacity_inv t (finumpy_py.w_pc (fst c')) (length (finumpy_py.data_store (fst c')))
                       (snd c') /\
    (dense_potential t (finumpy_py.w_pc (fst c')) (length (finumpy_py.data_store (fst c')))
     <= dense_potential t (finumpy_py.w_pc w) (length (finumpy_py.data_store w)) - n)%nat.
Proof.
  induction n as [|n IH]; intros w s Hinv; cbv zeta.
  - cbn [repeat finumpy_py.matrix_worker fst snd]. split; [exact Hinv|lia].
  - cbn [repeat finumpy_py.matrix_worker fst snd]. rewrite env_stop_false.
    pose proof (matrix_capacity_step w s Hinv) as [Hinv' Hpot]. cbv zeta in Hinv', Hpot.
    destruct (finumpy_py.worker_step (capacity t) w s) as [w' s']. cbn [fst snd] in *.
    destruct (IH w' s' Hinv') as [H1 H2]. split; [exact H1|lia].
Qed.

Lemma numpy_capacity_step (w : FN_py.worker) (s : store) :
  dense_capacity_inv t (FN_py.w_pc w) (length (FN_py.history w)) s ->
  let c' := FN_py.worker_step (capacity t) w s in
  dense_capacity_inv t (FN_py.w_pc (fst c')) (length (FN_py.history (fst c'))) (snd c') /\
  (dense_potential t (FN_py.w_pc (fst c')) (length (FN_py.history (fst c')))
   <= pred (dense_potential t (FN_py.w_pc w) (length (FN_py.history w))))%nat.
Proof.
  intros Hinv. cbv zeta. unfold FN_py.worker_step.
  destruct (FN_py.w_pc w) eqn:Epc; cbn [dense_capacity_inv dense_potential] in Hinv |- *.
  - destruct Hinv as [Hs Hl]. rewrite Hs.
    cbn [fst snd FN_py.w_pc FN_py.history dense_capacity_inv dense_potential].
    split; [auto|lia].
  - destruct Hinv as [Hs Hl]. rewrite Hs.
    destruct (capacity t (length (FN_py.history w))) eqn:Ec.
    + apply capacity_true in Ec.
      cbn [fst snd FN_py.w_pc FN_py.history dense_capacity_inv dense_potential length].
      split; [split; [exact Hs|lia]|lia].
    + apply capacity_false in Ec.
      cbn [fst snd FN_py.w_pc FN_py.history dense_capacity_inv dense_potential].
      split; [split; [reflexivity|lia]|lia].
  - cbn [fst snd FN_py.w_pc FN_py.history dense_capacity_inv dense_potential stop_event].
    split; [exact Hinv|lia].
  - cbn [fst snd]. rewrite Epc. cbn [dense_capacity_inv dense_potential].
    split; [exact Hinv|lia].
Qed.

Lemma numpy_capacity_run (n : nat) :
  forall w s,
    dense_capacity_inv t (FN_py.w_pc w) (length (FN_py.history w)) s ->
    let c' := FN_py.numpy_stress_worker (capacity t) (repeat false n) (w, s) in
    dense_capacity_inv t (FN_py.w_pc (fst c')) (length (FN_py.history (fst c'))) (snd c') /\
    (dense_potential t (FN_py.w_pc (fst c')) (length (FN_py.history (fst c')))
     <= dense_potential t (FN_py.w_pc w) (length (FN_py.history w)) - n)%nat.
Proof.
  induction n as [|n IH]; intros w s Hinv; cbv zeta.
  - cbn [repeat FN_py.numpy_stress_worker fst snd]. split; [exact Hinv|lia].
  - cbn [repeat FN_py.numpy_stress_worker fst snd]. rewrite env_stop_false.
    pose proof (numpy_capacity_step w s Hinv) as [Hinv' Hpot]. cbv zeta in Hinv', Hpot.
    destruct (FN_py.worker_step (capacity t) w s) as [w' s']. cbn [fst snd] in *.
    destruct (IH w' s' Hinv') as [H1 H2]. split; [exact H1|lia].
Qed.

(** X15.  A dense worker left alone fills its memory and then stops the
    test.  On an allocator that gives out at [t] retained items, with the
    event clear at the start and set by nobody else, [2 * t + 3] steps
    bring [matrix_worker] and [numpy_stress_worker] to their exit: the
    event is set, exactly [t] items are retained, and the shared counters
    hold their initial values plus [t] matrices and [50,000,000 * t] bytes
    (finumpy.py), respectively plus [100 * t] megabytes (FN.py). *)
Theorem dense_workers_fill_memory_then_stop (n : nat) (s0 : store) :
  stop_event s0 = false -> (2 * t + 3 <= n)%nat ->
  let m := finumpy_py.matrix_worker (capacity t) (repeat false n) (finumpy_py.worker_init, s0) in
  let f := FN_py.numpy_stress_worker (capacity t) (repeat false n) (FN_py.worker_init, s0) in
  (finumpy_py.exited (fst m) = true /\
   stop_event (snd m) = true /\
   length (finumpy_py.data_store (fst m)) = t /\
   total_counter (snd m) = u64 (total_counter s0 + Z.of_nat t) /\
   scale_counter (snd m) = u64 (scale_counter s0 + 50000000 * Z.of_nat t)) /\
  (FN_py.exited (fst f) = true /\
   stop_event (snd f) = true /\
   length (FN_py.history (fst f)) = t /\
   total_counter (snd f) = u64 (total_counter s0 + 100 * Z.of_nat t) /\
   scale_counter (snd f) = scale_counter s0).
Proof.
  intros Hs Hn. cbv zeta. split.
  - destruct (matrix_capacity_run n finumpy_py.worker_init s0) as [Hcap Hpot].
    { cbn. split; [exact Hs|lia]. }
    cbv zeta in Hcap, Hpot.
    pose proof (matrix_inv_run (capacity t) s0 (repeat false n) _ _ (matrix_inv_init s0)) as Hacc.
    cbv zeta in Hacc.
    destruct (finumpy_py.matrix_worker (capacity t) (repeat false n)
                (finumpy_py.worker_init, s0)) as [w s].
    cbn [fst snd] in *.
    change (finumpy_py.w_pc finumpy_py.worker_init) with DWhile in Hpot.
    change (length (finumpy_py.data_store finumpy_py.worker_init)) with 0%nat in Hpot.
    destruct Hacc as (Hc & Hb & _ & Hcnt).
    unfold finumpy_py.exited in *.
    change finumpy_py.size_per_step with 50000000 in *.
    destruct (finumpy_py.w_pc w); cbn [dense_potential dense_capacity_inv] in *; try lia.
    destruct Hcap as [Hst Hlen]. destruct Hcnt as [Ht Hsc].
    rewrite Ht, Hsc, Hb, Hc, Hlen. auto.
  - destruct (numpy_capacity_run n FN_py.worker_init s0) as [Hcap Hpot].
    { cbn. split; [exact Hs|lia]. }
    cbv zeta in Hcap, Hpot.
    pose proof (numpy_inv_run (capacity t) s0 (repeat false n) _ _ (numpy_inv_init s0)) as Hacc.
    cbv zeta in Hacc.
    destruct (FN_py.numpy_stress_worker (capacity t) (repeat false n)
                (FN_py.worker_init, s0)) as [w s].
    cbn [fst snd] in *.
    change (FN_py.w_pc FN_py.worker_init) with DWhile in Hpot.
    change (length (FN_py.history FN_py.worker_init)) with 0%nat in Hpot.
    destruct Hacc as (Hc & _ & Hsc & Hcnt).
    unfold FN_py.exited in *.
    change FN_py.CHUNK_SIZE_MB with 100 in *.
    destruct (FN_py.w_pc w); cbn [dense_potential dense_capacity_inv] in *; try lia.
    destruct Hcap as [Hst Hlen].
    rewrite Hcnt, Hc, Hlen. repeat split; auto. f_equal. lia.
Qed.

End DenseWorkerOutOfMemory.

Lemma dense_workers_fill_memory_witness :
  total_counter (snd (finumpy_py.matrix_worker (capacity 4) (repeat false 11)
                        (finumpy_py.worker_init, store_init))) = 4 /\
  scale_counter (snd (finumpy_py.matrix_worker (capacity 4) (repeat false 11)
                        (finumpy_py.worker_init, store_init))) = 200000000 /\
  total_counter (snd (FN_py.numpy_stress_worker (capacity 4) (repeat false 11)
                        (FN_py.worker_init, store_init))) = 400.
Proof.
  destruct (dense_workers_fill_memory_then_stop 4 11 store_init eq_refl ltac:(lia))
    as [(_ & _ & _ & H1 & H2) (_ & _ & _ & H3 & _)].
  rewrite H1, H2, H3. repeat split; reflexivity.
Defined.

(* ================================================================== *)
(** * d.py: [burn] *)
(* ================================================================== *)

Lemma env_only_cons (ext : bool) (evs : list bool) (s : store) :
  env_only (ext :: evs) s = env_only evs (env_stop ext s).
Proof. reflexivity. Qed.

Lemma burn_run (t : nat) (evs : list bool) :
  forall w s,
    d_py.crashed w = false -> (length (d_py.data w) <= t)%nat ->
    Forall (fun b => b = 67108864) (d_py.data w) ->
    let c := d_py.burn (capacity t) evs (w, s) in
    length (d_py.data (fst c)) = Nat.min (length (d_py.data w) + length evs) t /\
    d_py.crashed (fst c) = (t - length (d_py.data w) <? length evs)%nat /\
    Forall (fun b => b = 67108864) (d_py.data (fst c)) /\
    snd c = env_only evs s.
Proof.
  induction evs as [|ext evs IH]; intros w s Hc Hl Hall; cbv zeta.
  - cbn [d_py.burn fst snd length env_only fold_left]. rewrite Hc.
    repeat split; auto. lia.
  - cbn [d_py.burn fst snd length]. rewrite env_only_cons.
    unfold d_py.worker_step at 1 2 3 4. rewrite Hc.
    destruct (capacity t (length (d_py.data w))) eqn:Ec.
    + apply Nat.ltb_lt in Ec.
      destruct (IH (d_py.mkWorker false (d_py.CHUNK_MB * 1024 * 1024 :: d_py.data w))
                   (env_stop ext s)) as (H1 & H2 & H3 & H4).
      * reflexivity.
      * cbn [d_py.data length]. lia.
      * constructor; [reflexivity|exact Hall].
      * cbn [d_py.data length] in H1, H2.
        split; [rewrite H1; lia|]. split; [|auto].
        rewrite H2. destruct (Nat.ltb_spec (t - S (length (d_py.data w))) (length evs));
          destruct (Nat.ltb_spec (t - length (d_py.data w)) (S (length evs))); auto; lia.
    + apply Nat.ltb_ge in Ec.
      assert (Hst : forall evs' c, d_py.crashed (fst c) = true ->
                      fst (d_py.burn (capacity t) evs' c) = fst c /\
                      snd (d_py.burn (capacity t) evs' c) = env_only evs' (snd c)).
      { induction evs' as [|e evs' IH']; intros [w' s'] Hw'; cbn [d_py.burn fst snd] in *.
        - auto.
        - rewrite env_only_cons.
          assert (E : d_py.worker_step (capacity t) w' = w')
            by (unfold d_py.worker_step; rewrite Hw'; reflexivity).
          rewrite E. apply (IH' (w', env_stop e s')). exact Hw'. }
      destruct (Hst evs (d_py.mkWorker true (d_py.data w), env_stop ext s) eq_refl) as [E1 E2].
      rewrite E1, E2. cbn [fst snd d_py.data d_py.crashed].
      split; [lia|]. split; [|auto].
      symmetry. apply Nat.ltb_lt. lia.
Qed.

(** X16.  [burn] holds on to everything until the allocator refuses.  On an
    allocator that gives out at [t] retained buffers, after any number of
    passes through its loop [burn] retains [min(passes, t)] buffers of
    67,108,864 bytes each, and it has been ended by the uncaught
    [MemoryError] exactly when more than [t] passes were made; whatever
    happens to the shared objects is the doing of others. *)
Theorem burn_retains_until_allocation_fails (t : nat) (evs : list bool) (s0 : store) :
  let c := d_py.burn (capacity t) evs (d_py.worker_init, s0) in
  length (d_py.data (fst c)) = Nat.min (length evs) t /\
  Forall (fun b => b = 64 * 1024 * 1024) (d_py.data (fst c)) /\
  (d_py.exited (fst c) = true <-> (t < length evs)%nat) /\
  snd c = env_only evs s0.
Proof.
  cbv zeta.
  destruct (burn_run t evs d_py.worker_init s0) as (H1 & H2 & H3 & H4).
  - reflexivity.
  - cbn. lia.
  - constructor.
  - cbv zeta in *. cbn [d_py.worker_init d_py.data length] in H1, H2.
    rewrite Nat.sub_0_r in H2. unfold d_py.exited. rewrite H2.
    split; [exact H1|]. split; [exact H3|]. split; [apply Nat.ltb_lt|exact H4].
Qed.

(* ================================================================== *)
(** * c.py: the worker that is not started *)
(* ================================================================== *)

Lemma for_next_in_range (i : Z) : 0 <= i -> pc_in_range (for_next i).
Proof.
  intros Hi. unfold for_next.
  destruct (Z.ltb_spec i BATCH_SIZE); cbn [pc_in_range]; [lia|exact I].
Qed.

Lemma safe_step_spec (w : c_py_safe.worker) (s : store) (k : nat) :
  pc_in_range (c_py_safe.w_pc w) ->
  c_py_safe.regs w = state_after k ->
  c_py_safe.local_scale_count w = rescale_count k ->
  c_py_safe.local_added_count w = 0 ->
  let c' := c_py_safe.worker_step w s in
  snd c' = s /\
  pc_in_range (c_py_safe.w_pc (fst c')) /\
  c_py_safe.local_added_count (fst c') = 0 /\
  (exists k', (k <= k' <= S k)%nat /\
     c_py_safe.regs (fst c') = state_after k' /\
     c_py_safe.local_scale_count (fst c') = rescale_count k') /\
  (stop_event s = true ->
   (fib_fuel (c_py_safe.w_pc (fst c')) <= pred (fib_fuel (c_py_safe.w_pc w)))%nat).
Proof.
  intros Hpc Hr Hsc Hadd. cbv zeta. unfold c_py_safe.worker_step.
  pose proof BATCH_SIZE_pos as HB.
  assert (Hsame : exists k', (k <= k' <= S k)%nat /\
                    c_py_safe.regs w = state_after k' /\
                    c_py_safe.local_scale_count w = rescale_count k')
    by (exists k; split; [lia|split; assumption]).
  destruct (c_py_safe.w_pc w) as [|i| | |] eqn:Epc.
  - destruct (stop_event s) eqn:Es;
      cbn [fst snd c_py_safe.w_pc c_py_safe.regs c_py_safe.local_added_count
           c_py_safe.local_scale_count].
    + refine (conj eq_refl (conj I (conj Hadd (conj Hsame _)))).
      intros _. cbn. lia.
    + refine (conj eq_refl (conj _ (conj Hadd (conj Hsame _)))).
      * apply for_next_in_range. lia.
      * discriminate.
  - cbn [pc_in_range] in Hpc.
    pose proof (state_after_S k) as HS. pose proof (rescale_count_S k) as HR.
    rewrite <- Hr in HS, HR.
    destruct (advance (c_py_safe.regs w)) as [r rescaled]. cbn [fst snd] in HS, HR.
    cbn [fst snd c_py_safe.w_pc c_py_safe.regs c_py_safe.local_added_count
         c_py_safe.local_scale_count].
    refine (conj eq_refl (conj _ (conj Hadd (conj _ _)))).
    + apply for_next_in_range. lia.
    + exists (S k). split; [lia|]. split; [auto|].
      rewrite HR, Hsc. reflexivity.
    + intros _. destruct (Z_lt_le_dec (i + 1) BATCH_SIZE) as [Hlt|Hge].
      * rewrite for_next_lt by exact Hlt. cbn [fib_fuel]. lia.
      * rewrite for_next_ge by exact Hge. cbn [fib_fuel]. lia.
  - cbn [fst snd c_py_safe.w_pc c_py_safe.regs c_py_safe.local_added_count
         c_py_safe.local_scale_count].
    refine (conj eq_refl (conj I (conj Hadd (conj Hsame _)))).
    intros _. cbn. lia.
  - cbn [fst snd c_py_safe.w_pc c_py_safe.regs c_py_safe.local_added_count
         c_py_safe.local_scale_count].
    refine (conj eq_refl (conj I (conj Hadd (conj Hsame _)))).
    intros _. cbn. lia.
  - cbn [fst snd]. rewrite Epc.
    refine (conj eq_refl (conj I (conj Hadd (conj Hsame _)))).
    intros _. cbn. lia.
Qed.

Lemma safe_run_spec (evs : list bool) :
  forall w s k,
    pc_in_range (c_py_safe.w_pc w) ->
    c_py_safe.regs w = state_after k ->
    c_py_safe.local_scale_count w = rescale_count k ->
    c_py_safe.local_added_count w = 0 ->
    let c' := c_py_safe.fibonacci_worker_safe evs (w, s) in
    snd c' = env_only evs s /\
    pc_in_range (c_py_safe.w_pc (fst c')) /\
    c_py_safe.local_added_count (fst c') = 0 /\
    (exists k', (k <= k' <= k + length evs)%nat /\
       c_py_safe.regs (fst c') = state_after k' /\
       c_py_safe.local_scale_count (fst c') = rescale_count k') /\
    (stop_event s = true ->
     (fib_fuel (c_py_safe.w_pc (fst c')) <= fib_fuel (c_py_safe.w_pc w) - length evs)%nat).
Proof.
  induction evs as [|ext evs IH]; intros w s k Hpc Hr Hsc Hadd; cbv zeta.
  - cbn [c_py_safe.fibonacci_worker_safe fst snd env_only fold_left length].
    repeat split; auto.
    + exists k. repeat split; auto. lia.
    + intros _. lia.
  - cbn [c_py_safe.fibonacci_worker_safe fst snd length]. rewrite env_only_cons.
    destruct (safe_step_spec w (env_stop ext s) k Hpc Hr Hsc Hadd)
      as (Hst & Hpc' & Hadd' & (k' & Hk' & Hr' & Hsc') & Hfuel).
    cbv zeta in *.
    destruct (c_py_safe.worker_step w (env_stop ext s)) as [w' s'] eqn:E.
    cbn [fst snd] in *. subst s'.
    destruct (IH w' (env_stop ext s) k' Hpc' Hr' Hsc' Hadd')
      as (H1 & H2 & H3 & (k'' & Hk'' & H4 & H5) & H6).
    cbv zeta in *.
    repeat split; auto.
    + exists k''. repeat split; auto; lia.
    + intros Hs. pose proof (env_stop_keeps ext s Hs) as Hs'.
      specialize (Hfuel Hs'). specialize (H6 Hs'). lia.
Qed.

(** X17.  The first worker of c.py reports nothing.  Along every run of
    the [fibonacci_worker_safe] of c.py the shared objects change only by
    what others do to the event: the worker never sets the event and never
    adds to a counter, and its tally [local_added_count] stays 0.  Its
    registers are those of the accumulator after some number [k] of
    iterations, and [local_scale_count] is the number of rescales among
    them. *)
Theorem unused_worker_reports_nothing (evs : list bool) (s0 : store) :
  let c := c_py_safe.fibonacci_worker_safe evs (c_py_safe.worker_init, s0) in
  snd c = env_only evs s0 /\
  total_counter (snd c) = total_counter s0 /\
  scale_counter (snd c) = scale_counter s0 /\
  (stop_event (snd c) = true -> stop_event s0 = true \/ In true evs) /\
  c_py_safe.local_added_count (fst c) = 0 /\
  exists k, (k <= length evs)%nat /\
    c_py_safe.regs (fst c) = state_after k /\
    c_py_safe.local_scale_count (fst c) = rescale_count k.
Proof.
  cbv zeta.
  destruct (safe_run_spec evs c_py_safe.worker_init s0 0%nat I eq_refl eq_refl eq_refl)
    as (H1 & _ & H3 & (k & Hk & H4 & H5) & _).
  cbv zeta in *. rewrite H1.
  assert (Henv : forall l s,
             total_counter (env_only l s) = total_counter s /\
             scale_counter (env_only l s) = scale_counter s /\
             (stop_event (env_only l s) = true -> stop_event s = true \/ In true l)).
  { induction l as [|e l IHl]; intros s.
    - cbn. auto.
    - rewrite env_only_cons. destruct (IHl (env_stop e s)) as (A & B & C).
      destruct (env_stop_counters e s) as [Et Es]. rewrite A, B, Et, Es.
      repeat split; auto. intros H. destruct (C H) as [D|D].
      + destruct e; [right; left; reflexivity|left; exact D].
      + right. right. exact D. }
  destruct (Henv evs s0) as (A & B & C).
  refine (conj eq_refl (conj A (conj B (conj C (conj H3 _))))).
  exists k. split; [lia|]. split; assumption.
Qed.

(** X18.  The first worker of c.py obeys the event: from every state its
    run can reach, once the event is set, [BATCH_SIZE + 3] further steps
    bring it to its exit. *)
Theorem unused_worker_stops_within_a_batch (evs0 evs : list bool) (s0 : store) :
  let c := c_py_safe.fibonacci_worker_safe evs0 (c_py_safe.worker_init, s0) in
  stop_event (snd c) = true ->
  (Z.to_nat BATCH_SIZE + 3 <= length evs)%nat ->
  c_py_safe.exited (fst (c_py_safe.fibonacci_worker_safe evs c)) = true.
Proof.
  cbv zeta. intros Hs Hn.
  destruct (safe_run_spec evs0 c_py_safe.worker_init s0 0%nat I eq_refl eq_refl eq_refl)
    as (_ & Hpc & Hadd & (k & _ & Hr & Hsc) & _).
  cbv zeta in *.
  destruct (c_py_safe.fibonacci_worker_safe evs0 (c_py_safe.worker_init, s0)) as [w s].
  cbn [fst snd] in *.
  destruct (safe_run_spec evs w s k Hpc Hr Hsc Hadd) as (_ & _ & _ & _ & Hfuel).
  cbv zeta in Hfuel. specialize (Hfuel Hs).
  assert (Hb : (fib_fuel (c_py_safe.w_pc w) <= Z.to_nat BATCH_SIZE + 3)%nat).
  { pose proof BATCH_SIZE_pos. destruct (c_py_safe.w_pc w); cbn [fib_fuel pc_in_range] in *; lia. }
  unfold c_py_safe.exited.
  destruct (c_py_safe.w_pc (fst (c_py_safe.fibonacci_worker_safe evs (w, s))));
    cbn [fib_fuel] in Hfuel; try reflexivity; lia.
Qed.

Lemma unused_worker_stops_witness :
  c_py_safe.exited
    (fst (c_py_safe.fibonacci_worker_safe (repeat false (Z.to_nat BATCH_SIZE + 3))
            (c_py_safe.fibonacci_worker_safe [false; false; true]
               (c_py_safe.worker_init, store_init)))) = true.
Proof.
  apply (unused_worker_stops_within_a_batch [false; false; true]
           (repeat false (Z.to_nat BATCH_SIZE + 3)) store_init).
  - reflexivity.
  - rewrite repeat_length. apply Nat.le_refl.
Defined.
